(** * textual-tetris: the game engine of [textris.py] and [textris2.py]

    A shallow embedding of the engine part of the two source files (shape
    table, falling piece, board, scoring and the session state machine),
    followed by the properties established about it.

    Conventions of the embedding.
    - Python integers are [Z]; list indices are [Z] and indexing follows
      Python (a negative index counts from the end, an index out of range
      raises [IndexError]).
    - Code that can raise returns a [result]; the exception is kept.
    - [drop_interval] is a Python float, that is an IEEE-754 binary64 number:
      it is modelled by Rocq's primitive binary64 floats.
    - [random.choice] is replaced by an explicit argument [r : nat], the
      outcome of the generator for the one call an operation can make.
    - Rendering ([update_display], the widgets, the timer object) has no
      effect on the engine state and is left out; of [render_board] the grid
      it draws from is kept, not the text it builds.
    - The source moves and rotates the current piece in place. The current
      and the queued piece are one object only after [_handle_game_over],
      when every operation is switched off, so pieces are plain values
      here. The rows of the grid are distinct lists throughout. *)

From Stdlib Require Import ZArith List String Ascii Bool Lia Floats.
Import ListNotations.

Local Open Scope string_scope.
Local Open Scope list_scope.
Local Open Scope Z_scope.

Set Implicit Arguments.

(* ================================================================== *)
(** * Python primitives *)
(* ================================================================== *)

Module Py.

Inductive exn : Set := IndexError | KeyError | ValueError | ZeroDivisionError.

Inductive result (A : Type) : Type :=
| Ok (a : A)
| Raise (e : exn).
Arguments Ok {A} a.
Arguments Raise {A} e.

Definition bind {A B : Type} (m : result A) (k : A -> result B) : result B :=
  match m with
  | Ok a => k a
  | Raise e => Raise e
  end.

(** [l[i]]: a negative index counts from the end of the list. *)
Definition getitem {A : Type} (l : list A) (i : Z) : result A :=
  let n := Z.of_nat (List.length l) in
  let j := if i <? 0 then i + n else i in
  if (j <? 0) || (n <=? j) then Raise IndexError
  else match nth_error l (Z.to_nat j) with
       | Some a => Ok a
       | None => Raise IndexError
       end.

Fixpoint replace_nth {A : Type} (n : nat) (l : list A) (a : A) : list A :=
  match l, n with
  | [], _ => []
  | _ :: t, O => a :: t
  | h :: t, S n' => h :: replace_nth n' t a
  end.

(** [l[i] = a]. *)
Definition setitem {A : Type} (l : list A) (i : Z) (a : A) : result (list A) :=
  let n := Z.of_nat (List.length l) in
  let j := if i <? 0 then i + n else i in
  if (j <? 0) || (n <=? j) then Raise IndexError
  else Ok (replace_nth (Z.to_nat j) l a).

(** [int(char, 16)] for a one-character string. *)
Definition int16 (c : ascii) : result Z :=
  let n := Z.of_nat (nat_of_ascii c) in
  if (48 <=? n) && (n <=? 57) then Ok (n - 48)
  else if (97 <=? n) && (n <=? 102) then Ok (n - 87)
  else if (65 <=? n) && (n <=? 70) then Ok (n - 55)
  else Raise ValueError.

(** [divmod(a, b)] for [b > 0]. *)
Definition divmod (a b : Z) : Z * Z := (a / b, a mod b).

(** [a % b] *)
Definition modulo (a b : Z) : result Z :=
  if b =? 0 then Raise ZeroDivisionError else Ok (a mod b).

(** [d[key]] on a dict kept as an association list in insertion order. *)
Fixpoint dict_get {V : Type} (d : list (string * V)) (key : string) : result V :=
  match d with
  | [] => Raise KeyError
  | (k, v) :: rest => if String.eqb k key then Ok v else dict_get rest key
  end.

Definition keys {V : Type} (d : list (string * V)) : list string := map fst d.

(** [random.choice(seq)], the generator's draw being [r]. *)
Definition choice {A : Type} (r : nat) (seq : list A) : result A :=
  match seq with
  | [] => Raise IndexError
  | _ => getitem seq (Z.of_nat (r mod List.length seq))
  end.

(** [range(n)] as the number of iterations. *)
Definition range_len (n : Z) : nat := Z.to_nat n.

(** [deque.rotate(-1)] and [deque.rotate(1)]. *)
Definition rotate_left {A : Type} (l : list A) : list A :=
  match l with
  | [] => []
  | a :: t => t ++ [a]
  end.

Definition rotate_right {A : Type} (l : list A) : list A :=
  match rev l with
  | [] => []
  | a :: t => a :: rev t
  end.

(** [deque.rotate(n)]: [n] steps to the right, to the left when negative. *)
Definition deque_rotate {A : Type} (l : list A) (n : Z) : list A :=
  if n <? 0 then Nat.iter (Z.to_nat (- n)) rotate_left l
  else Nat.iter (Z.to_nat n) rotate_right l.

(** [float(n)] for an integer [n], rounded to nearest even. *)
Definition float_of_int (n : Z) : float :=
  SF2Prim (binary_normalize prec emax n 0 false).

(** [max(a, b)] on floats: the first argument unless the second is greater. *)
Definition max_float (a b : float) : float :=
  if PrimFloat.ltb a b then b else a.

End Py.

Import Py.

Declare Scope py_scope.
Delimit Scope py_scope with py.
Notation "x <- m ;; k" := (bind m (fun x => k))
  (at level 61, m at next level, right associativity) : py_scope.
Notation "' p <- m ;; k" := (bind m (fun x => match x with p => k end))
  (at level 61, p pattern, m at next level, right associativity) : py_scope.
Local Open Scope py_scope.

(* ================================================================== *)
(** * Shape table and board cells *)
(* ================================================================== *)

(** [PIECES]: kind, colour, and the hex codes of the four rotation states. *)
Definition PIECES : list (string * (string * list string)) :=
  [ ("O", ("yellow",        ["56a9"; "6a95"; "a956"; "956a"]));
    ("I", ("cyan",          ["4567"; "26ae"; "ba98"; "d951"]));
    ("J", ("blue",          ["0456"; "2159"; "a654"; "8951"]));
    ("L", ("bright_yellow", ["2654"; "a951"; "8456"; "0159"]));
    ("T", ("magenta",       ["1456"; "6159"; "9654"; "4951"]));
    ("Z", ("red",           ["0156"; "2659"; "a954"; "8451"]));
    ("S", ("green",         ["1254"; "a651"; "8956"; "0459"])) ].

(** A board cell holds the integer [0] or the colour name of a locked piece. *)
Inductive cell : Set :=
| Zero
| Color (c : string).

(** [cell != 0] *)
Definition nonzero (c : cell) : bool :=
  match c with
  | Zero => false
  | Color _ => true
  end.

(** Truth value of a cell, as [all(row)] takes it: [0] and the empty string
    are false. *)
Definition truthy (c : cell) : bool :=
  match c with
  | Zero => false
  | Color s => negb (String.eqb s "")
  end.

(** [hex_code_to_coords] of [textris2.py]; [textris.py] has the same loop in
    the body of [TetrisPiece.shape]. *)
Fixpoint hex_chars_to_coords (chars : list ascii) : result (list (Z * Z)) :=
  match chars with
  | [] => Ok []
  | char :: rest =>
      value <- int16 char ;;
      let '(y, x) := divmod value 4 in
      coords <- hex_chars_to_coords rest ;;
      Ok ((x, y) :: coords)
  end.

Definition hex_code_to_coords (code : string) : result (list (Z * Z)) :=
  hex_chars_to_coords (list_ascii_of_string code).

(* ================================================================== *)
(** * [textris.py]: the piece *)
(* ================================================================== *)

Module TetrisPiece.

Record t : Type := Build {
  type : string;
  color : string;
  codes : list string;   (* a deque *)
  code : string;
  x : Z;
  y : Z
}.

(** [TetrisPiece(piece_type)] *)
Definition init (piece_type : string) : result t :=
  entry <- dict_get PIECES piece_type ;;
  let codes := snd entry in
  code <- getitem codes 0 ;;
  Ok {| type := piece_type; color := fst entry; codes := codes;
        code := code; x := 4; y := 0 |}.

(** [TetrisPiece()]: the kind is drawn by [random.choice]. *)
Definition random (r : nat) : result t :=
  piece_type <- choice r (keys PIECES) ;;
  init piece_type.

Definition shape (self : t) : result (list (Z * Z)) :=
  hex_code_to_coords (code self).

Definition blocks (self : t) : result (list (Z * Z)) :=
  coords <- shape self ;;
  Ok (map (fun '(px, py) => (x self + px, y self + py)) coords).

Definition set_codes (self : t) (codes' : list string) (code' : string) : t :=
  {| type := type self; color := color self; codes := codes';
     code := code'; x := x self; y := y self |}.

Definition set_xy (self : t) (x' y' : Z) : t :=
  {| type := type self; color := color self; codes := codes self;
     code := code self; x := x'; y := y' |}.

Definition rotate (self : t) : result t :=
  let codes' := deque_rotate (codes self) (-1) in
  code' <- getitem codes' 0 ;;
  Ok (set_codes self codes' code').

Definition undo_rotate (self : t) : result t :=
  let codes' := deque_rotate (codes self) 1 in
  code' <- getitem codes' 0 ;;
  Ok (set_codes self codes' code').

End TetrisPiece.

(* ================================================================== *)
(** * [textris.py]: the board *)
(* ================================================================== *)

Module TetrisBoard.

Record t : Type := Build {
  board_width : Z;
  board_height : Z;
  board : list (list cell);
  current_piece : TetrisPiece.t
}.

Definition set_board (self : t) (rows : list (list cell)) : t :=
  {| board_width := board_width self; board_height := board_height self;
     board := rows; current_piece := current_piece self |}.

Definition set_current_piece (self : t) (piece : TetrisPiece.t) : t :=
  {| board_width := board_width self; board_height := board_height self;
     board := board self; current_piece := piece |}.

(** [[[0 for _ in range(width)] for _ in range(n)]] *)
Definition empty_rows (width n : Z) : list (list cell) :=
  repeat (repeat Zero (range_len width)) (range_len n).

(** [TetrisBoard(width, height)]; the widget is built with the defaults
    [width=10, height=20]. *)
Definition init (r : nat) (width height : Z) : result t :=
  piece <- TetrisPiece.random r ;;
  Ok {| board_width := width; board_height := height;
        board := empty_rows width height; current_piece := piece |}.

(** The loop of [check_collision] over the blocks of the current piece. *)
Fixpoint check_collision_loop (self : t) (blocks : list (Z * Z)) : result bool :=
  match blocks with
  | [] => Ok false
  | (board_x, board_y) :: rest =>
      if (board_x <? 0) || (board_x >=? board_width self)
         || (board_y >=? board_height self)
      then Ok true
      else if board_y >=? 0 then
        row <- getitem (board self) board_y ;;
        c <- getitem row board_x ;;
        if nonzero c then Ok true else check_collision_loop self rest
      else check_collision_loop self rest
  end.

Definition check_collision (self : t) : result bool :=
  blocks <- TetrisPiece.blocks (current_piece self) ;;
  check_collision_loop self blocks.

(** The first loop of [lock_piece]: the blocks of the current piece that
    are inside the grid are written with the piece's colour. *)
Fixpoint lock_loop (self : t) (blocks : list (Z * Z)) : result t :=
  match blocks with
  | [] => Ok self
  | (board_x, board_y) :: rest =>
      if (0 <=? board_x) && (board_x <? board_width self)
         && (0 <=? board_y) && (board_y <? board_height self)
      then
        row <- getitem (board self) board_y ;;
        row' <- setitem row board_x (Color (TetrisPiece.color (current_piece self))) ;;
        rows' <- setitem (board self) board_y row' ;;
        lock_loop (set_board self rows') rest
      else lock_loop self rest
  end.

Definition lock_blocks (self : t) : result t :=
  blocks <- TetrisPiece.blocks (current_piece self) ;;
  lock_loop self blocks.

(** [all(row)] *)
Definition all (row : list cell) : bool := forallb truthy row.

Definition _clear_full_lines (self : t) : t * Z :=
  let new_rows := filter (fun row => negb (all row)) (board self) in
  let cleared := board_height self - Z.of_nat (List.length new_rows) in
  if negb (cleared =? 0) then
    (set_board self (empty_rows (board_width self) cleared ++ new_rows), cleared)
  else
    (set_board self new_rows, cleared).

End TetrisBoard.

(* ================================================================== *)
(** * [textris.py]: the application (the game session) *)
(* ================================================================== *)

Set Warnings "-inexact-float".

Module TetrisApp.

Record t : Type := Build {
  board : TetrisBoard.t;
  drop_interval : float;     (* seconds *)
  score : Z;
  level : Z;
  lines_cleared : Z;
  next_piece : TetrisPiece.t;
  game_over : bool
}.

(** [self.lines_per_level = 10], assigned once in [__init__]. *)
Definition lines_per_level : Z := 10.

Definition set_board (self : t) (b : TetrisBoard.t) : t :=
  {| board := b; drop_interval := drop_interval self; score := score self;
     level := level self; lines_cleared := lines_cleared self;
     next_piece := next_piece self; game_over := game_over self |}.

Definition set_score (self : t) (score' lines' : Z) : t :=
  {| board := board self; drop_interval := drop_interval self; score := score';
     level := level self; lines_cleared := lines';
     next_piece := next_piece self; game_over := game_over self |}.

Definition set_level (self : t) (level' : Z) (interval' : float) : t :=
  {| board := board self; drop_interval := interval'; score := score self;
     level := level'; lines_cleared := lines_cleared self;
     next_piece := next_piece self; game_over := game_over self |}.

Definition set_next_piece (self : t) (piece : TetrisPiece.t) : t :=
  {| board := board self; drop_interval := drop_interval self; score := score self;
     level := level self; lines_cleared := lines_cleared self;
     next_piece := piece; game_over := game_over self |}.

Definition set_current_piece (self : t) (piece : TetrisPiece.t) : t :=
  set_board self (TetrisBoard.set_current_piece (board self) piece).

(** [{1: 100, 2: 300, 3: 500, 4: 800}.get(cleared_lines, cleared_lines * 200)] *)
Definition line_score (cleared_lines : Z) : Z :=
  match cleared_lines with
  | 1 => 100
  | 2 => 300
  | 3 => 500
  | 4 => 800
  | _ => cleared_lines * 200
  end.

(** [max(0.1, 1.0 - (level - 1) * 0.1)] *)
Definition interval_of_level (level : Z) : float :=
  max_float 0.1%float (1.0 - float_of_int (level - 1) * 0.1)%float.

Definition on_piece_locked (self : t) (cleared_lines : Z) : t :=
  let self1 :=
    if negb (cleared_lines =? 0) then
      set_score self (score self + line_score cleared_lines * level self)
                     (lines_cleared self + cleared_lines)
    else
      set_score self (score self + 10) (lines_cleared self) in
  let new_level := Z.max 1 (1 + lines_cleared self1 / lines_per_level) in
  if negb (new_level =? level self1) then
    set_level self1 new_level (interval_of_level new_level)
  else self1.

Definition _queue_new_piece (r : nat) (self : t) : result t :=
  piece <- TetrisPiece.random r ;;
  Ok (set_next_piece self piece).

Definition _handle_game_over (self : t) : t :=
  {| board := board self; drop_interval := drop_interval self; score := score self;
     level := level self; lines_cleared := lines_cleared self;
     next_piece := next_piece self; game_over := true |}.

Definition spawn_next_piece (r : nat) (self : t) : result t :=
  if game_over self then Ok self
  else
    let self1 := set_current_piece self (next_piece self) in
    collides <- TetrisBoard.check_collision (board self1) ;;
    if collides then Ok (_handle_game_over self1)
    else _queue_new_piece r self1.

(** [TetrisBoard.lock_piece], which calls back into the application. *)
Definition lock_piece (r : nat) (self : t) : result t :=
  b <- TetrisBoard.lock_blocks (board self) ;;
  let '(b', cleared) := TetrisBoard._clear_full_lines b in
  spawn_next_piece r (on_piece_locked (set_board self b') cleared).

(** [TetrisBoard.move_piece(dx, dy)] *)
Definition move_piece (dx dy : Z) (r : nat) (self : t) : result (t * bool) :=
  let piece := TetrisBoard.current_piece (board self) in
  let '(old_x, old_y) := (TetrisPiece.x piece, TetrisPiece.y piece) in
  let moved := set_current_piece self (TetrisPiece.set_xy piece (old_x + dx) (old_y + dy)) in
  collides <- TetrisBoard.check_collision (board moved) ;;
  if collides then
    let reverted :=
      set_current_piece moved
        (TetrisPiece.set_xy (TetrisBoard.current_piece (board moved)) old_x old_y) in
    if dy >? 0 then
      locked <- lock_piece r reverted ;;
      Ok (locked, false)
    else Ok (reverted, false)
  else Ok (moved, true).

(** [TetrisBoard.rotate_piece()] *)
Definition rotate_piece (self : t) : result (t * bool) :=
  rotated <- TetrisPiece.rotate (TetrisBoard.current_piece (board self)) ;;
  let self1 := set_current_piece self rotated in
  collides <- TetrisBoard.check_collision (board self1) ;;
  if collides then
    restored <- TetrisPiece.undo_rotate rotated ;;
    Ok (set_current_piece self1 restored, false)
  else Ok (self1, true).

Definition auto_drop (r : nat) (self : t) : result t :=
  if negb (game_over self) then
    ' (self', _) <- move_piece 0 1 r self ;; Ok self'
  else Ok self.

Definition action_move_left (r : nat) (self : t) : result t :=
  if negb (game_over self) then
    ' (self', _) <- move_piece (-1) 0 r self ;; Ok self'
  else Ok self.

Definition action_move_right (r : nat) (self : t) : result t :=
  if negb (game_over self) then
    ' (self', _) <- move_piece 1 0 r self ;; Ok self'
  else Ok self.

Definition action_move_down (r : nat) (self : t) : result t :=
  if negb (game_over self) then
    ' (self', _) <- move_piece 0 1 r self ;; Ok self'
  else Ok self.

Definition action_rotate (self : t) : result t :=
  if negb (game_over self) then
    ' (self', _) <- rotate_piece self ;; Ok self'
  else Ok self.

(** [while self.board.move_piece(0, 1): pass], with [fuel] bounding the
    number of iterations: [None] when the bound is reached. *)
Fixpoint hard_drop_loop (fuel : nat) (r : nat) (self : t) : option (result t) :=
  match fuel with
  | O => None
  | S fuel' =>
      match move_piece 0 1 r self with
      | Raise e => Some (Raise e)
      | Ok (self', true) => hard_drop_loop fuel' r self'
      | Ok (self', false) => Some (Ok self')
      end
  end.

Definition action_hard_drop (fuel : nat) (r : nat) (self : t) : option (result t) :=
  if negb (game_over self) then hard_drop_loop fuel r self
  else Some (Ok self).

(** The part of [_update_all_displays] that touches the session: the board
    starts with the queued piece and another one is queued. *)
Definition _update_all_displays (r : nat) (self : t) : result t :=
  _queue_new_piece r (set_current_piece self (next_piece self)).

(** The session once the application is mounted: [__init__], the default
    [TetrisBoard()] of [compose], then [_update_all_displays]. *)
Definition init (r_next r_board r_queue : nat) : result t :=
  next <- TetrisPiece.random r_next ;;
  b <- TetrisBoard.init r_board 10 20 ;;
  _update_all_displays r_queue
    {| board := b; drop_interval := 1.0%float; score := 0; level := 1;
       lines_cleared := 0; next_piece := next; game_over := false |}.


End TetrisApp.

(* ================================================================== *)
(** * [textris2.py]: the variant without game over *)
(* ================================================================== *)

(** [textris2.py] shares [PIECES], the decoding of the codes and, word for
    word, [check_collision], [lock_piece], [_clear_full_lines], [move_piece]
    and [on_piece_locked]. It keeps a rotation index instead of a deque,
    restores the index after a rejected rotation, and has neither
    [game_over], nor the hard drop, nor the restart. *)
Module Textris2.

Module TetrisPiece.

Record t : Type := Build {
  type : string;
  color : string;
  codes : list string;
  rotation : Z;
  x : Z;
  y : Z
}.

Definition init (piece_type : string) : result t :=
  entry <- dict_get PIECES piece_type ;;
  Ok {| type := piece_type; color := fst entry; codes := snd entry;
        rotation := 0; x := 4; y := 0 |}.

Definition random (r : nat) : result t :=
  piece_type <- choice r (keys PIECES) ;;
  init piece_type.

Definition shape (self : t) : result (list (Z * Z)) :=
  i <- modulo (rotation self) (Z.of_nat (List.length (codes self))) ;;
  code <- getitem (codes self) i ;;
  hex_code_to_coords code.

Definition blocks (self : t) : result (list (Z * Z)) :=
  coords <- shape self ;;
  Ok (map (fun '(px, py) => (x self + px, y self + py)) coords).

Definition set_rotation (self : t) (rotation' : Z) : t :=
  {| type := type self; color := color self; codes := codes self;
     rotation := rotation'; x := x self; y := y self |}.

Definition set_xy (self : t) (x' y' : Z) : t :=
  {| type := type self; color := color self; codes := codes self;
     rotation := rotation self; x := x'; y := y' |}.

Definition rotate (self : t) : result t :=
  rotation' <- modulo (rotation self + 1) (Z.of_nat (List.length (codes self))) ;;
  Ok (set_rotation self rotation').

End TetrisPiece.

Module TetrisBoard.

Record t : Type := Build {
  board_width : Z;
  board_height : Z;
  board : list (list cell);
  current_piece : TetrisPiece.t
}.

Definition set_board (self : t) (rows : list (list cell)) : t :=
  {| board_width := board_width self; board_height := board_height self;
     board := rows; current_piece := current_piece self |}.

Definition set_current_piece (self : t) (piece : TetrisPiece.t) : t :=
  {| board_width := board_width self; board_height := board_height self;
     board := board self; current_piece := piece |}.

Definition empty_rows (width n : Z) : list (list cell) :=
  repeat (repeat Zero (range_len width)) (range_len n).

Definition init (r : nat) (width height : Z) : result t :=
  piece <- TetrisPiece.random r ;;
  Ok {| board_width := width; board_height := height;
        board := empty_rows width height; current_piece := piece |}.

Fixpoint check_collision_loop (self : t) (blocks : list (Z * Z)) : result bool :=
  match blocks with
  | [] => Ok false
  | (board_x, board_y) :: rest =>
      if (board_x <? 0) || (board_x >=? board_width self)
         || (board_y >=? board_height self)
      then Ok true
      else if board_y >=? 0 then
        row <- getitem (board self) board_y ;;
        c <- getitem row board_x ;;
        if nonzero c then Ok true else check_collision_loop self rest
      else check_collision_loop self rest
  end.

Definition check_collision (self : t) : result bool :=
  blocks <- TetrisPiece.blocks (current_piece self) ;;
  check_collision_loop self blocks.

Fixpoint lock_loop (self : t) (blocks : list (Z * Z)) : result t :=
  match blocks with
  | [] => Ok self
  | (board_x, board_y) :: rest =>
      if (0 <=? board_x) && (board_x <? board_width self)
         && (0 <=? board_y) && (board_y <? board_height self)
      then
        row <- getitem (board self) board_y ;;
        row' <- setitem row board_x (Color (TetrisPiece.color (current_piece self))) ;;
        rows' <- setitem (board self) board_y row' ;;
        lock_loop (set_board self rows') rest
      else lock_loop self rest
  end.

Definition lock_blocks (self : t) : result t :=
  blocks <- TetrisPiece.blocks (current_piece self) ;;
  lock_loop self blocks.

Definition all (row : list cell) : bool := forallb truthy row.

Definition _clear_full_lines (self : t) : t * Z :=
  let new_rows := filter (fun row => negb (all row)) (board self) in
  let cleared := board_height self - Z.of_nat (List.length new_rows) in
  if negb (cleared =? 0) then
    (set_board self (empty_rows (board_width self) cleared ++ new_rows), cleared)
  else
    (set_board self new_rows, cleared).

End TetrisBoard.

Module TetrisApp.

Record t : Type := Build {
  board : TetrisBoard.t;
  drop_interval : float;
  score : Z;
  level : Z;
  lines_cleared : Z;
  next_piece : TetrisPiece.t
}.

Definition lines_per_level : Z := 10.

Definition set_board (self : t) (b : TetrisBoard.t) : t :=
  {| board := b; drop_interval := drop_interval self; score := score self;
     level := level self; lines_cleared := lines_cleared self;
     next_piece := next_piece self |}.

Definition set_score (self : t) (score' lines' : Z) : t :=
  {| board := board self; drop_interval := drop_interval self; score := score';
     level := level self; lines_cleared := lines';
     next_piece := next_piece self |}.

Definition set_level (self : t) (level' : Z) (interval' : float) : t :=
  {| board := board self; drop_interval := interval'; score := score self;
     level := level'; lines_cleared := lines_cleared self;
     next_piece := next_piece self |}.

Definition set_next_piece (self : t) (piece : TetrisPiece.t) : t :=
  {| board := board self; drop_interval := drop_interval self; score := score self;
     level := level self; lines_cleared := lines_cleared self;
     next_piece := piece |}.

Definition set_current_piece (self : t) (piece : TetrisPiece.t) : t :=
  set_board self (TetrisBoard.set_current_piece (board self) piece).

Definition line_score (cleared_lines : Z) : Z :=
  match cleared_lines with
  | 1 => 100
  | 2 => 300
  | 3 => 500
  | 4 => 800
  | _ => cleared_lines * 200
  end.

Definition interval_of_level (level : Z) : float :=
  max_float 0.1%float (1.0 - float_of_int (level - 1) * 0.1)%float.

Definition on_piece_locked (self : t) (cleared_lines : Z) : t :=
  let self1 :=
    if negb (cleared_lines =? 0) then
      set_score self (score self + line_score cleared_lines * level self)
                     (lines_cleared self + cleared_lines)
    else
      set_score self (score self + 10) (lines_cleared self) in
  let new_level := Z.max 1 (1 + lines_cleared self1 / lines_per_level) in
  if negb (new_level =? level self1) then
    set_level self1 new_level (interval_of_level new_level)
  else self1.

Definition _queue_new_piece (r : nat) (self : t) : result t :=
  piece <- TetrisPiece.random r ;;
  Ok (set_next_piece self piece).

(** No collision test here: the queued piece always becomes the current
    one and another is queued. *)
Definition spawn_next_piece (r : nat) (self : t) : result t :=
  _queue_new_piece r (set_current_piece self (next_piece self)).

Definition lock_piece (r : nat) (self : t) : result t :=
  b <- TetrisBoard.lock_blocks (board self) ;;
  let '(b', cleared) := TetrisBoard._clear_full_lines b in
  spawn_next_piece r (on_piece_locked (set_board self b') cleared).

Definition move_piece (dx dy : Z) (r : nat) (self : t) : result (t * bool) :=
  let piece := TetrisBoard.current_piece (board self) in
  let '(old_x, old_y) := (TetrisPiece.x piece, TetrisPiece.y piece) in
  let moved := set_current_piece self (TetrisPiece.set_xy piece (old_x + dx) (old_y + dy)) in
  collides <- TetrisBoard.check_collision (board moved) ;;
  if collides then
    let reverted :=
      set_current_piece moved
        (TetrisPiece.set_xy (TetrisBoard.current_piece (board moved)) old_x old_y) in
    if dy >? 0 then
      locked <- lock_piece r reverted ;;
      Ok (locked, false)
    else Ok (reverted, false)
  else Ok (moved, true).

Definition rotate_piece (self : t) : result (t * bool) :=
  let old_rotation := TetrisPiece.rotation (TetrisBoard.current_piece (board self)) in
  rotated <- TetrisPiece.rotate (TetrisBoard.current_piece (board self)) ;;
  let self1 := set_current_piece self rotated in
  collides <- TetrisBoard.check_collision (board self1) ;;
  if collides then
    Ok (set_current_piece self1 (TetrisPiece.set_rotation rotated old_rotation), false)
  else Ok (self1, true).

Definition auto_drop (r : nat) (self : t) : result t :=
  ' (self', _) <- move_piece 0 1 r self ;; Ok self'.

Definition action_move_left (r : nat) (self : t) : result t :=
  ' (self', _) <- move_piece (-1) 0 r self ;; Ok self'.

Definition action_move_right (r : nat) (self : t) : result t :=
  ' (self', _) <- move_piece 1 0 r self ;; Ok self'.

Definition action_move_down (r : nat) (self : t) : result t :=
  ' (self', _) <- move_piece 0 1 r self ;; Ok self'.

Definition action_rotate (self : t) : result t :=
  ' (self', _) <- rotate_piece self ;; Ok self'.

Definition _update_all_displays (r : nat) (self : t) : result t :=
  _queue_new_piece r (set_current_piece self (next_piece self)).

Definition init (r_next r_board r_queue : nat) : result t :=
  next <- TetrisPiece.random r_next ;;
  b <- TetrisBoard.init r_board 10 20 ;;
  _update_all_displays r_queue
    {| board := b; drop_interval := 1.0%float; score := 0; level := 1;
       lines_cleared := 0; next_piece := next |}.

End TetrisApp.

End Textris2.

(** The inputs of the session: the timer tick and the key bindings. *)
Inductive action : Set :=
| Tick | MoveLeft | MoveRight | MoveDown | Rotate | HardDrop.

Definition run (fuel : nat) (a : action) (r : nat) (s : TetrisApp.t)
  : option (result TetrisApp.t) :=
  match a with
  | Tick => Some (TetrisApp.auto_drop r s)
  | MoveLeft => Some (TetrisApp.action_move_left r s)
  | MoveRight => Some (TetrisApp.action_move_right r s)
  | MoveDown => Some (TetrisApp.action_move_down r s)
  | Rotate => Some (TetrisApp.action_rotate s)
  | HardDrop => TetrisApp.action_hard_drop fuel r s
  end.

(** States the session can be in: the initial one, and what an input makes
    of a reachable state. *)
Inductive reachable : TetrisApp.t -> Prop :=
| reachable_init r1 r2 r3 s :
    TetrisApp.init r1 r2 r3 = Ok s -> reachable s
| reachable_run fuel a r s s' :
    reachable s -> run fuel a r s = Some (Ok s') -> reachable s'.

(* ================================================================== *)
(** * Vocabulary of the properties *)
(* ================================================================== *)

(** The grid is rectangular: [board_height] rows of [board_width] cells. *)
Definition rect (b : TetrisBoard.t) : Prop :=
  Z.of_nat (List.length (TetrisBoard.board b)) = TetrisBoard.board_height b /\
  Forall (fun row => Z.of_nat (List.length row) = TetrisBoard.board_width b)
         (TetrisBoard.board b).

(** The cell at column [x] of row [y], for a position inside the grid. *)
Definition cell_at (rows : list (list cell)) (x y : Z) : option cell :=
  if (x <? 0) || (y <? 0) then None
  else match nth_error rows (Z.to_nat y) with
       | Some row => nth_error row (Z.to_nat x)
       | None => None
       end.

(** The position holds a locked block. *)
Definition occupied (rows : list (list cell)) (x y : Z) : bool :=
  match cell_at rows x y with
  | Some c => nonzero c
  | None => false
  end.

(** A block at [(x, y)] makes the piece collide: it is left or right of the
    grid, below it, or on a locked block of a visible row. *)
Definition block_collides (b : TetrisBoard.t) (xy : Z * Z) : Prop :=
  fst xy < 0 \/ fst xy >= TetrisBoard.board_width b \/
  snd xy >= TetrisBoard.board_height b \/
  (snd xy >= 0 /\ occupied (TetrisBoard.board b) (fst xy) (snd xy) = true).

Definition block_collidesb (b : TetrisBoard.t) (xy : Z * Z) : bool :=
  (fst xy <? 0) || (fst xy >=? TetrisBoard.board_width b)
  || (snd xy >=? TetrisBoard.board_height b)
  || ((snd xy >=? 0) && occupied (TetrisBoard.board b) (fst xy) (snd xy)).

(** No cell of the grid holds a block. *)
Definition empty_board (b : TetrisBoard.t) : Prop :=
  Forall (Forall (fun c => c = Zero)) (TetrisBoard.board b).

(** A block inside the horizontal bounds and above the floor. *)
Definition block_within (b : TetrisBoard.t) (xy : Z * Z) : Prop :=
  0 <= fst xy < TetrisBoard.board_width b /\ snd xy < TetrisBoard.board_height b.

(** A row is full when none of its cells is [0]. *)
Definition full_row (row : list cell) : bool := forallb nonzero row.

(** Every colour on the grid is a non-empty string, as the seven colours of
    [PIECES] are. *)
Definition tags_ok (b : TetrisBoard.t) : Prop :=
  Forall (Forall (fun c => c <> Color "")) (TetrisBoard.board b).

(** A row of [width] cells, all [0]. *)
Definition empty_row (width : Z) : list cell := repeat Zero (Z.to_nat width).

(** [rotate()] called [n] times on a piece. *)
Fixpoint rotate_times (n : nat) (p : TetrisPiece.t) : result TetrisPiece.t :=
  match n with
  | O => Ok p
  | S n' => p' <- TetrisPiece.rotate p ;; rotate_times n' p'
  end.

(** An offset inside the 4x4 frame. *)
Definition in_frame (xy : Z * Z) : Prop :=
  0 <= fst xy <= 3 /\ 0 <= snd xy <= 3.

Definition in_frameb (xy : Z * Z) : bool :=
  (0 <=? fst xy) && (fst xy <=? 3) && (0 <=? snd xy) && (snd xy <=? 3).

Definition coord_eqb (a b : Z * Z) : bool :=
  (fst a =? fst b) && (snd a =? snd b).

Fixpoint distinctb (coords : list (Z * Z)) : bool :=
  match coords with
  | [] => true
  | c :: rest => negb (existsb (coord_eqb c) rest) && distinctb rest
  end.

(** Four distinct offsets inside the frame. *)
Definition tetromino (coords : list (Z * Z)) : Prop :=
  List.length coords = 4%nat /\ NoDup coords /\ Forall in_frame coords.

Definition tetrominob (coords : list (Z * Z)) : bool :=
  (List.length coords =? 4)%nat && distinctb coords && forallb in_frameb coords.

(** The code decodes to a tetromino. *)
Definition code_okb (code : string) : bool :=
  match hex_code_to_coords code with
  | Ok coords => tetrominob coords
  | Raise _ => false
  end.

(** A piece as the program builds them: every code of its deque decodes to
    a tetromino and [code] is the head of the deque. *)
Definition piece_ok (p : TetrisPiece.t) : Prop :=
  forallb code_okb (TetrisPiece.codes p) = true /\
  hd_error (TetrisPiece.codes p) = Some (TetrisPiece.code p).

(** The position is a cell of the grid. *)
Definition in_grid (b : TetrisBoard.t) (x y : Z) : Prop :=
  0 <= x < TetrisBoard.board_width b /\ 0 <= y < TetrisBoard.board_height b.

Definition in_gridb (b : TetrisBoard.t) (x y : Z) : bool :=
  (0 <=? x) && (x <? TetrisBoard.board_width b)
  && (0 <=? y) && (y <? TetrisBoard.board_height b).

(** The invariant of the session: the grid is rectangular, both pieces are
    well built, neither is above the top row, the queued piece sits at its
    spawn row, and the game is over exactly when the current piece
    collides. *)
Definition session_ok (s : TetrisApp.t) : Prop :=
  rect (TetrisApp.board s) /\
  piece_ok (TetrisBoard.current_piece (TetrisApp.board s)) /\
  piece_ok (TetrisApp.next_piece s) /\
  0 <= TetrisPiece.y (TetrisBoard.current_piece (TetrisApp.board s)) /\
  TetrisPiece.y (TetrisApp.next_piece s) = 0 /\
  TetrisBoard.check_collision (TetrisApp.board s) = Ok (TetrisApp.game_over s).

(** The session with its current piece displaced by [(dx, dy)], before any
    collision test. *)
Definition moved_by (s : TetrisApp.t) (dx dy : Z) : TetrisApp.t :=
  let piece := TetrisBoard.current_piece (TetrisApp.board s) in
  TetrisApp.set_current_piece s
    (TetrisPiece.set_xy piece (TetrisPiece.x piece + dx) (TetrisPiece.y piece + dy)).

(** The session with its current piece [k] rows lower. *)
Definition lowered (s : TetrisApp.t) (k : nat) : TetrisApp.t :=
  moved_by s 0 (Z.of_nat k).

(** A block of the current piece sits at a legal place: inside the
    horizontal bounds, above the floor, and on an empty cell when it is in a
    visible row. *)
Definition block_free (b : TetrisBoard.t) (xy : Z * Z) : Prop :=
  0 <= fst xy < TetrisBoard.board_width b /\
  snd xy < TetrisBoard.board_height b /\
  (0 <= snd xy -> cell_at (TetrisBoard.board b) (fst xy) (snd xy) = Some Zero).



(* ================================================================== *)
(** * The two variants side by side *)
(* ================================================================== *)

Definition result_map {A B : Type} (f : A -> B) (m : result A) : result B :=
  match m with
  | Ok a => Ok (f a)
  | Raise e => Raise e
  end.

(** A piece of [textris2.py] read as a piece of [textris.py]: the deque is
    the list of codes rotated [rotation] times, its head the active code. *)
Definition as_piece (p : Textris2.TetrisPiece.t) : TetrisPiece.t :=
  let k := Z.to_nat (Textris2.TetrisPiece.rotation p
                     mod Z.of_nat (List.length (Textris2.TetrisPiece.codes p))) in
  {| TetrisPiece.type := Textris2.TetrisPiece.type p;
     TetrisPiece.color := Textris2.TetrisPiece.color p;
     TetrisPiece.codes := Nat.iter k rotate_left (Textris2.TetrisPiece.codes p);
     TetrisPiece.code := nth k (Textris2.TetrisPiece.codes p) "";
     TetrisPiece.x := Textris2.TetrisPiece.x p;
     TetrisPiece.y := Textris2.TetrisPiece.y p |}.

Definition as_board (b : Textris2.TetrisBoard.t) : TetrisBoard.t :=
  {| TetrisBoard.board_width := Textris2.TetrisBoard.board_width b;
     TetrisBoard.board_height := Textris2.TetrisBoard.board_height b;
     TetrisBoard.board := Textris2.TetrisBoard.board b;
     TetrisBoard.current_piece := as_piece (Textris2.TetrisBoard.current_piece b) |}.

(** [textris2.py] has no [game_over]: its sessions are read as running. *)
Definition as_app (s : Textris2.TetrisApp.t) : TetrisApp.t :=
  {| TetrisApp.board := as_board (Textris2.TetrisApp.board s);
     TetrisApp.drop_interval := Textris2.TetrisApp.drop_interval s;
     TetrisApp.score := Textris2.TetrisApp.score s;
     TetrisApp.level := Textris2.TetrisApp.level s;
     TetrisApp.lines_cleared := Textris2.TetrisApp.lines_cleared s;
     TetrisApp.next_piece := as_piece (Textris2.TetrisApp.next_piece s);
     TetrisApp.game_over := false |}.

(* ================================================================== *)
(** * Concrete sessions used to exercise the properties *)
(* ================================================================== *)

(** A fresh "I" piece and a fresh "O" piece, as [TetrisPiece("I")] and
    [TetrisPiece("O")] build them. *)
Definition piece_I : TetrisPiece.t :=
  {| TetrisPiece.type := "I"; TetrisPiece.color := "cyan";
     TetrisPiece.codes := ["4567"; "26ae"; "ba98"; "d951"];
     TetrisPiece.code := "4567"; TetrisPiece.x := 4; TetrisPiece.y := 0 |}.

Definition piece_O : TetrisPiece.t :=
  {| TetrisPiece.type := "O"; TetrisPiece.color := "yellow";
     TetrisPiece.codes := ["56a9"; "6a95"; "a956"; "956a"];
     TetrisPiece.code := "56a9"; TetrisPiece.x := 4; TetrisPiece.y := 0 |}.

(** The session [init 1 0 0] starts: an empty 10x20 grid, the "I" piece
    falling and an "O" piece queued. *)
Definition start_session : TetrisApp.t :=
  {| TetrisApp.board :=
       {| TetrisBoard.board_width := 10; TetrisBoard.board_height := 20;
          TetrisBoard.board := TetrisBoard.empty_rows 10 20;
          TetrisBoard.current_piece := piece_I |};
     TetrisApp.drop_interval := 1.0%float; TetrisApp.score := 0;
     TetrisApp.level := 1; TetrisApp.lines_cleared := 0;
     TetrisApp.next_piece := piece_O; TetrisApp.game_over := false |}.

(** The "I" piece upright in the leftmost column of the empty grid: it was
    rotated once and moved six columns to the left. *)
Definition wall_session : TetrisApp.t :=
  TetrisApp.set_current_piece start_session
    {| TetrisPiece.type := "I"; TetrisPiece.color := "cyan";
       TetrisPiece.codes := ["26ae"; "ba98"; "d951"; "4567"];
       TetrisPiece.code := "26ae"; TetrisPiece.x := -2; TetrisPiece.y := 0 |}.

(** Rows 2 to 19 hold blocks in columns 4 to 7; rows 0 and 1 are empty. *)
Definition stack_rows : list (list cell) :=
  repeat (repeat Zero 10) 2
  ++ repeat (repeat Zero 4 ++ repeat (Color "red") 4 ++ repeat Zero 2) 18.

(** The "I" piece lying in row 1 on top of that stack, an "O" piece queued. *)
Definition stack_session : TetrisApp.t :=
  TetrisApp.set_board start_session
    {| TetrisBoard.board_width := 10; TetrisBoard.board_height := 20;
       TetrisBoard.board := stack_rows; TetrisBoard.current_piece := piece_I |}.

(** The same situation in [textris2.py]. *)
Definition stack_session2 : Textris2.TetrisApp.t :=
  {| Textris2.TetrisApp.board :=
       {| Textris2.TetrisBoard.board_width := 10;
          Textris2.TetrisBoard.board_height := 20;
          Textris2.TetrisBoard.board := stack_rows;
          Textris2.TetrisBoard.current_piece :=
            {| Textris2.TetrisPiece.type := "I"; Textris2.TetrisPiece.color := "cyan";
               Textris2.TetrisPiece.codes := ["4567"; "26ae"; "ba98"; "d951"];
               Textris2.TetrisPiece.rotation := 0;
               Textris2.TetrisPiece.x := 4; Textris2.TetrisPiece.y := 0 |} |};
     Textris2.TetrisApp.drop_interval := 1.0%float; Textris2.TetrisApp.score := 0;
     Textris2.TetrisApp.level := 1; Textris2.TetrisApp.lines_cleared := 0;
     Textris2.TetrisApp.next_piece :=
       {| Textris2.TetrisPiece.type := "O"; Textris2.TetrisPiece.color := "yellow";
          Textris2.TetrisPiece.codes := ["56a9"; "6a95"; "a956"; "956a"];
          Textris2.TetrisPiece.rotation := 0;
          Textris2.TetrisPiece.x := 4; Textris2.TetrisPiece.y := 0 |} |}.

(** A 10x20 grid whose rows 2 and 5 are full; row [i] of the others holds
    one block in column [i mod 10]. *)
Definition marked_row (i : nat) : list cell :=
  repeat Zero (i mod 10) ++ [Color "blue"] ++ repeat Zero (9 - i mod 10).

Definition two_full_rows : list (list cell) :=
  map (fun i => if (Nat.eqb i 2 || Nat.eqb i 5)%bool
                then repeat (Color "red") 10 else marked_row i)
      (seq 0 20).

Definition two_full_board : TetrisBoard.t :=
  {| TetrisBoard.board_width := 10; TetrisBoard.board_height := 20;
     TetrisBoard.board := two_full_rows; TetrisBoard.current_piece := piece_I |}.



(* ================================================================== *)
(** * Further code of the two files, and the vocabulary of its properties *)
(* ================================================================== *)

(** [max(seq)] on integers: [ValueError] on an empty sequence. *)
Definition max_of (seq : list Z) : result Z :=
  match seq with
  | [] => Raise ValueError
  | a :: rest => Ok (fold_left Z.max rest a)
  end.

(** The loop [for x, y in coords: matrix[y][x] = 1] of [coords_to_matrix]. *)
Fixpoint matrix_loop (matrix : list (list Z)) (coords : list (Z * Z))
  : result (list (list Z)) :=
  match coords with
  | [] => Ok matrix
  | (x, y) :: rest =>
      row <- getitem matrix y ;;
      row' <- setitem row x 1 ;;
      matrix' <- setitem matrix y row' ;;
      matrix_loop matrix' rest
  end.

(** [coords_to_matrix(coords)], the same function in both files. *)
Definition coords_to_matrix (coords : list (Z * Z)) : result (list (list Z)) :=
  max_x <- max_of (map fst coords) ;;
  max_y <- max_of (map snd coords) ;;
  let width := max_x + 1 in
  let height := max_y + 1 in
  let matrix := repeat (repeat 0 (range_len width)) (range_len height) in
  matrix_loop matrix coords.

(** The entry at column [x] of row [y] of a matrix. *)
Definition entry_at {A : Type} (rows : list (list A)) (x y : Z) : option A :=
  if (x <? 0) || (y <? 0) then None
  else match nth_error rows (Z.to_nat y) with
       | Some row => nth_error row (Z.to_nat x)
       | None => None
       end.

(** The first half of [render_board]: a copy of the grid on which the
    blocks of the current piece that are inside the grid are drawn. *)
Fixpoint display_loop (self : TetrisBoard.t) (display_board : list (list cell))
         (blocks : list (Z * Z)) : result (list (list cell)) :=
  match blocks with
  | [] => Ok display_board
  | (board_x, board_y) :: rest =>
      if (0 <=? board_x) && (board_x <? TetrisBoard.board_width self)
         && (0 <=? board_y) && (board_y <? TetrisBoard.board_height self)
      then
        row <- getitem display_board board_y ;;
        row' <- setitem row board_x
                  (Color (TetrisPiece.color (TetrisBoard.current_piece self))) ;;
        display_board' <- setitem display_board board_y row' ;;
        display_loop self display_board' rest
      else display_loop self display_board rest
  end.

Definition display_board (self : TetrisBoard.t) : result (list (list cell)) :=
  blocks <- TetrisPiece.blocks (TetrisBoard.current_piece self) ;;
  display_loop self (TetrisBoard.board self) blocks.

(** The down key pressed [k] times, the generator drawing [r] each time. *)
Fixpoint press_down (k : nat) (r : nat) (s : TetrisApp.t) : result TetrisApp.t :=
  match k with
  | O => Ok s
  | S k' => s' <- TetrisApp.action_move_down r s ;; press_down k' r s'
  end.

(** The number of rows that [all] finds full. *)
Definition count_full (rows : list (list cell)) : nat :=
  List.length (filter TetrisBoard.all rows).

(** The number of locked blocks on the grid: the cells that are not [0]. *)
Definition count_blocks (rows : list (list cell)) : nat :=
  list_sum (map (fun row => List.length (filter nonzero row)) rows).

(** What holds of the counters and of the grid throughout a game: the grid
    is 10 by 20, the score and the line count are not negative, the level
    and the drop interval are the ones the line count gives, the colours on
    the grid and of both pieces are non-empty strings, and no row is
    full. *)
Definition play_ok (s : TetrisApp.t) : Prop :=
  TetrisBoard.board_width (TetrisApp.board s) = 10 /\
  TetrisBoard.board_height (TetrisApp.board s) = 20 /\
  0 <= TetrisApp.score s /\
  0 <= TetrisApp.lines_cleared s /\
  TetrisApp.level s = Z.max 1 (1 + TetrisApp.lines_cleared s / 10) /\
  TetrisApp.drop_interval s = TetrisApp.interval_of_level (TetrisApp.level s) /\
  tags_ok (TetrisApp.board s) /\
  TetrisPiece.color (TetrisBoard.current_piece (TetrisApp.board s)) <> "" /\
  TetrisPiece.color (TetrisApp.next_piece s) <> "" /\
  count_full (TetrisBoard.board (TetrisApp.board s)) = 0%nat.

(** The "I" piece upright against the left wall in [textris2.py]. *)
Definition wall_session2 : Textris2.TetrisApp.t :=
  Textris2.TetrisApp.set_current_piece
    (Textris2.TetrisApp.set_board stack_session2
       (Textris2.TetrisBoard.set_board
          (Textris2.TetrisApp.board stack_session2)
          (Textris2.TetrisBoard.empty_rows 10 20)))
    {| Textris2.TetrisPiece.type := "I"; Textris2.TetrisPiece.color := "cyan";
       Textris2.TetrisPiece.codes := ["4567"; "26ae"; "ba98"; "d951"];
       Textris2.TetrisPiece.rotation := 1;
       Textris2.TetrisPiece.x := -2; Textris2.TetrisPiece.y := 0 |}.

(* ================================================================== *)
(** * Python primitives: basic facts *)
(* ================================================================== *)

Lemma bind_Ok {A B : Type} (m : result A) (k : A -> result B) (b : B) :
  bind m k = Ok b -> exists a, m = Ok a /\ k a = Ok b.
Proof.
  destruct m as [a|e]; simpl; intros H; [eauto | discriminate].
Qed.

Lemma getitem_inside {A : Type} (l : list A) (i : Z) :
  0 <= i < Z.of_nat (List.length l) ->
  exists a, getitem l i = Ok a /\ nth_error l (Z.to_nat i) = Some a.
Proof.
  intros Hi. unfold getitem.
  destruct (i <? 0) eqn:Hneg; [apply Z.ltb_lt in Hneg; lia|].
  replace ((i <? 0) || (Z.of_nat (List.length l) <=? i)) with false
    by (symmetry; apply orb_false_iff; split; [exact Hneg | apply Z.leb_gt; lia]).
  destruct (nth_error l (Z.to_nat i)) as [a|] eqn:Hn; [eauto|].
  apply nth_error_None in Hn. lia.
Qed.

Lemma setitem_inside {A : Type} (l : list A) (i : Z) (a : A) :
  0 <= i < Z.of_nat (List.length l) ->
  setitem l i a = Ok (replace_nth (Z.to_nat i) l a).
Proof.
  intros Hi. unfold setitem.
  destruct (i <? 0) eqn:Hneg; [apply Z.ltb_lt in Hneg; lia|].
  replace ((i <? 0) || (Z.of_nat (List.length l) <=? i)) with false
    by (symmetry; apply orb_false_iff; split; [exact Hneg | apply Z.leb_gt; lia]).
  reflexivity.
Qed.

Lemma replace_nth_length {A : Type} (n : nat) (l : list A) (a : A) :
  List.length (replace_nth n l a) = List.length l.
Proof.
  revert n; induction l as [|h t IH]; intros [|n]; simpl; auto.
Qed.

Lemma nth_error_replace_nth_eq {A : Type} (n : nat) (l : list A) (a : A) :
  (n < List.length l)%nat -> nth_error (replace_nth n l a) n = Some a.
Proof.
  revert n; induction l as [|h t IH]; intros [|n] Hn; simpl in *; try lia; auto.
  apply IH; lia.
Qed.

Lemma nth_error_replace_nth_ne {A : Type} (n m : nat) (l : list A) (a : A) :
  n <> m -> nth_error (replace_nth n l a) m = nth_error l m.
Proof.
  revert n m; induction l as [|h t IH]; intros [|n] [|m] Hnm; simpl; auto;
    try congruence.
Qed.

(* ================================================================== *)
(** * Collision test *)
(* ================================================================== *)

Lemma block_collidesb_iff (b : TetrisBoard.t) (xy : Z * Z) :
  block_collidesb b xy = true <-> block_collides b xy.
Proof.
  unfold block_collidesb, block_collides.
  rewrite !orb_true_iff, andb_true_iff, Z.ltb_lt, !Z.geb_le. intuition lia.
Qed.

Lemma cell_at_inside (b : TetrisBoard.t) (x y : Z) :
  rect b ->
  0 <= x < TetrisBoard.board_width b -> 0 <= y < TetrisBoard.board_height b ->
  exists row c,
    getitem (TetrisBoard.board b) y = Ok row /\ getitem row x = Ok c /\
    nth_error (TetrisBoard.board b) (Z.to_nat y) = Some row /\
    Z.of_nat (List.length row) = TetrisBoard.board_width b /\
    cell_at (TetrisBoard.board b) x y = Some c.
Proof.
  intros [Hh Hw] Hx Hy.
  destruct (getitem_inside (TetrisBoard.board b) (i := y)) as (row & Hg & Hn); [lia|].
  assert (Hlen : Z.of_nat (List.length row) = TetrisBoard.board_width b).
  { rewrite Forall_forall in Hw. apply Hw. eapply nth_error_In; eauto. }
  destruct (getitem_inside row (i := x)) as (c & Hgc & Hnc); [lia|].
  exists row, c. repeat split; auto.
  unfold cell_at.
  replace ((x <? 0) || (y <? 0)) with false
    by (symmetry; apply orb_false_iff; split; apply Z.ltb_ge; lia).
  now rewrite Hn.
Qed.

(** On a rectangular grid the loop of [check_collision] raises nothing and
    answers whether some block collides. *)
Lemma check_collision_loop_existsb (b : TetrisBoard.t) (blocks : list (Z * Z)) :
  rect b ->
  TetrisBoard.check_collision_loop b blocks = Ok (existsb (block_collidesb b) blocks).
Proof.
  intros Hr. induction blocks as [|[x y] rest IH]; simpl; [reflexivity|].
  unfold block_collidesb at 1; simpl.
  destruct ((x <? 0) || (x >=? TetrisBoard.board_width b)
            || (y >=? TetrisBoard.board_height b)) eqn:Hout; simpl; [reflexivity|].
  apply orb_false_iff in Hout as [Hout Hy]. apply orb_false_iff in Hout as [Hx0 Hx1].
  destruct (y >=? 0) eqn:Hy0; simpl; [|exact IH].
  destruct (cell_at_inside (b := b) (x := x) (y := y) Hr) as (row & c & Hg & Hgc & _ & _ & Hc).
  { rewrite Z.ltb_ge in Hx0. rewrite Z.geb_leb, Z.leb_gt in Hx1. lia. }
  { rewrite Z.geb_leb, Z.leb_gt in Hy. rewrite Z.geb_le in Hy0. lia. }
  rewrite Hg; simpl. rewrite Hgc; simpl.
  unfold occupied. rewrite Hc.
  destruct (nonzero c); simpl; [reflexivity | exact IH].
Qed.

Lemma empty_board_not_occupied (b : TetrisBoard.t) (x y : Z) :
  empty_board b -> occupied (TetrisBoard.board b) x y = false.
Proof.
  intros He. unfold occupied, cell_at.
  destruct ((x <? 0) || (y <? 0)); [reflexivity|].
  destruct (nth_error (TetrisBoard.board b) (Z.to_nat y)) as [row|] eqn:Hrow; [|reflexivity].
  destruct (nth_error row (Z.to_nat x)) as [c|] eqn:Hc; [|reflexivity].
  unfold empty_board in He. rewrite Forall_forall in He.
  specialize (He row (nth_error_In _ _ Hrow)). rewrite Forall_forall in He.
  now rewrite (He c (nth_error_In _ _ Hc)).
Qed.

(** C1. On every rectangular board, for every piece whose code decodes,
    [check_collision] answers [true] exactly when some absolute cell of the
    piece has [x < 0], or [x >= width], or [y >= height], or ([y >= 0] and the
    board cell at [(x, y)] is not [0]); on an empty board it answers [false]
    exactly when every cell has [0 <= x < width] and [y < height]. *)
Theorem check_collision_iff (b : TetrisBoard.t) (cells : list (Z * Z)) :
  rect b ->
  TetrisPiece.blocks (TetrisBoard.current_piece b) = Ok cells ->
  exists r,
    TetrisBoard.check_collision b = Ok r /\
    (r = true <-> Exists (block_collides b) cells) /\
    (empty_board b -> (r = false <-> Forall (block_within b) cells)).
Proof.
  intros Hr Hb. exists (existsb (block_collidesb b) cells).
  split; [|split].
  - unfold TetrisBoard.check_collision. rewrite Hb; simpl.
    now apply check_collision_loop_existsb.
  - rewrite existsb_exists, Exists_exists.
    split; intros (xy & Hin & H); exists xy; split; auto; now apply block_collidesb_iff.
  - intros He. rewrite <- not_true_iff_false, existsb_exists, Forall_forall.
    split.
    + intros Hno xy Hin. unfold block_within.
      destruct (Z_lt_ge_dec (fst xy) 0) as [H1|H1];
        [exfalso; apply Hno; exists xy; split; auto; apply block_collidesb_iff; left; lia|].
      destruct (Z_lt_ge_dec (fst xy) (TetrisBoard.board_width b)) as [H2|H2];
        [|exfalso; apply Hno; exists xy; split; auto; apply block_collidesb_iff; right; left; lia].
      destruct (Z_lt_ge_dec (snd xy) (TetrisBoard.board_height b)) as [H3|H3];
        [|exfalso; apply Hno; exists xy; split; auto; apply block_collidesb_iff; right; right; left; lia].
      lia.
    + intros Hall (xy & Hin & H). apply block_collidesb_iff in H.
      specialize (Hall xy Hin). unfold block_within in Hall.
      destruct H as [H|[H|[H|[_ H]]]]; try lia.
      rewrite empty_board_not_occupied in H by assumption. discriminate.
Qed.

(* ================================================================== *)
(** * Line clearing *)
(* ================================================================== *)

Lemma filter_negb_length {A : Type} (f : A -> bool) (l : list A) :
  (List.length (filter (fun a => negb (f a)) l) + List.length (filter f l)
   = List.length l)%nat.
Proof.
  induction l as [|a l IH]; simpl; [reflexivity|].
  destruct (f a); simpl; lia.
Qed.

Lemma all_full_row (row : list cell) :
  Forall (fun c => c <> Color "") row -> TetrisBoard.all row = full_row row.
Proof.
  unfold TetrisBoard.all, full_row.
  induction 1 as [|c row Hc _ IH]; simpl; [reflexivity|].
  rewrite IH. f_equal. destruct c as [|s]; simpl; [reflexivity|].
  destruct (String.eqb_spec s ""); [subst; congruence | reflexivity].
Qed.

Lemma filter_all_full_row (rows : list (list cell)) :
  Forall (Forall (fun c => c <> Color "")) rows ->
  filter (fun row => negb (TetrisBoard.all row)) rows
  = filter (fun row => negb (full_row row)) rows.
Proof.
  induction 1 as [|row rows Hrow _ IH]; simpl; [reflexivity|].
  rewrite (all_full_row Hrow), IH. reflexivity.
Qed.

(** C2. On a rectangular board whose colours are non-empty strings,
    [_clear_full_lines] returns the number of full rows; the new grid is that
    many all-zero rows followed by the rows that were not full, in their
    order; the height, the width of every row, the declared dimensions and
    the current piece are unchanged; the count is [0] exactly when no row is
    full, and then the grid itself is unchanged. *)
Theorem clear_full_lines_spec (b : TetrisBoard.t) :
  rect b -> tags_ok b ->
  let rows := TetrisBoard.board b in
  let b' := fst (TetrisBoard._clear_full_lines b) in
  let cleared := snd (TetrisBoard._clear_full_lines b) in
  cleared = Z.of_nat (List.length (filter full_row rows)) /\
  TetrisBoard.board b'
  = repeat (empty_row (TetrisBoard.board_width b)) (Z.to_nat cleared)
    ++ filter (fun row => negb (full_row row)) rows /\
  rect b' /\
  TetrisBoard.board_width b' = TetrisBoard.board_width b /\
  TetrisBoard.board_height b' = TetrisBoard.board_height b /\
  TetrisBoard.current_piece b' = TetrisBoard.current_piece b /\
  (cleared = 0 <-> Forall (fun row => full_row row = false) rows) /\
  (cleared = 0 -> TetrisBoard.board b' = rows).
Proof.
  intros [Hh Hw] Ht rows b' cleared. subst rows.
  set (rows := TetrisBoard.board b) in *.
  assert (Hlen := filter_negb_length full_row rows).
  assert (Hc : cleared = Z.of_nat (List.length (filter full_row rows))).
  { subst cleared b'. unfold TetrisBoard._clear_full_lines.
    rewrite (filter_all_full_row Ht). fold rows.
    destruct (negb _); simpl; lia. }
  assert (Hb : TetrisBoard.board b'
               = repeat (empty_row (TetrisBoard.board_width b)) (Z.to_nat cleared)
                 ++ filter (fun row => negb (full_row row)) rows).
  { rewrite Hc. subst cleared b'. unfold TetrisBoard._clear_full_lines.
    rewrite (filter_all_full_row Ht). fold rows.
    destruct (negb _) eqn:Hz; simpl.
    - unfold TetrisBoard.empty_rows, range_len, empty_row. do 2 f_equal. lia.
    - apply negb_false_iff, Z.eqb_eq in Hz.
      replace (List.length (filter full_row rows)) with O by lia.
      reflexivity. }
  assert (Hdims : TetrisBoard.board_width b' = TetrisBoard.board_width b /\
                  TetrisBoard.board_height b' = TetrisBoard.board_height b /\
                  TetrisBoard.current_piece b' = TetrisBoard.current_piece b).
  { subst b'. unfold TetrisBoard._clear_full_lines.
    destruct (negb _); simpl; auto. }
  destruct Hdims as (Hw' & Hh' & Hp').
  assert (Hzero : cleared = 0 <-> Forall (fun row => full_row row = false) rows).
  { rewrite Hc. split.
    - intros H0. apply Forall_forall. intros row Hin.
      destruct (full_row row) eqn:Hf; [|reflexivity].
      assert (Hin' : In row (filter full_row rows)) by (apply filter_In; auto).
      destruct (filter full_row rows); [contradiction | simpl in H0; lia].
    - intros Hall. replace (filter full_row rows) with (@nil (list cell)); [reflexivity|].
      symmetry. clear - Hall. induction Hall as [|row l Hrow _ IH]; simpl; [reflexivity|].
      now rewrite Hrow. }
  split; [exact Hc|]. split; [exact Hb|]. split; [|split; [exact Hw'|]].
  - split.
    + rewrite Hb, Hh', length_app, repeat_length. lia.
    + rewrite Hb, Hw'. apply Forall_app. split.
      * apply Forall_forall. intros row Hin.
        assert (Hpos : (0 < List.length (filter full_row rows))%nat).
        { destruct (filter full_row rows); [|simpl; lia].
          rewrite Hc in Hin. simpl in Hin. contradiction. }
        apply repeat_spec in Hin. subst row.
        unfold empty_row. rewrite repeat_length.
        destruct rows as [|row0 rows0]; [simpl in Hpos; lia|].
        inversion Hw; subst. lia.
      * apply Forall_forall. intros row Hin. apply filter_In in Hin as [Hin _].
        rewrite Forall_forall in Hw. now apply Hw.
  - split; [exact Hh'|]. split; [exact Hp'|]. split; [exact Hzero|].
    intros H0. rewrite Hb, H0. simpl.
    apply Hzero in H0. clear - H0. induction H0 as [|row l Hrow _ IH]; simpl; [reflexivity|].
    rewrite Hrow; simpl. now f_equal.
Qed.

(* ================================================================== *)
(** * Scoring and level progression *)
(* ================================================================== *)

Lemma on_piece_locked_frame (s : TetrisApp.t) (cleared : Z) :
  TetrisApp.board (TetrisApp.on_piece_locked s cleared) = TetrisApp.board s /\
  TetrisApp.next_piece (TetrisApp.on_piece_locked s cleared) = TetrisApp.next_piece s /\
  TetrisApp.game_over (TetrisApp.on_piece_locked s cleared) = TetrisApp.game_over s.
Proof.
  unfold TetrisApp.on_piece_locked.
  destruct (negb (cleared =? 0)); simpl;
    match goal with |- context [negb ?c] => destruct (negb c) end; simpl; auto.
Qed.

Lemma line_score_large (cleared : Z) :
  4 < cleared -> TetrisApp.line_score cleared = cleared * 200.
Proof.
  intros H. destruct cleared as [|p|p]; try lia.
  do 3 (destruct p as [p|p|]; try lia; try reflexivity).
Qed.


Lemma max_float_ge (a b : float) :
  PrimFloat.leb a a = true -> PrimFloat.leb a (max_float a b) = true.
Proof.
  unfold max_float. destruct (PrimFloat.ltb a b) eqn:E; [|auto].
  intros _. rewrite ltb_spec in E. rewrite leb_spec.
  unfold SFltb in E. unfold SFleb.
  destruct (SFcompare (Prim2SF a) (Prim2SF b)) as [[| |]|]; congruence.
Qed.



(* ================================================================== *)
(** * Shape table and pieces *)
(* ================================================================== *)

Lemma in_frameb_iff (xy : Z * Z) : in_frameb xy = true <-> in_frame xy.
Proof.
  unfold in_frameb, in_frame. rewrite !andb_true_iff, !Z.leb_le. tauto.
Qed.

Lemma coord_eqb_iff (a b : Z * Z) : coord_eqb a b = true <-> a = b.
Proof.
  destruct a as [a1 a2], b as [b1 b2]. unfold coord_eqb; simpl.
  rewrite andb_true_iff, !Z.eqb_eq. split; [intros []; congruence | intros [= -> ->]; auto].
Qed.

Lemma distinctb_NoDup (coords : list (Z * Z)) :
  distinctb coords = true -> NoDup coords.
Proof.
  induction coords as [|c rest IH]; simpl; [constructor|].
  rewrite andb_true_iff, negb_true_iff. intros [Hc Hrest].
  constructor; [|auto].
  intros Hin. apply not_true_iff_false in Hc. apply Hc.
  apply existsb_exists. exists c. split; [exact Hin | now apply coord_eqb_iff].
Qed.

Lemma tetrominob_tetromino (coords : list (Z * Z)) :
  tetrominob coords = true -> tetromino coords.
Proof.
  unfold tetrominob, tetromino. rewrite !andb_true_iff, Nat.eqb_eq.
  intros [[Hl Hd] Hf]. repeat split; auto using distinctb_NoDup.
  apply Forall_forall. intros xy Hin. apply in_frameb_iff.
  rewrite forallb_forall in Hf. auto.
Qed.

Lemma code_okb_tetromino (code : string) :
  code_okb code = true ->
  exists coords, hex_code_to_coords code = Ok coords /\ tetromino coords.
Proof.
  unfold code_okb. destruct (hex_code_to_coords code) as [coords|e]; [|discriminate].
  intros H. exists coords. auto using tetrominob_tetromino.
Qed.

Lemma piece_ok_shape (p : TetrisPiece.t) :
  piece_ok p -> exists coords, TetrisPiece.shape p = Ok coords /\ tetromino coords.
Proof.
  intros [Hall Hhd]. unfold TetrisPiece.shape. apply code_okb_tetromino.
  destruct (TetrisPiece.codes p) as [|c rest]; [discriminate|].
  simpl in *. injection Hhd as <-. now apply andb_true_iff in Hall.
Qed.

Lemma piece_ok_blocks (p : TetrisPiece.t) :
  piece_ok p ->
  exists coords,
    tetromino coords /\
    TetrisPiece.blocks p
    = Ok (map (fun '(px, py) => (TetrisPiece.x p + px, TetrisPiece.y p + py)) coords).
Proof.
  intros Hp. destruct (piece_ok_shape Hp) as (coords & Hs & Ht).
  exists coords. split; [exact Ht|]. unfold TetrisPiece.blocks. now rewrite Hs.
Qed.

Lemma piece_ok_set_xy (p : TetrisPiece.t) (x y : Z) :
  piece_ok p -> piece_ok (TetrisPiece.set_xy p x y).
Proof. intros Hp. exact Hp. Qed.

Lemma rotate_right_left {A : Type} (l : list A) :
  rotate_right (rotate_left l) = l.
Proof.
  destruct l as [|a t]; [reflexivity|].
  unfold rotate_left, rotate_right. rewrite rev_app_distr. simpl.
  now rewrite rev_involutive.
Qed.

Lemma forallb_rotate_left {A : Type} (f : A -> bool) (l : list A) :
  forallb f (rotate_left l) = forallb f l.
Proof.
  destruct l as [|a t]; [reflexivity|].
  simpl. rewrite forallb_app. simpl. rewrite andb_true_r. apply andb_comm.
Qed.

Lemma getitem_0 {A : Type} (a : A) (l : list A) : getitem (a :: l) 0 = Ok a.
Proof.
  unfold getitem. simpl List.length. rewrite Nat2Z.inj_succ.
  change (0 <? 0) with false. cbv iota.
  replace ((0 <? 0) || (Z.succ (Z.of_nat (List.length l)) <=? 0)) with false
    by (symmetry; apply orb_false_iff; split; [reflexivity | apply Z.leb_gt; lia]).
  reflexivity.
Qed.

(** [rotate] on a well-built piece succeeds and gives a well-built piece. *)
Lemma rotate_ok (p : TetrisPiece.t) :
  piece_ok p ->
  exists p', TetrisPiece.rotate p = Ok p' /\ piece_ok p' /\
             TetrisPiece.x p' = TetrisPiece.x p /\ TetrisPiece.y p' = TetrisPiece.y p /\
             TetrisPiece.color p' = TetrisPiece.color p.
Proof.
  intros [Hall Hhd]. unfold TetrisPiece.rotate.
  change (deque_rotate (TetrisPiece.codes p) (-1)) with (rotate_left (TetrisPiece.codes p)).
  destruct (TetrisPiece.codes p) as [|c rest] eqn:Hc; [discriminate|].
  assert (Hne : exists c1 rest1, rotate_left (c :: rest) = c1 :: rest1).
  { destruct rest as [|c' rest']; simpl; eauto. }
  destruct Hne as (c1 & rest1 & Hrl). rewrite Hrl, getitem_0.
  cbn [bind]. eexists; split; [reflexivity|].
  unfold piece_ok, TetrisPiece.set_codes; cbn [TetrisPiece.codes TetrisPiece.code
    TetrisPiece.x TetrisPiece.y TetrisPiece.color].
  repeat split; auto.
  rewrite <- Hrl, forallb_rotate_left. exact Hall.
Qed.

(** [undo_rotate] after [rotate] gives back the piece, field for field. *)
Lemma undo_rotate_rotate (p p' : TetrisPiece.t) :
  piece_ok p -> TetrisPiece.rotate p = Ok p' -> TetrisPiece.undo_rotate p' = Ok p.
Proof.
  intros [Hall Hhd] Hrot. unfold TetrisPiece.rotate in Hrot.
  change (deque_rotate (TetrisPiece.codes p) (-1))
    with (rotate_left (TetrisPiece.codes p)) in Hrot.
  apply bind_Ok in Hrot as (code' & _ & Hp'). injection Hp' as <-.
  unfold TetrisPiece.undo_rotate, TetrisPiece.set_codes; simpl.
  change (deque_rotate (rotate_left (TetrisPiece.codes p)) 1)
    with (rotate_right (rotate_left (TetrisPiece.codes p))).
  rewrite rotate_right_left.
  destruct p as [ty col cs c x y]; simpl in *.
  destruct cs as [|c0 rest]; [discriminate|]. injection Hhd as ->.
  now rewrite getitem_0.
Qed.

(** Every draw of [random.choice] builds a well-built piece at the spawn
    position. *)
Lemma random_ok (r : nat) :
  exists p, TetrisPiece.random r = Ok p /\ piece_ok p /\
            TetrisPiece.x p = 4 /\ TetrisPiece.y p = 0.
Proof.
  unfold TetrisPiece.random, choice.
  assert (Hk : (r mod List.length (keys PIECES) < 7)%nat)
    by (apply Nat.mod_upper_bound; discriminate).
  set (k := (r mod List.length (keys PIECES))%nat) in *. clearbody k.
  change (keys PIECES) with ["O"; "I"; "J"; "L"; "T"; "Z"; "S"].
  do 7 (destruct k as [|k];
        [eexists; split; [vm_compute; reflexivity|];
         split; [split; vm_compute; reflexivity | split; reflexivity]|]).
  lia.
Qed.

Lemma rotate_times_ok (n : nat) (p : TetrisPiece.t) :
  piece_ok p -> exists p', rotate_times n p = Ok p' /\ piece_ok p'.
Proof.
  revert p. induction n as [|n IH]; intros p Hp; simpl; [eauto|].
  destruct (rotate_ok Hp) as (p1 & Hr & Hp1 & _). rewrite Hr; simpl. auto.
Qed.

(** C8. [PIECES] has 7 kinds, and for each of them and each rotation index
    [r] in 0..3 the shape of the piece of that kind after [r] calls of
    [rotate] is a list of exactly 4 pairwise distinct pairs [(x, y)] with
    [0 <= x <= 3] and [0 <= y <= 3]; it is the decoding of the [r]-th code
    of the kind. *)
Theorem shape_invariant (kind : string) (r : nat) :
  In kind (keys PIECES) -> (r < 4)%nat ->
  List.length (keys PIECES) = 7%nat /\
  exists p p' coords,
    TetrisPiece.init kind = Ok p /\
    rotate_times r p = Ok p' /\
    TetrisPiece.shape p' = Ok coords /\
    nth_error (TetrisPiece.codes p) r = Some (TetrisPiece.code p') /\
    List.length coords = 4%nat /\ NoDup coords /\ Forall in_frame coords.
Proof.
  intros Hk Hr. split; [reflexivity|].
  assert (Hb : exists p p' coords,
             TetrisPiece.init kind = Ok p /\ rotate_times r p = Ok p' /\
             TetrisPiece.shape p' = Ok coords /\
             nth_error (TetrisPiece.codes p) r = Some (TetrisPiece.code p') /\
             tetrominob coords = true).
  { simpl in Hk.
    destruct Hk as [<-|[<-|[<-|[<-|[<-|[<-|[<-|[]]]]]]]];
      do 4 (destruct r as [|r];
            [do 3 eexists; repeat split; vm_compute; reflexivity|]);
      lia. }
  destruct Hb as (p & p' & coords & Hi & Hrot & Hs & Hn & Ht).
  exists p, p', coords. apply tetrominob_tetromino in Ht as (Hl & Hd & Hf).
  repeat split; assumption.
Qed.

(* ================================================================== *)
(** * Locking a piece into the grid *)
(* ================================================================== *)

Lemma in_gridb_iff (b : TetrisBoard.t) (x y : Z) :
  in_gridb b x y = true <-> in_grid b x y.
Proof.
  unfold in_gridb, in_grid. rewrite !andb_true_iff, !Z.leb_le, !Z.ltb_lt. tauto.
Qed.

Lemma cell_at_replace (rows : list (list cell)) (row : list cell) (c : cell)
      (x y x' y' : Z) :
  nth_error rows (Z.to_nat y) = Some row ->
  0 <= y -> 0 <= x < Z.of_nat (List.length row) ->
  cell_at (replace_nth (Z.to_nat y) rows (replace_nth (Z.to_nat x) row c)) x' y'
  = if coord_eqb (x', y') (x, y) then Some c else cell_at rows x' y'.
Proof.
  intros Hrow Hy Hx. unfold cell_at, coord_eqb; simpl.
  destruct (x' <? 0) eqn:Hx'; simpl.
  { apply Z.ltb_lt in Hx'. replace (x' =? x) with false by (symmetry; apply Z.eqb_neq; lia).
    reflexivity. }
  destruct (y' <? 0) eqn:Hy'; simpl.
  { apply Z.ltb_lt in Hy'. replace (y' =? y) with false by (symmetry; apply Z.eqb_neq; lia).
    now rewrite andb_false_r. }
  apply Z.ltb_ge in Hx', Hy'.
  assert (Hlt : (Z.to_nat y < List.length rows)%nat)
    by (apply nth_error_Some; congruence).
  destruct (Z.eqb_spec y' y) as [->|Hne].
  - rewrite nth_error_replace_nth_eq by exact Hlt.
    destruct (Z.eqb_spec x' x) as [->|Hnx]; simpl.
    + apply nth_error_replace_nth_eq. lia.
    + rewrite Hrow. apply nth_error_replace_nth_ne. lia.
  - rewrite andb_false_r. rewrite nth_error_replace_nth_ne by lia. reflexivity.
Qed.

Lemma lock_loop_spec (cells : list (Z * Z)) (b : TetrisBoard.t) :
  rect b ->
  exists b',
    TetrisBoard.lock_loop b cells = Ok b' /\ rect b' /\
    TetrisBoard.board_width b' = TetrisBoard.board_width b /\
    TetrisBoard.board_height b' = TetrisBoard.board_height b /\
    TetrisBoard.current_piece b' = TetrisBoard.current_piece b /\
    forall x y,
      cell_at (TetrisBoard.board b') x y
      = if existsb (coord_eqb (x, y)) cells && in_gridb b x y
        then Some (Color (TetrisPiece.color (TetrisBoard.current_piece b)))
        else cell_at (TetrisBoard.board b) x y.
Proof.
  revert b. induction cells as [|[cx cy] rest IH]; intros b Hr; simpl.
  { exists b. repeat split; auto; apply Hr. }
  fold (in_gridb b cx cy).
  destruct (in_gridb b cx cy) eqn:Hin; simpl.
  - apply in_gridb_iff in Hin as Hg. destruct Hg as [Hgx Hgy].
    destruct (cell_at_inside (b := b) (x := cx) (y := cy) Hr Hgx Hgy)
      as (row & c & Hg1 & _ & Hn & Hlen & _).
    rewrite Hg1; simpl. rewrite setitem_inside by lia; simpl.
    destruct Hr as [Hh Hw].
    rewrite setitem_inside by lia; simpl.
    set (col := Color (TetrisPiece.color (TetrisBoard.current_piece b))).
    set (b1 := TetrisBoard.set_board b
                 (replace_nth (Z.to_nat cy) (TetrisBoard.board b)
                              (replace_nth (Z.to_nat cx) row col))).
    assert (Hr1 : rect b1).
    { split; simpl.
      - now rewrite replace_nth_length.
      - apply Forall_forall. intros row' Hin'.
        apply In_nth_error in Hin' as [n Hn'].
        destruct (Nat.eq_dec (Z.to_nat cy) n) as [<-|Hne].
        + rewrite nth_error_replace_nth_eq in Hn'
            by (apply nth_error_Some; congruence).
          injection Hn' as <-. now rewrite replace_nth_length.
        + rewrite nth_error_replace_nth_ne in Hn' by exact Hne.
          rewrite Forall_forall in Hw. apply Hw. eapply nth_error_In; eauto. }
    destruct (IH b1 Hr1) as (b' & Hl & Hr' & Hw' & Hh' & Hp' & Hcells).
    exists b'. repeat split; auto; try apply Hr'.
    intros x y. rewrite Hcells. subst b1; simpl.
    unfold in_gridb at 1; simpl. fold (in_gridb b x y).
    rewrite (cell_at_replace _ col x y Hn) by lia. fold col.
    destruct (coord_eqb (x, y) (cx, cy)) eqn:He; simpl.
    + apply coord_eqb_iff in He. injection He as -> ->. rewrite Hin.
      now destruct (existsb _ rest).
    + reflexivity.
  - destruct (IH b Hr) as (b' & Hl & Hr' & Hw' & Hh' & Hp' & Hcells).
    exists b'. repeat split; auto; try apply Hr'.
    intros x y. rewrite Hcells.
    destruct (coord_eqb (x, y) (cx, cy)) eqn:He; simpl; [|reflexivity].
    apply coord_eqb_iff in He. injection He as -> ->. rewrite Hin.
    now rewrite andb_false_r.
Qed.

(** C7. On a rectangular board, the first loop of [lock_piece] raises
    nothing, whatever the position of the piece (blocks above, beside or
    below the grid are skipped); afterwards a cell of the grid holds the
    colour of the piece if its position is one of the piece's blocks, and
    what it held before otherwise; the grid keeps its dimensions and the
    current piece is untouched. *)
Theorem lock_blocks_spec (b : TetrisBoard.t) (cells : list (Z * Z)) :
  rect b ->
  TetrisPiece.blocks (TetrisBoard.current_piece b) = Ok cells ->
  exists b',
    TetrisBoard.lock_blocks b = Ok b' /\
    rect b' /\
    TetrisBoard.board_width b' = TetrisBoard.board_width b /\
    TetrisBoard.board_height b' = TetrisBoard.board_height b /\
    TetrisBoard.current_piece b' = TetrisBoard.current_piece b /\
    forall x y, in_grid b x y ->
      (In (x, y) cells ->
       cell_at (TetrisBoard.board b') x y
       = Some (Color (TetrisPiece.color (TetrisBoard.current_piece b)))) /\
      (~ In (x, y) cells ->
       cell_at (TetrisBoard.board b') x y = cell_at (TetrisBoard.board b) x y).
Proof.
  intros Hr Hb.
  destruct (lock_loop_spec cells Hr) as (b' & Hl & Hr' & Hw' & Hh' & Hp' & Hcells).
  exists b'. unfold TetrisBoard.lock_blocks. rewrite Hb; simpl.
  repeat split; auto; try apply Hr'.
  - intros Hin. rewrite Hcells.
    replace (existsb (coord_eqb (x, y)) cells) with true.
    + apply in_gridb_iff in H. now rewrite H.
    + symmetry. apply existsb_exists. exists (x, y). split; [exact Hin|].
      now apply coord_eqb_iff.
  - intros Hnin. rewrite Hcells.
    replace (existsb (coord_eqb (x, y)) cells) with false; [reflexivity|].
    symmetry. apply not_true_iff_false. intros He.
    apply existsb_exists in He as (xy & Hin & He).
    apply coord_eqb_iff in He. subst xy. contradiction.
Qed.

(* ================================================================== *)
(** * The session: every operation keeps the invariant *)
(* ================================================================== *)

Lemma rect_set_current_piece (b : TetrisBoard.t) (p : TetrisPiece.t) :
  rect b -> rect (TetrisBoard.set_current_piece b p).
Proof. intros H. exact H. Qed.

Lemma clear_full_lines_rect (b : TetrisBoard.t) :
  rect b ->
  rect (fst (TetrisBoard._clear_full_lines b)) /\
  TetrisBoard.current_piece (fst (TetrisBoard._clear_full_lines b))
  = TetrisBoard.current_piece b.
Proof.
  intros [Hh Hw].
  assert (Hlen := filter_negb_length TetrisBoard.all (TetrisBoard.board b)).
  assert (Hkeep : Forall (fun row => Z.of_nat (List.length row) = TetrisBoard.board_width b)
                         (filter (fun row => negb (TetrisBoard.all row)) (TetrisBoard.board b))).
  { apply Forall_forall. intros row Hin. apply filter_In in Hin as [Hin _].
    rewrite Forall_forall in Hw. now apply Hw. }
  unfold TetrisBoard._clear_full_lines.
  destruct (negb _) eqn:Hz; (split; [|reflexivity]); split;
    cbn [fst TetrisBoard.set_board TetrisBoard.board TetrisBoard.board_width
         TetrisBoard.board_height]; auto.
  - unfold TetrisBoard.empty_rows, range_len. rewrite length_app, repeat_length. lia.
  - apply Forall_app. split; [|exact Hkeep].
    apply Forall_forall. intros row Hin. apply repeat_spec in Hin. subst row.
    rewrite repeat_length. unfold range_len.
    destruct (TetrisBoard.board b) as [|row0 rows0].
    + simpl in *. apply negb_true_iff, Z.eqb_neq in Hz. lia.
    + apply Forall_inv in Hw. cbv beta in Hw. lia.
  - apply negb_false_iff, Z.eqb_eq in Hz. lia.
Qed.

Lemma check_collision_total (b : TetrisBoard.t) :
  rect b -> piece_ok (TetrisBoard.current_piece b) ->
  exists c, TetrisBoard.check_collision b = Ok c.
Proof.
  intros Hr Hp. destruct (piece_ok_blocks Hp) as (coords & _ & Hb).
  unfold TetrisBoard.check_collision. rewrite Hb; simpl.
  rewrite check_collision_loop_existsb by exact Hr. eauto.
Qed.

Lemma lock_blocks_total (b : TetrisBoard.t) :
  rect b -> piece_ok (TetrisBoard.current_piece b) ->
  exists b', TetrisBoard.lock_blocks b = Ok b' /\ rect b' /\
             TetrisBoard.current_piece b' = TetrisBoard.current_piece b.
Proof.
  intros Hr Hp. destruct (piece_ok_blocks Hp) as (coords & _ & Hb).
  unfold TetrisBoard.lock_blocks. rewrite Hb; simpl.
  destruct (lock_loop_spec (map (fun '(px, py) =>
              (TetrisPiece.x (TetrisBoard.current_piece b) + px,
               TetrisPiece.y (TetrisBoard.current_piece b) + py)) coords) Hr)
    as (b' & Hl & Hr' & _ & _ & Hp' & _).
  eauto.
Qed.

(** [spawn_next_piece] on a running session: the queued piece becomes the
    current one; the game is over if it collides, otherwise a new piece is
    queued. *)
Lemma spawn_next_piece_ok (r : nat) (s : TetrisApp.t) :
  rect (TetrisApp.board s) -> piece_ok (TetrisApp.next_piece s) ->
  TetrisPiece.y (TetrisApp.next_piece s) = 0 ->
  TetrisApp.game_over s = false ->
  exists s', TetrisApp.spawn_next_piece r s = Ok s' /\ session_ok s' /\
             TetrisBoard.board (TetrisApp.board s') = TetrisBoard.board (TetrisApp.board s) /\
             TetrisApp.score s' = TetrisApp.score s /\
             TetrisApp.level s' = TetrisApp.level s /\
             TetrisApp.lines_cleared s' = TetrisApp.lines_cleared s.
Proof.
  intros Hr Hn Hy Hg. unfold TetrisApp.spawn_next_piece. rewrite Hg.
  set (s1 := TetrisApp.set_current_piece s (TetrisApp.next_piece s)).
  destruct (check_collision_total (b := TetrisApp.board s1)) as [c Hc]; [exact Hr | exact Hn |].
  rewrite Hc; cbn [bind]. destruct c.
  - eexists; split; [reflexivity|].
    split; [|repeat split; reflexivity].
    unfold session_ok; cbn -[TetrisBoard.check_collision].
    split; [exact Hr|]. split; [exact Hn|]. split; [exact Hn|].
    split; [lia|]. split; [exact Hy|]. exact Hc.
  - unfold TetrisApp._queue_new_piece.
    destruct (random_ok r) as (p & Hp & Hok & _ & Hpy). rewrite Hp; cbn [bind].
    eexists; split; [reflexivity|].
    split; [|repeat split; reflexivity].
    unfold session_ok; cbn -[TetrisBoard.check_collision].
    split; [exact Hr|]. split; [exact Hn|]. split; [exact Hok|].
    split; [lia|]. split; [exact Hpy|]. rewrite Hg. exact Hc.
Qed.

(** [lock_piece] on a running session raises nothing and keeps the
    invariant. *)
Lemma lock_piece_ok (r : nat) (s : TetrisApp.t) :
  session_ok s -> TetrisApp.game_over s = false ->
  exists b s',
    TetrisBoard.lock_blocks (TetrisApp.board s) = Ok b /\
    TetrisApp.lock_piece r s = Ok s' /\ session_ok s' /\
    TetrisBoard.board (TetrisApp.board s')
    = TetrisBoard.board (fst (TetrisBoard._clear_full_lines b)).
Proof.
  intros (Hr & Hp & Hn & Hy & Hny & Hc) Hg.
  destruct (lock_blocks_total Hr Hp) as (b & Hl & Hrb & Hpb).
  exists b. unfold TetrisApp.lock_piece. rewrite Hl; cbn [bind].
  destruct (clear_full_lines_rect Hrb) as [Hr2 Hp2].
  destruct (TetrisBoard._clear_full_lines b) as [b2 cleared]; cbn [fst] in *.
  destruct (on_piece_locked_frame (TetrisApp.set_board s b2) cleared) as (Hb' & Hn' & Hg').
  cbn [TetrisApp.set_board TetrisApp.board TetrisApp.next_piece TetrisApp.game_over]
    in Hb', Hn', Hg'.
  destruct (@spawn_next_piece_ok r
              (TetrisApp.on_piece_locked (TetrisApp.set_board s b2) cleared))
    as (s' & Hs & Hok & Hrows & _).
  - now rewrite Hb'.
  - now rewrite Hn'.
  - now rewrite Hn'.
  - now rewrite Hg'.
  - exists s'. split; [reflexivity|]. split; [exact Hs|]. split; [exact Hok|].
    now rewrite Hrows, Hb'.
Qed.



Lemma revert_move (s : TetrisApp.t) (x' y' : Z) :
  TetrisApp.set_current_piece
    (TetrisApp.set_current_piece s
       (TetrisPiece.set_xy (TetrisBoard.current_piece (TetrisApp.board s)) x' y'))
    (TetrisPiece.set_xy
       (TetrisBoard.current_piece
          (TetrisApp.board
             (TetrisApp.set_current_piece s
                (TetrisPiece.set_xy (TetrisBoard.current_piece (TetrisApp.board s)) x' y'))))
       (TetrisPiece.x (TetrisBoard.current_piece (TetrisApp.board s)))
       (TetrisPiece.y (TetrisBoard.current_piece (TetrisApp.board s))))
  = s.
Proof.
  destruct s as [[w h rows [ty col cs c x y]] di sc lv lc np go]. reflexivity.
Qed.

(** [move_piece(dx, dy)] with [dy >= 0] on a running session. *)
Lemma move_piece_ok (dx dy : Z) (r : nat) (s : TetrisApp.t) :
  session_ok s -> TetrisApp.game_over s = false -> 0 <= dy ->
  exists s' moved, TetrisApp.move_piece dx dy r s = Ok (s', moved) /\ session_ok s'.
Proof.
  intros Hok Hg Hdy. pose proof Hok as (Hr & Hp & Hn & Hy & Hny & Hc).
  unfold TetrisApp.move_piece. cbv beta iota zeta.
  set (piece := TetrisBoard.current_piece (TetrisApp.board s)) in *.
  set (moved := TetrisApp.set_current_piece s
                  (TetrisPiece.set_xy piece (TetrisPiece.x piece + dx)
                                      (TetrisPiece.y piece + dy))).
  destruct (check_collision_total (b := TetrisApp.board moved)) as [c Hcm];
    [exact Hr | exact Hp |].
  rewrite Hcm; cbn [bind]. destruct c.
  - subst moved piece. rewrite (revert_move s). destruct (dy >? 0).
    + destruct (lock_piece_ok r Hok Hg) as (b & s' & _ & Hl & Hok' & _).
      rewrite Hl; cbn [bind]. eauto.
    + eauto.
  - exists moved, true. split; [reflexivity|].
    unfold session_ok; subst moved; cbn -[TetrisBoard.check_collision].
    split; [exact Hr|]. split; [exact Hp|]. split; [exact Hn|].
    split; [fold piece; lia|]. split; [exact Hny|]. rewrite Hg. exact Hcm.
Qed.

Lemma restore_rotation (s : TetrisApp.t) (p : TetrisPiece.t) :
  TetrisApp.set_current_piece (TetrisApp.set_current_piece s p)
    (TetrisBoard.current_piece (TetrisApp.board s)) = s.
Proof.
  destruct s as [[w h rows piece] di sc lv lc np go]. reflexivity.
Qed.

(** [rotate_piece()] on a running session. *)
Lemma rotate_piece_ok (s : TetrisApp.t) :
  session_ok s -> TetrisApp.game_over s = false ->
  exists s' rotated, TetrisApp.rotate_piece s = Ok (s', rotated) /\ session_ok s'.
Proof.
  intros Hok Hg. pose proof Hok as (Hr & Hp & Hn & Hy & Hny & Hc).
  unfold TetrisApp.rotate_piece.
  destruct (rotate_ok Hp) as (p' & Hrot & Hp' & Hx' & Hy' & _).
  rewrite Hrot; cbn [bind].
  destruct (check_collision_total (b := TetrisApp.board (TetrisApp.set_current_piece s p')))
    as [c Hcm]; [exact Hr | exact Hp' |].
  rewrite Hcm; cbn [bind]. destruct c.
  - rewrite (undo_rotate_rotate Hp Hrot); cbn [bind].
    rewrite restore_rotation. eauto.
  - eexists _, true. split; [reflexivity|].
    unfold session_ok; cbn -[TetrisBoard.check_collision].
    split; [exact Hr|]. split; [exact Hp'|]. split; [exact Hn|].
    split; [lia|]. split; [exact Hny|]. rewrite Hg. exact Hcm.
Qed.

Lemma moved_by_0 (s : TetrisApp.t) : moved_by s 0 0 = s.
Proof.
  destruct s as [[w h rows [ty col cs c x y]] di sc lv lc np go].
  unfold moved_by, TetrisApp.set_current_piece, TetrisBoard.set_current_piece,
    TetrisPiece.set_xy; simpl. now rewrite !Z.add_0_r.
Qed.

Lemma moved_by_moved_by (s : TetrisApp.t) (dx dy dx' dy' : Z) :
  moved_by (moved_by s dx dy) dx' dy' = moved_by s (dx + dx') (dy + dy').
Proof.
  destruct s as [[w h rows [ty col cs c x y]] di sc lv lc np go].
  unfold moved_by, TetrisApp.set_current_piece, TetrisBoard.set_current_piece,
    TetrisPiece.set_xy; simpl. now rewrite !Z.add_assoc.
Qed.

Lemma lowered_0 (s : TetrisApp.t) : lowered s 0 = s.
Proof. apply moved_by_0. Qed.

Lemma lowered_S (s : TetrisApp.t) (k : nat) :
  lowered (moved_by s 0 1) k = lowered s (S k).
Proof.
  unfold lowered. rewrite moved_by_moved_by. f_equal. lia.
Qed.

(** What [move_piece] does, by the outcome of the collision test at the
    displaced position. *)
Lemma move_piece_cases (dx dy : Z) (r : nat) (s : TetrisApp.t) (c : bool) :
  TetrisBoard.check_collision (TetrisApp.board (moved_by s dx dy)) = Ok c ->
  TetrisApp.move_piece dx dy r s
  = if c then
      if dy >? 0 then locked <- TetrisApp.lock_piece r s ;; Ok (locked, false)
      else Ok (s, false)
    else Ok (moved_by s dx dy, true).
Proof.
  intros Hc. unfold TetrisApp.move_piece. cbv beta iota zeta.
  fold (moved_by s dx dy). rewrite Hc; cbn [bind]. destruct c; [|reflexivity].
  unfold moved_by. rewrite (revert_move s). reflexivity.
Qed.

(** In a running session the current piece is above the floor. *)
Lemma running_above_floor (s : TetrisApp.t) :
  session_ok s -> TetrisApp.game_over s = false ->
  TetrisPiece.y (TetrisBoard.current_piece (TetrisApp.board s))
  < TetrisBoard.board_height (TetrisApp.board s).
Proof.
  intros (Hr & Hp & _ & Hy & _ & Hc) Hg. rewrite Hg in Hc.
  destruct (piece_ok_blocks Hp) as (coords & (Hlen & _ & Hf) & Hb).
  unfold TetrisBoard.check_collision in Hc. rewrite Hb in Hc; cbn [bind] in Hc.
  rewrite check_collision_loop_existsb in Hc by exact Hr. injection Hc as Hc.
  destruct coords as [|[px py] rest]; [discriminate|].
  simpl in Hc. apply orb_false_iff in Hc as [Hc _].
  unfold block_collidesb in Hc; simpl in Hc.
  apply orb_false_iff in Hc as [Hc _]. apply orb_false_iff in Hc as [_ Hc].
  rewrite Z.geb_leb, Z.leb_gt in Hc.
  apply Forall_inv in Hf. destruct Hf as [_ Hpy]; simpl in Hpy. lia.
Qed.

Lemma session_ok_moved (s : TetrisApp.t) (dx dy : Z) :
  session_ok s -> TetrisApp.game_over s = false -> 0 <= dy ->
  TetrisBoard.check_collision (TetrisApp.board (moved_by s dx dy)) = Ok false ->
  session_ok (moved_by s dx dy).
Proof.
  intros (Hr & Hp & Hn & Hy & Hny & Hc) Hg Hdy Hcm.
  unfold session_ok. rewrite Hcm.
  unfold moved_by; cbn -[TetrisBoard.check_collision].
  split; [exact Hr|]. split; [exact Hp|]. split; [exact Hn|].
  split; [lia|]. split; [exact Hny|]. now rewrite Hg.
Qed.

(** The loop of the hard drop, from a running session whose piece has at
    most [m] rows down to the floor. *)
Lemma hard_drop_loop_descends (r : nat) (m : nat) (s : TetrisApp.t) :
  session_ok s -> TetrisApp.game_over s = false ->
  TetrisBoard.board_height (TetrisApp.board s)
  - TetrisPiece.y (TetrisBoard.current_piece (TetrisApp.board s)) <= Z.of_nat m ->
  exists (n : nat) (b : TetrisBoard.t) (locked : TetrisApp.t),
    (n < m)%nat /\
    (forall k, (k < n)%nat ->
       TetrisApp.move_piece 0 1 r (lowered s k) = Ok (lowered s (S k), true)) /\
    TetrisApp.move_piece 0 1 r (lowered s n) = Ok (locked, false) /\
    TetrisBoard.lock_blocks (TetrisApp.board (lowered s n)) = Ok b /\
    TetrisApp.lock_piece r (lowered s n) = Ok locked /\
    TetrisBoard.board (TetrisApp.board locked)
    = TetrisBoard.board (fst (TetrisBoard._clear_full_lines b)) /\
    session_ok locked /\
    forall fuel, (n < fuel)%nat ->
      TetrisApp.hard_drop_loop fuel r s = Some (Ok locked).
Proof.
  revert s. induction m as [|m IH]; intros s Hok Hg Hm.
  { pose proof (@running_above_floor s Hok Hg). lia. }
  pose proof Hok as (Hr & Hp & _).
  destruct (check_collision_total (b := TetrisApp.board (moved_by s 0 1)))
    as [c Hc]; [exact Hr | exact Hp |].
  pose proof (@move_piece_cases 0 1 r s _ Hc) as Hmv.
  destruct c.
  - (* blocked at once: the piece locks where it is *)
    change (1 >? 0) with true in Hmv. cbv iota in Hmv.
    destruct (@lock_piece_ok r s Hok Hg) as (b & locked & Hlb & Hl & Hok' & Hrows).
    rewrite Hl in Hmv; cbn [bind] in Hmv.
    exists O, b, locked. rewrite lowered_0.
    split; [lia|]. split; [intros k Hk; lia|].
    split; [exact Hmv|]. split; [exact Hlb|]. split; [exact Hl|].
    split; [exact Hrows|]. split; [exact Hok'|].
    intros [|fuel] Hf; [lia|]. simpl. now rewrite Hmv.
  - (* one row down, then the rest of the descent *)
    assert (Hok1 : session_ok (moved_by s 0 1))
      by (apply session_ok_moved; auto; lia).
    assert (Hg1 : TetrisApp.game_over (moved_by s 0 1) = false) by exact Hg.
    destruct (IH (moved_by s 0 1) Hok1 Hg1)
      as (n & b & locked & Hn & Hsteps & Hlast & Hlb & Hl & Hrows & Hok' & Hfuel).
    { unfold moved_by; simpl. lia. }
    exists (S n), b, locked. rewrite <- (@lowered_S s n).
    split; [lia|]. split.
    { intros [|k] Hk.
      - rewrite lowered_0, <- (@lowered_S s O), lowered_0. exact Hmv.
      - rewrite <- (@lowered_S s k), <- (@lowered_S s (S k)). apply Hsteps. lia. }
    split; [exact Hlast|]. split; [exact Hlb|]. split; [exact Hl|].
    split; [exact Hrows|]. split; [exact Hok'|].
    intros [|fuel] Hf; [lia|]. simpl. rewrite Hmv. apply Hfuel. lia.
Qed.



Lemma hard_drop_loop_ok (fuel r : nat) (s s' : TetrisApp.t) :
  session_ok s -> TetrisApp.game_over s = false ->
  TetrisApp.hard_drop_loop fuel r s = Some (Ok s') -> session_ok s'.
Proof.
  revert s. induction fuel as [|fuel IH]; intros s Hok Hg Hrun; [discriminate|].
  pose proof Hok as (Hr & Hp & _).
  destruct (check_collision_total (b := TetrisApp.board (moved_by s 0 1)))
    as [c Hc]; [exact Hr | exact Hp |].
  simpl in Hrun. rewrite (@move_piece_cases 0 1 r s c Hc) in Hrun.
  destruct c.
  - change (1 >? 0) with true in Hrun. cbv iota in Hrun.
    destruct (@lock_piece_ok r s Hok Hg) as (b & locked & _ & Hl & Hok' & _).
    rewrite Hl in Hrun; cbn [bind] in Hrun. now injection Hrun as <-.
  - apply (IH (moved_by s 0 1)); [|exact Hg|exact Hrun].
    apply session_ok_moved; auto; lia.
Qed.

(** Every input keeps the invariant. *)
Lemma run_ok (fuel : nat) (a : action) (r : nat) (s s' : TetrisApp.t) :
  session_ok s -> run fuel a r s = Some (Ok s') -> session_ok s'.
Proof.
  intros Hok Hrun.
  destruct (TetrisApp.game_over s) eqn:Hg.
  { destruct a; simpl in Hrun;
      unfold TetrisApp.auto_drop, TetrisApp.action_move_left,
        TetrisApp.action_move_right, TetrisApp.action_move_down,
        TetrisApp.action_rotate, TetrisApp.action_hard_drop in Hrun;
      rewrite Hg in Hrun; simpl in Hrun; injection Hrun as <-; exact Hok. }
  assert (Hmove : forall dx dy r0 s0,
             0 <= dy ->
             (' (self', _) <- TetrisApp.move_piece dx dy r0 s ;; Ok self') = Ok s0 ->
             session_ok s0).
  { intros dx dy r0 s0 Hdy H.
    destruct (@move_piece_ok dx dy r0 s Hok Hg Hdy) as (s1 & moved & Hm & Hok1).
    rewrite Hm in H; cbn [bind] in H. now injection H as <-. }
  destruct a; simpl in Hrun;
    unfold TetrisApp.auto_drop, TetrisApp.action_move_left,
      TetrisApp.action_move_right, TetrisApp.action_move_down,
      TetrisApp.action_rotate, TetrisApp.action_hard_drop in Hrun;
    rewrite Hg in Hrun; cbn [negb] in Hrun.
  - injection Hrun as Hrun. eapply Hmove; [|exact Hrun]. lia.
  - injection Hrun as Hrun. eapply Hmove; [|exact Hrun]. lia.
  - injection Hrun as Hrun. eapply Hmove; [|exact Hrun]. lia.
  - injection Hrun as Hrun. eapply Hmove; [|exact Hrun]. lia.
  - injection Hrun as Hrun.
    destruct (@rotate_piece_ok s Hok Hg) as (s1 & rotated & Hrot & Hok1).
    rewrite Hrot in Hrun; cbn [bind] in Hrun. now injection Hrun as <-.
  - eapply hard_drop_loop_ok; eauto.
Qed.

Lemma empty_rows_empty (width height : Z) :
  Forall (Forall (fun c => c = Zero)) (TetrisBoard.empty_rows width height).
Proof.
  unfold TetrisBoard.empty_rows. apply Forall_forall. intros row Hin.
  apply repeat_spec in Hin. subst row.
  apply Forall_forall. intros c Hc. now apply repeat_spec in Hc.
Qed.

(** The initial session is running and satisfies the invariant. *)
Lemma init_ok (r1 r2 r3 : nat) :
  exists s, TetrisApp.init r1 r2 r3 = Ok s /\ session_ok s /\
            TetrisApp.game_over s = false.
Proof.
  unfold TetrisApp.init, TetrisBoard.init, TetrisApp._update_all_displays,
    TetrisApp._queue_new_piece.
  destruct (random_ok r1) as (p1 & H1 & Hp1 & Hx1 & Hy1).
  destruct (random_ok r2) as (p2 & H2 & _).
  destruct (random_ok r3) as (p3 & H3 & Hp3 & _ & Hy3).
  rewrite H1; cbn [bind]. rewrite H2; cbn [bind]. rewrite H3; cbn [bind].
  eexists; split; [reflexivity|]. split; [|reflexivity].
  unfold session_ok; cbn -[TetrisBoard.check_collision TetrisBoard.empty_rows].
  assert (Hr : rect {| TetrisBoard.board_width := 10; TetrisBoard.board_height := 20;
                       TetrisBoard.board := TetrisBoard.empty_rows 10 20;
                       TetrisBoard.current_piece := p1 |}).
  { split; [reflexivity|]. cbn. repeat constructor. }
  split; [exact Hr|]. split; [exact Hp1|]. split; [exact Hp3|].
  split; [lia|]. split; [exact Hy3|].
  destruct (piece_ok_blocks Hp1) as (coords & (_ & _ & Hf) & Hb).
  change (TetrisBoard.set_current_piece _ p1)
    with {| TetrisBoard.board_width := 10; TetrisBoard.board_height := 20;
            TetrisBoard.board := TetrisBoard.empty_rows 10 20;
            TetrisBoard.current_piece := p1 |}.
  unfold TetrisBoard.check_collision.
  cbn [TetrisBoard.current_piece]. rewrite Hb; cbn [bind].
  rewrite check_collision_loop_existsb by exact Hr. f_equal.
  apply not_true_iff_false. intros He.
  apply existsb_exists in He as (xy & Hin & Hcol).
  apply in_map_iff in Hin as ([px py] & <- & Hin).
  rewrite Forall_forall in Hf. destruct (Hf _ Hin) as [Hpx Hpy]. simpl in Hpx, Hpy.
  apply block_collidesb_iff in Hcol.
  unfold block_collides in Hcol; cbn [fst snd TetrisBoard.board_width
    TetrisBoard.board_height TetrisBoard.board] in Hcol.
  rewrite Hx1, Hy1 in Hcol.
  destruct Hcol as [H|[H|[H|[_ H]]]]; try lia.
  rewrite (@empty_board_not_occupied
             {| TetrisBoard.board_width := 10; TetrisBoard.board_height := 20;
                TetrisBoard.board := TetrisBoard.empty_rows 10 20;
                TetrisBoard.current_piece := p1 |}) in H; [discriminate|].
  apply empty_rows_empty.
Qed.

(** Every reachable session satisfies the invariant. *)
Lemma reachable_session_ok (s : TetrisApp.t) : reachable s -> session_ok s.
Proof.
  induction 1 as [r1 r2 r3 s Hi | fuel a r s s' _ IH Hrun].
  - destruct (init_ok r1 r2 r3) as (s0 & Hi0 & Hok & _).
    rewrite Hi in Hi0. now injection Hi0 as ->.
  - eapply run_ok; eauto.
Qed.

(* ================================================================== *)
(** * The session: game over, rejected moves, hard drop, legality *)
(* ================================================================== *)

(** [spawn_next_piece] leaves the counters alone. *)
Lemma spawn_next_piece_counters (r : nat) (s s' : TetrisApp.t) :
  TetrisApp.spawn_next_piece r s = Ok s' ->
  TetrisApp.score s' = TetrisApp.score s /\
  TetrisApp.level s' = TetrisApp.level s /\
  TetrisApp.lines_cleared s' = TetrisApp.lines_cleared s /\
  TetrisApp.drop_interval s' = TetrisApp.drop_interval s.
Proof.
  unfold TetrisApp.spawn_next_piece. destruct (TetrisApp.game_over s).
  { intros [= <-]. auto. }
  destruct (TetrisBoard.check_collision _) as [[|]|e]; cbn [bind]; [| |discriminate].
  - intros [= <-]. auto.
  - unfold TetrisApp._queue_new_piece.
    destruct (TetrisPiece.random r) as [p|e]; cbn [bind]; [|discriminate].
    intros [= <-]. auto.
Qed.

(** The score, level, line count and drop interval after a lock-and-advance
    are those [on_piece_locked] computes from the number of rows that
    [_clear_full_lines] removed. *)
Lemma lock_piece_counters (r : nat) (s s' : TetrisApp.t) (b : TetrisBoard.t) :
  TetrisBoard.lock_blocks (TetrisApp.board s) = Ok b ->
  TetrisApp.lock_piece r s = Ok s' ->
  let scored :=
    TetrisApp.on_piece_locked
      (TetrisApp.set_board s (fst (TetrisBoard._clear_full_lines b)))
      (snd (TetrisBoard._clear_full_lines b)) in
  TetrisApp.score s' = TetrisApp.score scored /\
  TetrisApp.level s' = TetrisApp.level scored /\
  TetrisApp.lines_cleared s' = TetrisApp.lines_cleared scored /\
  TetrisApp.drop_interval s' = TetrisApp.drop_interval scored.
Proof.
  intros Hl Hlock. unfold TetrisApp.lock_piece in Hlock.
  rewrite Hl in Hlock; cbn [bind] in Hlock.
  destruct (TetrisBoard._clear_full_lines b) as [b2 cleared]; cbn [fst snd].
  now apply spawn_next_piece_counters in Hlock.
Qed.

(** The number [_clear_full_lines] returns is the number of rows of the
    grid that [all] finds full. *)
Lemma clear_full_lines_count (b : TetrisBoard.t) :
  rect b ->
  snd (TetrisBoard._clear_full_lines b) = Z.of_nat (count_full (TetrisBoard.board b)).
Proof.
  intros [Hh _]. pose proof (filter_negb_length TetrisBoard.all (TetrisBoard.board b)).
  unfold count_full, TetrisBoard._clear_full_lines. destruct (negb _); simpl; lia.
Qed.



(** Once the game is over no input changes the session. *)
Lemma run_game_over (fuel : nat) (a : action) (r : nat) (s : TetrisApp.t) :
  TetrisApp.game_over s = true -> run fuel a r s = Some (Ok s).
Proof.
  intros Hg.
  destruct a; simpl;
    unfold TetrisApp.auto_drop, TetrisApp.action_move_left,
      TetrisApp.action_move_right, TetrisApp.action_move_down,
      TetrisApp.action_rotate, TetrisApp.action_hard_drop;
    rewrite Hg; reflexivity.
Qed.



(** C6. When the displaced position collides, [move_piece(dx, dy)] with
    [dy <= 0] (the horizontal moves) gives back the session it was called
    on, the same in every field (kind, deque of codes, code, x, y, grid,
    score), and reports [False]; only with [dy > 0] does it call
    [lock_piece]. When the rotated piece collides, [rotate_piece] gives back
    the session it was called on and reports [False]. *)
Theorem rejected_attempt_reverts (r : nat) (s : TetrisApp.t) :
  piece_ok (TetrisBoard.current_piece (TetrisApp.board s)) ->
  (forall dx dy,
     TetrisBoard.check_collision (TetrisApp.board (moved_by s dx dy)) = Ok true ->
     (dy <= 0 -> TetrisApp.move_piece dx dy r s = Ok (s, false)) /\
     (0 < dy ->
      TetrisApp.move_piece dx dy r s
      = (locked <- TetrisApp.lock_piece r s ;; Ok (locked, false)))) /\
  (forall rotated,
     TetrisPiece.rotate (TetrisBoard.current_piece (TetrisApp.board s)) = Ok rotated ->
     TetrisBoard.check_collision
       (TetrisApp.board (TetrisApp.set_current_piece s rotated)) = Ok true ->
     TetrisApp.rotate_piece s = Ok (s, false)) /\
  (TetrisBoard.check_collision (TetrisApp.board (moved_by s (-1) 0)) = Ok true ->
   TetrisApp.action_move_left r s = Ok s) /\
  (TetrisBoard.check_collision (TetrisApp.board (moved_by s 1 0)) = Ok true ->
   TetrisApp.action_move_right r s = Ok s) /\
  (forall rotated,
     TetrisPiece.rotate (TetrisBoard.current_piece (TetrisApp.board s)) = Ok rotated ->
     TetrisBoard.check_collision
       (TetrisApp.board (TetrisApp.set_current_piece s rotated)) = Ok true ->
     TetrisApp.action_rotate s = Ok s).
Proof.
  intros Hp.
  assert (Hmove : forall dx dy,
             TetrisBoard.check_collision (TetrisApp.board (moved_by s dx dy)) = Ok true ->
             (dy <= 0 -> TetrisApp.move_piece dx dy r s = Ok (s, false)) /\
             (0 < dy ->
              TetrisApp.move_piece dx dy r s
              = (locked <- TetrisApp.lock_piece r s ;; Ok (locked, false)))).
  { intros dx dy Hc. rewrite (@move_piece_cases dx dy r s true Hc).
    split; intros Hdy.
    - replace (dy >? 0) with false; [reflexivity|].
      symmetry. rewrite Z.gtb_ltb. apply Z.ltb_ge. lia.
    - replace (dy >? 0) with true; [reflexivity|].
      symmetry. rewrite Z.gtb_ltb. apply Z.ltb_lt. lia. }
  assert (Hrot : forall rotated,
             TetrisPiece.rotate (TetrisBoard.current_piece (TetrisApp.board s)) = Ok rotated ->
             TetrisBoard.check_collision
               (TetrisApp.board (TetrisApp.set_current_piece s rotated)) = Ok true ->
             TetrisApp.rotate_piece s = Ok (s, false)).
  { intros rotated Hr Hc. unfold TetrisApp.rotate_piece.
    rewrite Hr; cbn [bind]. rewrite Hc; cbn [bind].
    rewrite (undo_rotate_rotate Hp Hr); cbn [bind].
    now rewrite restore_rotation. }
  split; [exact Hmove|]. split; [exact Hrot|].
  split; [|split].
  - intros Hc. unfold TetrisApp.action_move_left.
    destruct (TetrisApp.game_over s); [reflexivity|]. cbn [negb].
    destruct (Hmove (-1) 0 Hc) as [H _]. rewrite H by lia. reflexivity.
  - intros Hc. unfold TetrisApp.action_move_right.
    destruct (TetrisApp.game_over s); [reflexivity|]. cbn [negb].
    destruct (Hmove 1 0 Hc) as [H _]. rewrite H by lia. reflexivity.
  - intros rotated Hr Hc. unfold TetrisApp.action_rotate.
    destruct (TetrisApp.game_over s); [reflexivity|]. cbn [negb].
    rewrite (Hrot rotated Hr Hc). reflexivity.
Qed.



(** C10. In every reachable session that is not over, the current piece is
    at a legal place: [check_collision] answers [False], and every block of
    the piece has [0 <= x < width] and [y < height] and, when [y >= 0], lies
    on a cell of the grid holding [0]. *)
Theorem running_piece_is_legal (s : TetrisApp.t) :
  reachable s -> TetrisApp.game_over s = false ->
  exists cells,
    TetrisPiece.blocks (TetrisBoard.current_piece (TetrisApp.board s)) = Ok cells /\
    List.length cells = 4%nat /\
    TetrisBoard.check_collision (TetrisApp.board s) = Ok false /\
    Forall (block_free (TetrisApp.board s)) cells.
Proof.
  intros Hreach Hg. destruct (reachable_session_ok Hreach) as (Hr & Hp & _ & _ & _ & Hc).
  rewrite Hg in Hc.
  destruct (piece_ok_blocks Hp) as (coords & (Hlen & _ & _) & Hb).
  eexists; split; [exact Hb|]. split; [now rewrite length_map|]. split; [exact Hc|].
  unfold TetrisBoard.check_collision in Hc. rewrite Hb in Hc; cbn [bind] in Hc.
  rewrite check_collision_loop_existsb in Hc by exact Hr. injection Hc as Hc.
  apply Forall_forall. intros [x y] Hin.
  assert (Hno : block_collidesb (TetrisApp.board s) (x, y) = false).
  { apply not_true_iff_false. intros H. apply not_true_iff_false in Hc. apply Hc.
    apply existsb_exists. eauto. }
  unfold block_collidesb in Hno; cbn [fst snd] in Hno.
  apply orb_false_iff in Hno as [Hno Hocc]. apply orb_false_iff in Hno as [Hno Hy].
  apply orb_false_iff in Hno as [Hx0 Hx1].
  rewrite Z.ltb_ge in Hx0. rewrite Z.geb_leb, Z.leb_gt in Hx1, Hy.
  unfold block_free; cbn [fst snd]. split; [lia|]. split; [lia|].
  intros Hy0.
  destruct (@cell_at_inside (TetrisApp.board s) x y Hr) as (row & c & _ & _ & _ & _ & Hcell);
    [lia | lia |].
  replace (y >=? 0) with true in Hocc by (symmetry; apply Z.geb_le; lia).
  unfold occupied in Hocc. rewrite Hcell in Hocc. cbn [andb] in Hocc.
  rewrite Hcell. destruct c; [reflexivity | discriminate].
Qed.

(* ================================================================== *)
(** * [textris2.py] computes the same collision test, lock, line clearing
      and scoring *)
(* ================================================================== *)

Lemma variant_blocks (p : Textris2.TetrisPiece.t) :
  Textris2.TetrisPiece.codes p <> [] ->
  Textris2.TetrisPiece.blocks p = TetrisPiece.blocks (as_piece p).
Proof.
  intros Hne. unfold Textris2.TetrisPiece.blocks, TetrisPiece.blocks.
  replace (TetrisPiece.shape (as_piece p)) with (Textris2.TetrisPiece.shape p);
    [reflexivity|].
  unfold Textris2.TetrisPiece.shape, TetrisPiece.shape, modulo.
  set (n := Z.of_nat (List.length (Textris2.TetrisPiece.codes p))).
  assert (Hn : 0 < n).
  { subst n. destruct (Textris2.TetrisPiece.codes p); [congruence | simpl; lia]. }
  replace (n =? 0) with false by (symmetry; apply Z.eqb_neq; lia).
  cbn [bind].
  pose proof (Z.mod_pos_bound (Textris2.TetrisPiece.rotation p) n Hn) as Hm.
  destruct (@getitem_inside _ (Textris2.TetrisPiece.codes p)
              (Textris2.TetrisPiece.rotation p mod n) Hm) as (code & Hg & Hnth).
  rewrite Hg; cbn [bind]. unfold as_piece; cbn [TetrisPiece.code]. fold n.
  now rewrite (nth_error_nth _ _ "" Hnth).
Qed.

Lemma variant_check_collision_loop (b : Textris2.TetrisBoard.t) (cells : list (Z * Z)) :
  Textris2.TetrisBoard.check_collision_loop b cells
  = TetrisBoard.check_collision_loop (as_board b) cells.
Proof.
  induction cells as [|[x y] rest IH]; [reflexivity|].
  cbn [Textris2.TetrisBoard.check_collision_loop TetrisBoard.check_collision_loop].
  rewrite IH. reflexivity.
Qed.

(** [check_collision] of [textris2.py] is the one of [textris.py]. *)
Lemma variant_check_collision (b : Textris2.TetrisBoard.t) :
  Textris2.TetrisPiece.codes (Textris2.TetrisBoard.current_piece b) <> [] ->
  Textris2.TetrisBoard.check_collision b = TetrisBoard.check_collision (as_board b).
Proof.
  intros Hne. unfold Textris2.TetrisBoard.check_collision, TetrisBoard.check_collision.
  cbn [as_board TetrisBoard.current_piece]. rewrite <- (@variant_blocks _ Hne).
  destruct (Textris2.TetrisPiece.blocks _) as [cells|e]; [|reflexivity].
  cbn [bind]. apply variant_check_collision_loop.
Qed.

Lemma variant_lock_loop (cells : list (Z * Z)) (b : Textris2.TetrisBoard.t) :
  result_map as_board (Textris2.TetrisBoard.lock_loop b cells)
  = TetrisBoard.lock_loop (as_board b) cells.
Proof.
  revert b. induction cells as [|[x y] rest IH]; intros b; [reflexivity|].
  cbn [Textris2.TetrisBoard.lock_loop TetrisBoard.lock_loop].
  change (TetrisBoard.board_width (as_board b)) with (Textris2.TetrisBoard.board_width b).
  change (TetrisBoard.board_height (as_board b)) with (Textris2.TetrisBoard.board_height b).
  change (TetrisBoard.board (as_board b)) with (Textris2.TetrisBoard.board b).
  change (TetrisPiece.color (TetrisBoard.current_piece (as_board b)))
    with (Textris2.TetrisPiece.color (Textris2.TetrisBoard.current_piece b)).
  destruct (_ && _); [|apply IH].
  destruct (getitem (Textris2.TetrisBoard.board b) y) as [row|e]; [|reflexivity].
  cbn [bind]. destruct (setitem row x _) as [row'|e]; [|reflexivity].
  cbn [bind]. destruct (setitem (Textris2.TetrisBoard.board b) y row') as [rows'|e];
    [|reflexivity].
  cbn [bind]. apply IH.
Qed.

(** The writing loop of [lock_piece] of [textris2.py] is the one of
    [textris.py]. *)
Lemma variant_lock_blocks (b : Textris2.TetrisBoard.t) :
  Textris2.TetrisPiece.codes (Textris2.TetrisBoard.current_piece b) <> [] ->
  result_map as_board (Textris2.TetrisBoard.lock_blocks b)
  = TetrisBoard.lock_blocks (as_board b).
Proof.
  intros Hne. unfold Textris2.TetrisBoard.lock_blocks, TetrisBoard.lock_blocks.
  cbn [as_board TetrisBoard.current_piece]. rewrite <- (@variant_blocks _ Hne).
  destruct (Textris2.TetrisPiece.blocks _) as [cells|e]; [|reflexivity].
  cbn [bind]. apply variant_lock_loop.
Qed.

(** [_clear_full_lines] of [textris2.py] is the one of [textris.py]. *)
Lemma variant_clear_full_lines (b : Textris2.TetrisBoard.t) :
  as_board (fst (Textris2.TetrisBoard._clear_full_lines b))
  = fst (TetrisBoard._clear_full_lines (as_board b)) /\
  snd (Textris2.TetrisBoard._clear_full_lines b)
  = snd (TetrisBoard._clear_full_lines (as_board b)).
Proof.
  unfold Textris2.TetrisBoard._clear_full_lines, TetrisBoard._clear_full_lines.
  cbn [as_board TetrisBoard.board TetrisBoard.board_height TetrisBoard.board_width].
  change Textris2.TetrisBoard.all with TetrisBoard.all.
  destruct (negb _); split; reflexivity.
Qed.

(** [on_piece_locked] of [textris2.py] is the one of [textris.py]. *)
Lemma variant_on_piece_locked (s : Textris2.TetrisApp.t) (cleared : Z) :
  as_app (Textris2.TetrisApp.on_piece_locked s cleared)
  = TetrisApp.on_piece_locked (as_app s) cleared.
Proof.
  unfold Textris2.TetrisApp.on_piece_locked, TetrisApp.on_piece_locked.
  destruct (negb (cleared =? 0));
    cbn [as_app Textris2.TetrisApp.set_score TetrisApp.set_score
         Textris2.TetrisApp.lines_cleared Textris2.TetrisApp.level
         Textris2.TetrisApp.score TetrisApp.lines_cleared TetrisApp.level
         TetrisApp.score];
    change Textris2.TetrisApp.lines_per_level with TetrisApp.lines_per_level;
    change Textris2.TetrisApp.line_score with TetrisApp.line_score;
    destruct (negb _); reflexivity.
Qed.

(** [spawn_next_piece] of [textris2.py] never tests the promoted piece: it
    always promotes and queues, whatever the grid holds. *)
Lemma variant_spawn_never_tests (r : nat) (s : Textris2.TetrisApp.t) :
  exists queued,
    Textris2.TetrisPiece.random r = Ok queued /\
    Textris2.TetrisApp.spawn_next_piece r s
    = Ok (Textris2.TetrisApp.set_next_piece
            (Textris2.TetrisApp.set_current_piece s (Textris2.TetrisApp.next_piece s))
            queued).
Proof.
  unfold Textris2.TetrisApp.spawn_next_piece, Textris2.TetrisApp._queue_new_piece,
    Textris2.TetrisPiece.random, choice.
  assert (Hk : (r mod List.length (keys PIECES) < 7)%nat)
    by (apply Nat.mod_upper_bound; discriminate).
  set (k := (r mod List.length (keys PIECES))%nat) in *. clearbody k.
  change (keys PIECES) with ["O"; "I"; "J"; "L"; "T"; "Z"; "S"].
  do 7 (destruct k as [|k]; [eexists; split; reflexivity|]).
  lia.
Qed.

(** The lock-and-advance of [textris2.py] scores as the one of [textris.py]
    does: once the blocks are written it raises nothing, and its score,
    level, line count and drop interval are those [on_piece_locked] computes
    from the number of rows that [_clear_full_lines] removed. *)
Lemma variant_lock_piece_counters (r : nat) (s : Textris2.TetrisApp.t)
      (b : Textris2.TetrisBoard.t) :
  Textris2.TetrisBoard.lock_blocks (Textris2.TetrisApp.board s) = Ok b ->
  exists s',
    Textris2.TetrisApp.lock_piece r s = Ok s' /\
    let scored :=
      TetrisApp.on_piece_locked
        (as_app (Textris2.TetrisApp.set_board s
                   (fst (Textris2.TetrisBoard._clear_full_lines b))))
        (snd (Textris2.TetrisBoard._clear_full_lines b)) in
    Textris2.TetrisApp.score s' = TetrisApp.score scored /\
    Textris2.TetrisApp.level s' = TetrisApp.level scored /\
    Textris2.TetrisApp.lines_cleared s' = TetrisApp.lines_cleared scored /\
    Textris2.TetrisApp.drop_interval s' = TetrisApp.drop_interval scored.
Proof.
  intros Hl. unfold Textris2.TetrisApp.lock_piece. rewrite Hl; cbn [bind].
  destruct (Textris2.TetrisBoard._clear_full_lines b) as [b2 cleared]; cbn [fst snd].
  destruct (variant_spawn_never_tests r
              (Textris2.TetrisApp.on_piece_locked
                 (Textris2.TetrisApp.set_board s b2) cleared))
    as (queued & _ & Hs).
  rewrite Hs. eexists. split; [reflexivity|].
  cbv zeta. rewrite <- variant_on_piece_locked. repeat split; reflexivity.
Qed.

(* ================================================================== *)
(** * The properties on concrete sessions *)
(* ================================================================== *)

Lemma start_session_init : TetrisApp.init 1 0 0 = Ok start_session.
Proof. vm_compute. reflexivity. Qed.

(** The collision test on the stack: the "I" piece lying in row 1. *)
Lemma check_collision_iff_witness :
  rect (TetrisApp.board stack_session) /\
  TetrisPiece.blocks (TetrisBoard.current_piece (TetrisApp.board stack_session))
  = Ok [(4, 1); (5, 1); (6, 1); (7, 1)] /\
  exists r,
    TetrisBoard.check_collision (TetrisApp.board stack_session) = Ok r /\
    (r = true <->
     Exists (block_collides (TetrisApp.board stack_session))
            [(4, 1); (5, 1); (6, 1); (7, 1)]) /\
    (empty_board (TetrisApp.board stack_session) ->
     (r = false <->
      Forall (block_within (TetrisApp.board stack_session))
             [(4, 1); (5, 1); (6, 1); (7, 1)])).
Proof.
  assert (Hr : rect (TetrisApp.board stack_session))
    by (split; [reflexivity | repeat constructor]).
  split; [exact Hr|]. split; [reflexivity|].
  apply (@check_collision_iff (TetrisApp.board stack_session)
           [(4, 1); (5, 1); (6, 1); (7, 1)] Hr).
  reflexivity.
Defined.

(** Clearing the grid whose rows 2 and 5 are full: two rows are counted,
    two empty rows come on top, the other rows follow in their order. *)
Lemma clear_full_lines_spec_witness :
  rect two_full_board /\ tags_ok two_full_board /\
  snd (TetrisBoard._clear_full_lines two_full_board) = 2 /\
  TetrisBoard.board (fst (TetrisBoard._clear_full_lines two_full_board))
  = repeat (empty_row 10) 2
    ++ filter (fun row => negb (full_row row)) two_full_rows /\
  List.length (TetrisBoard.board (fst (TetrisBoard._clear_full_lines two_full_board)))
  = 20%nat.
Proof.
  assert (Hr : rect two_full_board)
    by (split; [reflexivity | repeat constructor]).
  assert (Ht : tags_ok two_full_board)
    by (repeat (constructor; try discriminate)).
  split; [exact Hr|]. split; [exact Ht|].
  destruct (@clear_full_lines_spec two_full_board Hr Ht) as (Hc & Hb & _).
  split; [exact Hc|]. split; [exact Hb|]. reflexivity.
Defined.

(** The scoring table of the specification: one to four lines at level 1,
    four lines at level 3, and a lock without a cleared line. *)
Example scoring_table :
  map (fun c => TetrisApp.score (TetrisApp.on_piece_locked start_session c)) [1; 2; 3; 4; 0]
  = [100; 300; 500; 800; 10] /\
  TetrisApp.score
    (TetrisApp.on_piece_locked (TetrisApp.set_level start_session 3 0.8%float) 4)
  = 2400.
Proof. split; reflexivity. Qed.

(** Level and interval progression: the tenth line gives level 2 and
    0.9 s; 95 lines give level 10 and the clamp 0.1 s. *)
Example level_progression :
  let nine := TetrisApp.set_score start_session 900 9 in
  let s10 := TetrisApp.on_piece_locked nine 1 in
  let s95 := TetrisApp.on_piece_locked (TetrisApp.set_score start_session 0 91) 4 in
  TetrisApp.level s10 = 2 /\ TetrisApp.drop_interval s10 = 0.9%float /\
  TetrisApp.level s95 = 10 /\ TetrisApp.drop_interval s95 = 0.1%float.
Proof. repeat split; vm_compute; reflexivity. Qed.





(** The "I" piece upright against the left wall: the move to the left and
    the rotation are both rejected and leave the session as it was. *)
Lemma rejected_attempt_reverts_witness :
  piece_ok (TetrisBoard.current_piece (TetrisApp.board wall_session)) /\
  TetrisApp.move_piece (-1) 0 0 wall_session = Ok (wall_session, false) /\
  TetrisApp.rotate_piece wall_session = Ok (wall_session, false) /\
  TetrisApp.action_move_left 0 wall_session = Ok wall_session /\
  TetrisApp.action_rotate wall_session = Ok wall_session.
Proof.
  assert (Hp : piece_ok (TetrisBoard.current_piece (TetrisApp.board wall_session)))
    by (split; reflexivity).
  split; [exact Hp|].
  destruct (@rejected_attempt_reverts 0 wall_session Hp)
    as (Hmove & Hrot & Hleft & _ & Harot).
  split; [apply (Hmove (-1) 0); [reflexivity | lia]|].
  split; [eapply Hrot; reflexivity|].
  split; [apply Hleft; reflexivity|].
  eapply Harot; reflexivity.
Defined.

(** Locking the "I" piece on top of the stack writes its four blocks. *)
Lemma lock_blocks_spec_witness :
  rect (TetrisApp.board stack_session) /\
  TetrisPiece.blocks (TetrisBoard.current_piece (TetrisApp.board stack_session))
  = Ok [(4, 1); (5, 1); (6, 1); (7, 1)] /\
  exists b',
    TetrisBoard.lock_blocks (TetrisApp.board stack_session) = Ok b' /\
    cell_at (TetrisBoard.board b') 4 1 = Some (Color "cyan") /\
    cell_at (TetrisBoard.board b') 3 1 = Some Zero /\
    cell_at (TetrisBoard.board b') 4 2 = Some (Color "red").
Proof.
  assert (Hr : rect (TetrisApp.board stack_session))
    by (split; [reflexivity | repeat constructor]).
  split; [exact Hr|]. split; [reflexivity|].
  destruct (@lock_blocks_spec (TetrisApp.board stack_session)
              [(4, 1); (5, 1); (6, 1); (7, 1)] Hr eq_refl)
    as (b' & Hl & _ & _ & _ & _ & Hcells).
  exists b'. split; [exact Hl|].
  split; [apply (Hcells 4 1); [split; simpl; lia | simpl; auto]|].
  split.
  - destruct (Hcells 3 1) as [_ H]; [split; simpl; lia|].
    rewrite H; [reflexivity|].
    simpl. intros [H'|[H'|[H'|[H'|[]]]]]; discriminate.
  - destruct (Hcells 4 2) as [_ H]; [split; simpl; lia|].
    rewrite H; [reflexivity|].
    simpl. intros [H'|[H'|[H'|[H'|[]]]]]; discriminate.
Defined.

(** The "T" piece after two rotations. *)
Lemma shape_invariant_witness :
  In "T" (keys PIECES) /\ (2 < 4)%nat /\
  exists p p' coords,
    TetrisPiece.init "T" = Ok p /\ rotate_times 2 p = Ok p' /\
    TetrisPiece.shape p' = Ok coords /\
    List.length coords = 4%nat /\ NoDup coords /\ Forall in_frame coords.
Proof.
  assert (Hin : In "T" (keys PIECES)) by (simpl; tauto).
  assert (Hlt : (2 < 4)%nat) by lia.
  split; [exact Hin|]. split; [exact Hlt|].
  destruct (@shape_invariant "T" 2%nat Hin Hlt)
    as (_ & p & p' & coords & Hi & Hr & Hs & _ & Hl & Hd & Hf).
  exists p, p', coords. repeat split; assumption.
Defined.


Example hard_drop_start :
  exists locked,
    TetrisApp.action_hard_drop 19 0 start_session = Some (Ok locked) /\
    TetrisApp.action_hard_drop 18 0 start_session = None /\
    nth 19 (TetrisBoard.board (TetrisApp.board locked)) []
    = repeat Zero 4 ++ repeat (Color "cyan") 4 ++ repeat Zero 2 /\
    TetrisApp.score locked = 10.
Proof. eexists. split; [vm_compute; reflexivity|]. repeat split. Qed.

(** The initial session is running and its piece is at a legal place. *)
Lemma running_piece_is_legal_witness :
  reachable start_session /\ TetrisApp.game_over start_session = false /\
  exists cells,
    TetrisPiece.blocks (TetrisBoard.current_piece (TetrisApp.board start_session))
    = Ok cells /\
    Forall (block_free (TetrisApp.board start_session)) cells.
Proof.
  assert (Hreach : reachable start_session)
    by (apply (@reachable_init 1 0 0); exact start_session_init).
  split; [exact Hreach|]. split; [reflexivity|].
  destruct (@running_piece_is_legal start_session Hreach eq_refl)
    as (cells & Hb & _ & _ & Hf).
  exists cells. split; assumption.
Defined.



(* ================================================================== *)
(** * More about pieces: building, turning back, full turns *)
(* ================================================================== *)

Lemma rotate_left_right {A : Type} (l : list A) :
  rotate_left (rotate_right l) = l.
Proof.
  unfold rotate_right. destruct (rev l) as [|a t] eqn:Hr.
  - apply (f_equal (@rev A)) in Hr. rewrite rev_involutive in Hr. now subst.
  - simpl. apply (f_equal (@rev A)) in Hr. rewrite rev_involutive in Hr.
    simpl in Hr. now subst.
Qed.

Lemma iter_rotate_left_split {A : Type} (l : list A) (k : nat) :
  (k <= List.length l)%nat ->
  Nat.iter k rotate_left l = skipn k l ++ firstn k l.
Proof.
  induction k as [|k IH]; intros Hk.
  - simpl. now rewrite app_nil_r.
  - simpl Nat.iter. rewrite IH by lia.
    destruct (skipn k l) as [|a rest] eqn:Hs.
    { apply (f_equal (@List.length A)) in Hs. rewrite length_skipn in Hs. simpl in Hs. lia. }
    assert (Hl : l = firstn k l ++ a :: rest)
      by (rewrite <- Hs; symmetry; apply firstn_skipn).
    assert (Hfk : List.length (firstn k l) = k) by (apply firstn_length_le; lia).
    change (rotate_left ((a :: rest) ++ firstn k l))
      with ((rest ++ firstn k l) ++ [a]).
    rewrite <- app_assoc.
    assert (Hskip : skipn (S k) l = rest).
    { rewrite Hl at 1. replace (S k) with (List.length (firstn k l) + 1)%nat by lia.
      rewrite skipn_app, skipn_all2 by lia.
      replace (List.length (firstn k l) + 1 - List.length (firstn k l))%nat with 1%nat by lia.
      reflexivity. }
    assert (Hfirst : firstn (S k) l = firstn k l ++ [a]).
    { rewrite Hl at 1. replace (S k) with (List.length (firstn k l) + 1)%nat by lia.
      rewrite firstn_app_2. reflexivity. }
    now rewrite Hskip, Hfirst.
Qed.

Lemma iter_rotate_left_full {A : Type} (l : list A) :
  Nat.iter (List.length l) rotate_left l = l.
Proof.
  rewrite iter_rotate_left_split by lia.
  now rewrite skipn_all, firstn_all.
Qed.

Lemma rotate_times_codes (k : nat) (p p' : TetrisPiece.t) :
  rotate_times k p = Ok p' ->
  TetrisPiece.codes p' = Nat.iter k rotate_left (TetrisPiece.codes p) /\
  TetrisPiece.type p' = TetrisPiece.type p /\
  TetrisPiece.color p' = TetrisPiece.color p /\
  TetrisPiece.x p' = TetrisPiece.x p /\ TetrisPiece.y p' = TetrisPiece.y p /\
  (k <> O -> hd_error (TetrisPiece.codes p') = Some (TetrisPiece.code p')).
Proof.
  revert p. induction k as [|k IH]; intros p H.
  - injection H as <-. repeat split; auto. congruence.
  - simpl in H. apply bind_Ok in H as (p1 & H1 & H).
    destruct (IH _ H) as (Hc & Ht & Hcol & Hx & Hy & Hhd).
    unfold TetrisPiece.rotate in H1. apply bind_Ok in H1 as (code1 & Hg & H1).
    injection H1 as <-. simpl in *.
    change (deque_rotate (TetrisPiece.codes p) (-1))
      with (rotate_left (TetrisPiece.codes p)) in *.
    split; [|split; [exact Ht|]; split; [exact Hcol|]; split; [exact Hx|];
             split; [exact Hy|]].
    + rewrite Hc. clear. induction k as [|k IHk]; [reflexivity|]. simpl. now rewrite IHk.
    + intros _. destruct k as [|k]; [|apply Hhd; discriminate].
      injection H as <-. simpl.
      destruct (rotate_left (TetrisPiece.codes p)) as [|c cs]; [discriminate|].
      rewrite getitem_0 in Hg. now injection Hg as <-.
Qed.

(** X1. Rotating a piece as many times as it has rotation states (four for
    every kind of [PIECES]) gives back the piece it started from, field for
    field. *)
Theorem rotate_full_turn (p : TetrisPiece.t) :
  piece_ok p ->
  rotate_times (List.length (TetrisPiece.codes p)) p = Ok p.
Proof.
  intros Hp.
  destruct (@rotate_times_ok (List.length (TetrisPiece.codes p)) p Hp) as (p' & Hr & _).
  rewrite Hr. f_equal.
  destruct (rotate_times_codes _ _ Hr) as (Hc & Ht & Hcol & Hx & Hy & Hhd).
  rewrite iter_rotate_left_full in Hc.
  destruct Hp as [_ Hhead].
  assert (Hcode : TetrisPiece.code p' = TetrisPiece.code p).
  { destruct (TetrisPiece.codes p) as [|c cs] eqn:Hcs; [discriminate|].
    specialize (Hhd ltac:(simpl; discriminate)). rewrite Hc in Hhd.
    simpl in Hhd, Hhead. congruence. }
  destruct p, p'; simpl in *. congruence.
Qed.

Lemma rotate_full_turn_witness :
  piece_ok piece_I /\ rotate_times 4 piece_I = Ok piece_I.
Proof.
  assert (Hp : piece_ok piece_I) by (split; reflexivity).
  split; [exact Hp|]. exact (@rotate_full_turn piece_I Hp).
Defined.

(** X2. [rotate] and [undo_rotate] undo each other, in both orders, on every
    piece whose code is the head of its deque. *)
Theorem rotate_undo_round_trip (p : TetrisPiece.t) :
  hd_error (TetrisPiece.codes p) = Some (TetrisPiece.code p) ->
  (r <- TetrisPiece.rotate p ;; TetrisPiece.undo_rotate r) = Ok p /\
  (u <- TetrisPiece.undo_rotate p ;; TetrisPiece.rotate u) = Ok p.
Proof.
  intros Hhd. destruct p as [ty col cs c x y]; simpl in Hhd.
  destruct cs as [|c0 rest]; [discriminate|]. injection Hhd as ->.
  unfold TetrisPiece.rotate, TetrisPiece.undo_rotate, TetrisPiece.set_codes; simpl.
  change (deque_rotate (c :: rest) (-1)) with (rotate_left (c :: rest)).
  change (deque_rotate (c :: rest) 1) with (rotate_right (c :: rest)).
  split.
  - assert (Hne : exists c1 r1, rotate_left (c :: rest) = c1 :: r1)
      by (destruct rest; simpl; eauto).
    destruct Hne as (c1 & r1 & Hrl). rewrite Hrl, getitem_0; cbn [bind].
    simpl TetrisPiece.codes. rewrite <- Hrl.
    change (deque_rotate (rotate_left (c :: rest)) 1)
      with (rotate_right (rotate_left (c :: rest))).
    rewrite rotate_right_left, getitem_0. reflexivity.
  - assert (Hne : exists c1 r1, rotate_right (c :: rest) = c1 :: r1).
    { unfold rotate_right. destruct (rev (c :: rest)) as [|a t] eqn:Hr; [|eauto].
      apply (f_equal (@List.length string)) in Hr. rewrite length_rev in Hr. discriminate. }
    destruct Hne as (c1 & r1 & Hrr). rewrite Hrr, getitem_0; cbn [bind].
    simpl TetrisPiece.codes. rewrite <- Hrr.
    change (deque_rotate (rotate_right (c :: rest)) (-1))
      with (rotate_left (rotate_right (c :: rest))).
    rewrite rotate_left_right, getitem_0. reflexivity.
Qed.

Lemma rotate_undo_round_trip_witness :
  hd_error (TetrisPiece.codes piece_O) = Some (TetrisPiece.code piece_O) /\
  (r <- TetrisPiece.rotate piece_O ;; TetrisPiece.undo_rotate r) = Ok piece_O /\
  (u <- TetrisPiece.undo_rotate piece_O ;; TetrisPiece.rotate u) = Ok piece_O.
Proof.
  split; [reflexivity|]. exact (@rotate_undo_round_trip piece_O eq_refl).
Defined.

Lemma dict_get_missing {V : Type} (d : list (string * V)) (key : string) :
  ~ In key (keys d) -> dict_get d key = Raise KeyError.
Proof.
  induction d as [|[k v] rest IH]; intros Hn; [reflexivity|].
  simpl in *. destruct (String.eqb_spec k key) as [->|Hne]; [tauto|].
  apply IH. tauto.
Qed.

(** X3. [TetrisPiece(piece_type)] raises [KeyError] for every name that is
    not a key of [PIECES]; for each of the seven keys it builds a piece of
    that kind at [x = 4, y = 0] whose four blocks lie in columns 4 to 7 and
    rows 0 to 3; [TetrisPiece()] never raises. *)
Theorem piece_construction (piece_type : string) :
  (~ In piece_type (keys PIECES) -> TetrisPiece.init piece_type = Raise KeyError) /\
  (In piece_type (keys PIECES) ->
   exists p cells,
     TetrisPiece.init piece_type = Ok p /\
     TetrisPiece.type p = piece_type /\
     TetrisPiece.x p = 4 /\ TetrisPiece.y p = 0 /\
     TetrisPiece.blocks p = Ok cells /\ List.length cells = 4%nat /\
     Forall (fun xy => 4 <= fst xy <= 7 /\ 0 <= snd xy <= 3) cells) /\
  (forall r, exists p, TetrisPiece.random r = Ok p /\ In (TetrisPiece.type p) (keys PIECES)).
Proof.
  split; [|split].
  - intros Hn. unfold TetrisPiece.init. now rewrite dict_get_missing.
  - intros Hin. simpl in Hin.
    destruct Hin as [<-|[<-|[<-|[<-|[<-|[<-|[<-|[]]]]]]]];
      (do 2 eexists; split; [vm_compute; reflexivity|];
       do 3 (split; [reflexivity|]);
       split; [vm_compute; reflexivity|]; split; [reflexivity|];
       repeat (apply Forall_cons; [simpl; lia|]); apply Forall_nil).
  - intros r. unfold TetrisPiece.random, choice.
    assert (Hk : (r mod List.length (keys PIECES) < 7)%nat)
      by (apply Nat.mod_upper_bound; discriminate).
    set (k := (r mod List.length (keys PIECES))%nat) in *. clearbody k.
    change (keys PIECES) with ["O"; "I"; "J"; "L"; "T"; "Z"; "S"].
    do 7 (destruct k as [|k];
          [eexists; split; [vm_compute; reflexivity | simpl; tauto]|]).
    lia.
Qed.

(* ================================================================== *)
(** * More about the board: locking twice, clearing twice *)
(* ================================================================== *)

Lemma lock_loop_outside (b : TetrisBoard.t) (cells : list (Z * Z)) :
  Forall (fun xy => in_gridb b (fst xy) (snd xy) = false) cells ->
  TetrisBoard.lock_loop b cells = Ok b.
Proof.
  induction 1 as [|[x y] rest Hxy _ IH]; [reflexivity|].
  simpl in *. fold (in_gridb b x y). now rewrite Hxy.
Qed.

Lemma list_eq_nth_error {A : Type} (l l' : list A) :
  (forall n, nth_error l n = nth_error l' n) -> l = l'.
Proof.
  revert l'. induction l as [|a l IH]; intros [|a' l'] H.
  - reflexivity.
  - specialize (H O). discriminate.
  - specialize (H O). discriminate.
  - pose proof (H O) as H0. injection H0 as <-. f_equal.
    apply IH. intros n. exact (H (S n)).
Qed.

(** Two rectangular grids of the same dimensions with the same cells are
    the same list of rows. *)
Lemma rows_eq_cell_at (b1 b2 : TetrisBoard.t) :
  rect b1 -> rect b2 ->
  TetrisBoard.board_width b1 = TetrisBoard.board_width b2 ->
  TetrisBoard.board_height b1 = TetrisBoard.board_height b2 ->
  (forall x y, in_grid b1 x y ->
     cell_at (TetrisBoard.board b1) x y = cell_at (TetrisBoard.board b2) x y) ->
  TetrisBoard.board b1 = TetrisBoard.board b2.
Proof.
  intros [Hh1 Hw1] [Hh2 Hw2] Hw Hh Hcells.
  apply list_eq_nth_error. intros i.
  destruct (nth_error (TetrisBoard.board b1) i) as [row1|] eqn:H1.
  - assert (Hi : (i < List.length (TetrisBoard.board b1))%nat)
      by (apply nth_error_Some; congruence).
    destruct (nth_error (TetrisBoard.board b2) i) as [row2|] eqn:H2;
      [|apply nth_error_None in H2; lia].
    f_equal. apply list_eq_nth_error. intros j.
    rewrite Forall_forall in Hw1, Hw2.
    pose proof (Hw1 _ (nth_error_In _ _ H1)) as Hl1.
    pose proof (Hw2 _ (nth_error_In _ _ H2)) as Hl2.
    destruct (Nat.lt_ge_cases j (List.length row1)) as [Hj|Hj].
    + specialize (Hcells (Z.of_nat j) (Z.of_nat i)).
      unfold cell_at in Hcells.
      replace ((Z.of_nat j <? 0) || (Z.of_nat i <? 0)) with false in Hcells
        by (symmetry; apply orb_false_iff; split; apply Z.ltb_ge; lia).
      rewrite !Nat2Z.id, H1, H2 in Hcells. apply Hcells. split; lia.
    + replace (nth_error row1 j) with (@None cell)
        by (symmetry; apply nth_error_None; lia).
      symmetry. apply nth_error_None. lia.
  - apply nth_error_None in H1. symmetry. apply nth_error_None. lia.
Qed.

(** X4. After the writing loop of [lock_piece], the position of the piece
    collides as soon as one of its blocks is inside the grid; a piece with
    no block inside the grid leaves the board exactly as it was. *)
Theorem locked_position_collides (b b' : TetrisBoard.t) (cells : list (Z * Z)) :
  rect b ->
  TetrisPiece.blocks (TetrisBoard.current_piece b) = Ok cells ->
  TetrisBoard.lock_blocks b = Ok b' ->
  (Exists (fun xy => in_grid b (fst xy) (snd xy)) cells ->
   TetrisBoard.check_collision b' = Ok true) /\
  (Forall (fun xy => ~ in_grid b (fst xy) (snd xy)) cells -> b' = b).
Proof.
  intros Hr Hb Hl.
  destruct (lock_loop_spec cells Hr) as (b2 & Hl2 & Hr2 & Hw2 & Hh2 & Hp2 & Hcells).
  unfold TetrisBoard.lock_blocks in Hl. rewrite Hb in Hl; cbn [bind] in Hl.
  rewrite Hl2 in Hl. injection Hl as <-.
  split.
  - intros Hex. unfold TetrisBoard.check_collision. rewrite Hp2, Hb; cbn [bind].
    rewrite check_collision_loop_existsb by exact Hr2. f_equal.
    apply Exists_exists in Hex as ([x y] & Hin & Hg). cbn [fst snd] in Hg.
    apply existsb_exists. exists (x, y). split; [exact Hin|].
    apply block_collidesb_iff. right. right. right. cbn [fst snd].
    destruct Hg as [Hx Hy]. split; [lia|].
    unfold occupied. rewrite Hcells.
    replace (existsb (coord_eqb (x, y)) cells) with true.
    + replace (in_gridb b x y) with true; [reflexivity|].
      symmetry. apply in_gridb_iff. split; assumption.
    + symmetry. apply existsb_exists. exists (x, y). split; [exact Hin|].
      now apply coord_eqb_iff.
  - intros Hout. rewrite lock_loop_outside in Hl2; [now injection Hl2|].
    apply Forall_forall. intros [x y] Hin. rewrite Forall_forall in Hout.
    specialize (Hout _ Hin). cbn [fst snd] in *.
    apply not_true_iff_false. intros H. apply Hout. now apply in_gridb_iff.
Qed.

Lemma locked_position_collides_witness :
  rect (TetrisApp.board stack_session) /\
  exists b',
    TetrisBoard.lock_blocks (TetrisApp.board stack_session) = Ok b' /\
    TetrisBoard.check_collision b' = Ok true.
Proof.
  assert (Hr : rect (TetrisApp.board stack_session))
    by (split; [reflexivity | repeat constructor]).
  split; [exact Hr|].
  destruct (TetrisBoard.lock_blocks (TetrisApp.board stack_session)) as [b'|e] eqn:Hl;
    [|vm_compute in Hl; discriminate].
  exists b'. split; [reflexivity|].
  apply (@locked_position_collides (TetrisApp.board stack_session) b'
           [(4, 1); (5, 1); (6, 1); (7, 1)] Hr eq_refl Hl).
  apply Exists_cons_hd. split; simpl; lia.
Defined.

(** X5. Locking is idempotent: the writing loop of [lock_piece] run again on
    its own result gives that result back. *)
Theorem lock_blocks_idempotent (b b' : TetrisBoard.t) (cells : list (Z * Z)) :
  rect b ->
  TetrisPiece.blocks (TetrisBoard.current_piece b) = Ok cells ->
  TetrisBoard.lock_blocks b = Ok b' ->
  TetrisBoard.lock_blocks b' = Ok b'.
Proof.
  intros Hr Hb Hl.
  destruct (lock_loop_spec cells Hr) as (b1 & Hl1 & Hr1 & Hw1 & Hh1 & Hp1 & Hc1).
  unfold TetrisBoard.lock_blocks in Hl. rewrite Hb in Hl; cbn [bind] in Hl.
  rewrite Hl1 in Hl. injection Hl as <-.
  destruct (lock_loop_spec cells Hr1) as (b2 & Hl2 & Hr2 & Hw2 & Hh2 & Hp2 & Hc2).
  unfold TetrisBoard.lock_blocks. rewrite Hp1, Hb; cbn [bind]. rewrite Hl2. f_equal.
  assert (Hrows : TetrisBoard.board b2 = TetrisBoard.board b1).
  { apply rows_eq_cell_at; auto. intros x y Hg.
    rewrite Hc2, Hc1, Hp1.
    replace (in_gridb b1 x y) with (in_gridb b x y)
      by (unfold in_gridb; now rewrite Hw1, Hh1).
    destruct (existsb (coord_eqb (x, y)) cells && in_gridb b x y); reflexivity. }
  destruct b1, b2; simpl in *. congruence.
Qed.

Lemma lock_blocks_idempotent_witness :
  rect (TetrisApp.board stack_session) /\
  exists b',
    TetrisBoard.lock_blocks (TetrisApp.board stack_session) = Ok b' /\
    TetrisBoard.lock_blocks b' = Ok b'.
Proof.
  assert (Hr : rect (TetrisApp.board stack_session))
    by (split; [reflexivity | repeat constructor]).
  split; [exact Hr|].
  destruct (TetrisBoard.lock_blocks (TetrisApp.board stack_session)) as [b'|e] eqn:Hl;
    [|vm_compute in Hl; discriminate].
  exists b'. split; [reflexivity|].
  exact (@lock_blocks_idempotent (TetrisApp.board stack_session) b'
           [(4, 1); (5, 1); (6, 1); (7, 1)] Hr eq_refl Hl).
Defined.

Lemma filter_all_kept {A : Type} (f : A -> bool) (l : list A) :
  Forall (fun a => f a = true) l -> filter f l = l.
Proof.
  induction 1 as [|a l Ha _ IH]; simpl; [reflexivity|]. now rewrite Ha, IH.
Qed.

Lemma cleared_rows_not_full (b : TetrisBoard.t) :
  0 < TetrisBoard.board_width b ->
  Forall (fun row => negb (TetrisBoard.all row) = true)
         (TetrisBoard.board (fst (TetrisBoard._clear_full_lines b))).
Proof.
  intros Hw.
  assert (Hkept : Forall (fun row => negb (TetrisBoard.all row) = true)
                         (filter (fun row => negb (TetrisBoard.all row)) (TetrisBoard.board b))).
  { apply Forall_forall. intros row Hin. now apply filter_In in Hin. }
  unfold TetrisBoard._clear_full_lines.
  destruct (negb (_ =? 0)); cbn [fst TetrisBoard.set_board TetrisBoard.board];
    [|exact Hkept].
  apply Forall_app. split; [|exact Hkept].
  apply Forall_forall. intros row Hin. apply repeat_spec in Hin. subst row.
  unfold range_len. destruct (Z.to_nat (TetrisBoard.board_width b)) eqn:Hn; [lia|].
  reflexivity.
Qed.

(** X6. On a rectangular board of positive width, [_clear_full_lines] run a
    second time finds nothing to clear: it returns [0] and the board it was
    given. *)
Theorem clear_full_lines_twice (b : TetrisBoard.t) :
  rect b -> 0 < TetrisBoard.board_width b ->
  TetrisBoard._clear_full_lines (fst (TetrisBoard._clear_full_lines b))
  = (fst (TetrisBoard._clear_full_lines b), 0).
Proof.
  intros Hr Hw.
  pose proof (cleared_rows_not_full b Hw) as Hnf.
  destruct (clear_full_lines_rect Hr) as [[Hh1 _] _].
  assert (Hw1 : TetrisBoard.board_width (fst (TetrisBoard._clear_full_lines b))
                = TetrisBoard.board_width b).
  { unfold TetrisBoard._clear_full_lines. destruct (negb _); reflexivity. }
  set (b1 := fst (TetrisBoard._clear_full_lines b)) in *.
  unfold TetrisBoard._clear_full_lines at 1.
  rewrite (filter_all_kept _ Hnf).
  replace (TetrisBoard.board_height b1 - Z.of_nat (List.length (TetrisBoard.board b1)))
    with 0 by lia.
  cbn [Z.eqb negb]. destruct b1; reflexivity.
Qed.

Lemma clear_full_lines_twice_witness :
  rect two_full_board /\ 0 < TetrisBoard.board_width two_full_board /\
  snd (TetrisBoard._clear_full_lines two_full_board) = 2 /\
  TetrisBoard._clear_full_lines (fst (TetrisBoard._clear_full_lines two_full_board))
  = (fst (TetrisBoard._clear_full_lines two_full_board), 0).
Proof.
  assert (Hr : rect two_full_board)
    by (split; [reflexivity | repeat constructor]).
  assert (Hw : 0 < TetrisBoard.board_width two_full_board) by (simpl; lia).
  split; [exact Hr|]. split; [exact Hw|]. split; [reflexivity|].
  exact (@clear_full_lines_twice two_full_board Hr Hw).
Defined.

(* ================================================================== *)
(** * The session step by step: what an input can do *)
(* ================================================================== *)

Lemma move_piece_inv (dx dy : Z) (r : nat) (s s' : TetrisApp.t) (m : bool) :
  TetrisApp.move_piece dx dy r s = Ok (s', m) ->
  (m = true /\ s' = moved_by s dx dy /\
   TetrisBoard.check_collision (TetrisApp.board (moved_by s dx dy)) = Ok false) \/
  (m = false /\
   TetrisBoard.check_collision (TetrisApp.board (moved_by s dx dy)) = Ok true /\
   ((dy <= 0 /\ s' = s) \/ (0 < dy /\ TetrisApp.lock_piece r s = Ok s'))).
Proof.
  intros H.
  destruct (TetrisBoard.check_collision (TetrisApp.board (moved_by s dx dy)))
    as [c|e] eqn:Hc.
  - rewrite (@move_piece_cases dx dy r s c Hc) in H. destruct c.
    + right. destruct (dy >? 0) eqn:Hdy.
      * apply bind_Ok in H as (locked & Hl & H). injection H as <- <-.
        repeat split; auto. right. split; [|exact Hl].
        rewrite Z.gtb_ltb in Hdy. now apply Z.ltb_lt.
      * injection H as <- <-. repeat split; auto. left. split; [|reflexivity].
        rewrite Z.gtb_ltb in Hdy. now apply Z.ltb_ge.
    + left. injection H as <- <-. auto.
  - unfold TetrisApp.move_piece in H. cbv beta iota zeta in H.
    fold (moved_by s dx dy) in H. rewrite Hc in H. discriminate.
Qed.

Lemma set_current_piece_twice (s : TetrisApp.t) (p q : TetrisPiece.t) :
  TetrisApp.set_current_piece (TetrisApp.set_current_piece s p) q
  = TetrisApp.set_current_piece s q.
Proof. reflexivity. Qed.

(** Whatever relates a session to itself, is transitive, and relates a
    running session to the outcome of an accepted move, of an accepted
    rotation and of a lock, relates every session to what an input makes of
    it. *)
Lemma run_relates (R : TetrisApp.t -> TetrisApp.t -> Prop) :
  (forall s, R s s) ->
  (forall a b c, R a b -> R b c -> R a c) ->
  (forall s dx dy,
     session_ok s -> TetrisApp.game_over s = false -> 0 <= dy ->
     TetrisBoard.check_collision (TetrisApp.board (moved_by s dx dy)) = Ok false ->
     R s (moved_by s dx dy)) ->
  (forall s p',
     session_ok s -> TetrisApp.game_over s = false ->
     TetrisPiece.rotate (TetrisBoard.current_piece (TetrisApp.board s)) = Ok p' ->
     TetrisBoard.check_collision
       (TetrisApp.board (TetrisApp.set_current_piece s p')) = Ok false ->
     R s (TetrisApp.set_current_piece s p')) ->
  (forall r s s',
     session_ok s -> TetrisApp.game_over s = false ->
     TetrisApp.lock_piece r s = Ok s' -> R s s') ->
  forall fuel a r s s',
    session_ok s -> run fuel a r s = Some (Ok s') -> R s s'.
Proof.
  intros Hrefl Htrans Hmoved Hrot Hlock fuel a r s s' Hok Hrun.
  destruct (TetrisApp.game_over s) eqn:Hg.
  { rewrite run_game_over in Hrun by exact Hg. injection Hrun as <-. apply Hrefl. }
  assert (Hmove : forall dx dy s0,
             0 <= dy ->
             (' (self', _) <- TetrisApp.move_piece dx dy r s ;; Ok self') = Ok s0 ->
             R s s0).
  { intros dx dy s0 Hdy H. apply bind_Ok in H as ([s1 m] & Hm & H).
    injection H as <-.
    destruct (move_piece_inv _ _ _ _ Hm) as [(_ & -> & Hc)|(_ & _ & [[_ ->]|[_ Hl]])].
    - now apply Hmoved.
    - apply Hrefl.
    - eapply Hlock; eauto. }
  destruct a; simpl in Hrun;
    unfold TetrisApp.auto_drop, TetrisApp.action_move_left,
      TetrisApp.action_move_right, TetrisApp.action_move_down,
      TetrisApp.action_rotate, TetrisApp.action_hard_drop in Hrun;
    rewrite Hg in Hrun; cbn [negb] in Hrun.
  - injection Hrun as Hrun. eapply Hmove; [|exact Hrun]. lia.
  - injection Hrun as Hrun. eapply Hmove; [|exact Hrun]. lia.
  - injection Hrun as Hrun. eapply Hmove; [|exact Hrun]. lia.
  - injection Hrun as Hrun. eapply Hmove; [|exact Hrun]. lia.
  - injection Hrun as Hrun. pose proof Hok as (Hr & Hp & _).
    unfold TetrisApp.rotate_piece in Hrun.
    destruct (rotate_ok Hp) as (p' & Hrp & Hp' & _).
    rewrite Hrp in Hrun; cbn [bind] in Hrun.
    destruct (check_collision_total
                (b := TetrisApp.board (TetrisApp.set_current_piece s p')))
      as [c Hc]; [exact Hr | exact Hp' |].
    rewrite Hc in Hrun; cbn [bind] in Hrun. destruct c.
    + rewrite (undo_rotate_rotate Hp Hrp) in Hrun; cbn [bind] in Hrun.
      rewrite restore_rotation in Hrun. injection Hrun as <-. apply Hrefl.
    + injection Hrun as <-. now apply Hrot.
  - clear Hmove. revert s Hok Hg Hrun.
    induction fuel as [|fuel IH]; intros s Hok Hg Hrun; [discriminate|].
    simpl in Hrun.
    destruct (TetrisApp.move_piece 0 1 r s) as [[s1 m]|e] eqn:Hm; [|discriminate].
    destruct (move_piece_inv _ _ _ _ Hm) as [(-> & -> & Hc)|(-> & _ & [[Hd _]|[_ Hl]])].
    + apply Htrans with (moved_by s 0 1).
      * apply Hmoved; auto. lia.
      * apply IH; auto. apply session_ok_moved; auto. lia.
    + lia.
    + injection Hrun as <-. eapply Hlock; eauto.
Qed.

Lemma Forall_replace_nth {A : Type} (P : A -> Prop) (n : nat) (l : list A) (a : A) :
  Forall P l -> P a -> Forall P (replace_nth n l a).
Proof.
  intros Hl Ha. revert n.
  induction Hl as [|h t Hh Ht IHl]; intros [|n]; simpl; constructor; auto.
Qed.

Lemma Forall_getitem {A : Type} (P : A -> Prop) (l : list A) (i : Z) (a : A) :
  Forall P l -> getitem l i = Ok a -> P a.
Proof.
  intros Hl Hg. unfold getitem in Hg.
  destruct (_ || _); [discriminate|].
  destruct (nth_error l _) as [a0|] eqn:Hn; [|discriminate].
  injection Hg as <-. rewrite Forall_forall in Hl. eauto using nth_error_In.
Qed.

Lemma Forall_setitem {A : Type} (P : A -> Prop) (l l' : list A) (i : Z) (a : A) :
  Forall P l -> P a -> setitem l i a = Ok l' -> Forall P l'.
Proof.
  intros Hl Ha Hs. unfold setitem in Hs.
  destruct (_ || _); [discriminate|]. injection Hs as <-.
  now apply Forall_replace_nth.
Qed.

Lemma lock_loop_tags (cells : list (Z * Z)) (b b' : TetrisBoard.t) :
  tags_ok b ->
  TetrisPiece.color (TetrisBoard.current_piece b) <> "" ->
  TetrisBoard.lock_loop b cells = Ok b' -> tags_ok b'.
Proof.
  revert b. induction cells as [|[x y] rest IH]; intros b Ht Hcol H.
  { now injection H as <-. }
  simpl in H. destruct (_ && _) eqn:Hin; [|eapply IH; eauto].
  apply bind_Ok in H as (row & Hrow & H). apply bind_Ok in H as (row' & Hrow' & H).
  apply bind_Ok in H as (rows' & Hrows' & H).
  eapply IH; [| |exact H].
  - unfold tags_ok in *. cbn [TetrisBoard.set_board TetrisBoard.board].
    eapply Forall_setitem; [exact Ht| |exact Hrows'].
    eapply Forall_setitem; [eapply Forall_getitem; eauto| |exact Hrow'].
    intros [= Hc]. now apply Hcol.
  - exact Hcol.
Qed.

Lemma clear_full_lines_tags (b : TetrisBoard.t) :
  tags_ok b -> tags_ok (fst (TetrisBoard._clear_full_lines b)).
Proof.
  intros Ht. unfold tags_ok in *.
  assert (Hkept : Forall (Forall (fun c => c <> Color ""))
                         (filter (fun row => negb (TetrisBoard.all row)) (TetrisBoard.board b))).
  { apply Forall_forall. intros row Hin. apply filter_In in Hin as [Hin _].
    rewrite Forall_forall in Ht. auto. }
  unfold TetrisBoard._clear_full_lines.
  destruct (negb _); cbn [fst TetrisBoard.set_board TetrisBoard.board]; [|exact Hkept].
  apply Forall_app. split; [|exact Hkept].
  apply Forall_forall. intros row Hin. apply repeat_spec in Hin. subst row.
  apply Forall_forall. intros c Hc. apply repeat_spec in Hc. subst c. discriminate.
Qed.

Lemma random_color (r : nat) (p : TetrisPiece.t) :
  TetrisPiece.random r = Ok p -> TetrisPiece.color p <> "".
Proof.
  unfold TetrisPiece.random, choice.
  assert (Hk : (r mod List.length (keys PIECES) < 7)%nat)
    by (apply Nat.mod_upper_bound; discriminate).
  set (k := (r mod List.length (keys PIECES))%nat) in *. clearbody k.
  change (keys PIECES) with ["O"; "I"; "J"; "L"; "T"; "Z"; "S"].
  do 7 (destruct k as [|k];
        [vm_compute; intros [= <-]; discriminate|]).
  lia.
Qed.

Lemma line_score_positive (cleared : Z) :
  0 < cleared -> 100 <= TetrisApp.line_score cleared.
Proof.
  intros H. destruct (Z_le_gt_dec cleared 4) as [Hle|Hgt].
  - assert (Hc : cleared = 1 \/ cleared = 2 \/ cleared = 3 \/ cleared = 4) by lia.
    destruct Hc as [-> | [-> | [-> | ->]]]; simpl; lia.
  - rewrite line_score_large by lia. lia.
Qed.

(** [on_piece_locked] with a count that is not negative keeps the counters
    consistent and adds at least 10 to the score. *)
Lemma on_piece_locked_counters (s : TetrisApp.t) (cleared : Z) :
  0 <= cleared ->
  0 <= TetrisApp.score s -> 0 <= TetrisApp.lines_cleared s ->
  TetrisApp.level s = Z.max 1 (1 + TetrisApp.lines_cleared s / 10) ->
  TetrisApp.drop_interval s = TetrisApp.interval_of_level (TetrisApp.level s) ->
  let s' := TetrisApp.on_piece_locked s cleared in
  TetrisApp.score s + 10 <= TetrisApp.score s' /\
  TetrisApp.lines_cleared s' = TetrisApp.lines_cleared s + cleared /\
  TetrisApp.level s <= TetrisApp.level s' /\
  TetrisApp.level s' = Z.max 1 (1 + TetrisApp.lines_cleared s' / 10) /\
  TetrisApp.drop_interval s' = TetrisApp.interval_of_level (TetrisApp.level s').
Proof.
  intros Hc Hs Hl Hlev Hint s'. subst s'.
  assert (Hlevel1 : 1 <= TetrisApp.level s) by lia.
  assert (Hmono : TetrisApp.lines_cleared s / 10
                  <= (TetrisApp.lines_cleared s + cleared) / 10)
    by (apply Z.div_le_mono; lia).
  unfold TetrisApp.on_piece_locked, TetrisApp.lines_per_level.
  destruct (Z.eqb_spec cleared 0) as [->|Hne]; cbn [negb];
    cbn [TetrisApp.set_score TetrisApp.lines_cleared TetrisApp.level TetrisApp.score].
  - rewrite Z.add_0_r, <- Hlev, Z.eqb_refl. cbn [negb].
    cbn [TetrisApp.set_score TetrisApp.lines_cleared TetrisApp.level TetrisApp.score
         TetrisApp.drop_interval].
    repeat split; auto; lia.
  - pose proof (@line_score_positive cleared ltac:(lia)) as Hls.
    assert (Hgain : 10 <= TetrisApp.line_score cleared * TetrisApp.level s) by nia.
    destruct (Z.eqb_spec (Z.max 1 (1 + (TetrisApp.lines_cleared s + cleared) / 10))
                         (TetrisApp.level s)) as [He|He]; cbn [negb];
      cbn [TetrisApp.set_level TetrisApp.set_score TetrisApp.lines_cleared
           TetrisApp.level TetrisApp.score TetrisApp.drop_interval];
      repeat split; auto; try lia.
Qed.

Lemma filter_replace_nth_length {A : Type} (f : A -> bool) (n : nat) (l : list A) (a : A) :
  (List.length (filter f (replace_nth n l a)) <= S (List.length (filter f l)))%nat.
Proof.
  revert n. induction l as [|h t IH]; intros [|n]; simpl; try lia.
  - destruct (f a), (f h); simpl; lia.
  - specialize (IH n). destruct (f h); simpl; lia.
Qed.

(** Each block written by the loop of [lock_piece] can complete at most one
    row. *)
Lemma lock_loop_count_full (cells : list (Z * Z)) (b b' : TetrisBoard.t) :
  TetrisBoard.lock_loop b cells = Ok b' ->
  (count_full (TetrisBoard.board b')
   <= count_full (TetrisBoard.board b) + List.length cells)%nat.
Proof.
  revert b. induction cells as [|[x y] rest IH]; intros b H.
  { injection H as <-. simpl. lia. }
  simpl in H. destruct (_ && _).
  - apply bind_Ok in H as (row & _ & H). apply bind_Ok in H as (row' & _ & H).
    apply bind_Ok in H as (rows' & Hrows' & H).
    apply IH in H. cbn [TetrisBoard.set_board TetrisBoard.board] in H.
    unfold setitem in Hrows'. destruct (_ || _); [discriminate|].
    injection Hrows' as <-.
    match type of H with
    | context [replace_nth ?n ?l ?a] =>
        pose proof (filter_replace_nth_length TetrisBoard.all n l a) as Hle
    end.
    unfold count_full in *. simpl List.length. lia.
  - apply IH in H. simpl List.length. lia.
Qed.

(** A lock-and-advance in a running session: what it keeps and what it
    adds. *)
Lemma lock_piece_play (r : nat) (s s' : TetrisApp.t) :
  session_ok s -> TetrisApp.game_over s = false -> play_ok s ->
  TetrisApp.lock_piece r s = Ok s' ->
  play_ok s' /\
  TetrisApp.score s + 10 <= TetrisApp.score s' /\
  TetrisApp.level s <= TetrisApp.level s' /\
  exists b,
    TetrisBoard.lock_blocks (TetrisApp.board s) = Ok b /\
    0 <= snd (TetrisBoard._clear_full_lines b) <= 4 /\
    TetrisApp.lines_cleared s'
    = TetrisApp.lines_cleared s + snd (TetrisBoard._clear_full_lines b).
Proof.
  intros (Hr & Hp & Hn & _) Hg
         (Hw & Hh & Hsc & Hli & Hlev & Hint & Htags & Hcc & Hcn & Hfull) Hlock.
  destruct (piece_ok_blocks Hp) as (coords & (Hlen & _ & _) & Hb).
  unfold TetrisApp.lock_piece in Hlock.
  destruct (TetrisBoard.lock_blocks (TetrisApp.board s)) as [b|e] eqn:Hl; [|discriminate].
  cbn [bind] in Hlock.
  pose proof Hl as Hl'. unfold TetrisBoard.lock_blocks in Hl'.
  rewrite Hb in Hl'; cbn [bind] in Hl'.
  destruct (lock_loop_spec
              (map (fun '(px, py) =>
                      (TetrisPiece.x (TetrisBoard.current_piece (TetrisApp.board s)) + px,
                       TetrisPiece.y (TetrisBoard.current_piece (TetrisApp.board s)) + py))
                   coords) Hr)
    as (b0 & Hl0 & Hrb & Hwb & Hhb & Hpb & _).
  rewrite Hl0 in Hl'. injection Hl' as ->.
  pose proof (lock_loop_tags _ Htags Hcc Hl0) as Htb.
  pose proof (lock_loop_count_full _ _ Hl0) as Hcount.
  rewrite length_map, Hlen, Hfull in Hcount.
  pose proof (clear_full_lines_count Hrb) as Hcleared.
  pose proof (clear_full_lines_tags Htb) as Ht2.
  destruct (clear_full_lines_rect Hrb) as [Hr2 Hp2].
  assert (Hnf : count_full (TetrisBoard.board (fst (TetrisBoard._clear_full_lines b))) = 0%nat).
  { pose proof (@cleared_rows_not_full b ltac:(lia)) as Hnf.
    unfold count_full.
    replace (filter TetrisBoard.all
               (TetrisBoard.board (fst (TetrisBoard._clear_full_lines b))))
      with (@nil (list cell)); [reflexivity|].
    symmetry. induction Hnf as [|row l Hrow _ IHl]; [reflexivity|].
    simpl. apply negb_true_iff in Hrow. now rewrite Hrow. }
  assert (Hdims : TetrisBoard.board_width (fst (TetrisBoard._clear_full_lines b))
                  = TetrisBoard.board_width b /\
                  TetrisBoard.board_height (fst (TetrisBoard._clear_full_lines b))
                  = TetrisBoard.board_height b).
  { unfold TetrisBoard._clear_full_lines. destruct (negb _); split; reflexivity. }
  destruct Hdims as [Hw2 Hh2].
  destruct (TetrisBoard._clear_full_lines b) as [b2 cleared] eqn:Hclr; cbn [fst snd] in *.
  destruct (@on_piece_locked_counters (TetrisApp.set_board s b2) cleared)
    as (Hs' & Hl' & Hlv' & Hlev' & Hint'); auto; try lia.
  destruct (on_piece_locked_frame (TetrisApp.set_board s b2) cleared)
    as (Hbd & Hnx & Hgo).
  cbn [TetrisApp.set_board TetrisApp.board TetrisApp.next_piece TetrisApp.game_over
       TetrisApp.score TetrisApp.level TetrisApp.lines_cleared] in *.
  set (scored := TetrisApp.on_piece_locked (TetrisApp.set_board s b2) cleared) in *.
  destruct (spawn_next_piece_counters _ _ Hlock) as (Es & El & Eli & Ed).
  assert (Hspawn :
            TetrisBoard.board (TetrisApp.board s') = TetrisBoard.board b2 /\
            TetrisBoard.board_width (TetrisApp.board s') = TetrisBoard.board_width b2 /\
            TetrisBoard.board_height (TetrisApp.board s') = TetrisBoard.board_height b2 /\
            TetrisPiece.color (TetrisBoard.current_piece (TetrisApp.board s')) <> "" /\
            TetrisPiece.color (TetrisApp.next_piece s') <> "").
  { unfold TetrisApp.spawn_next_piece in Hlock. rewrite Hgo, Hg in Hlock.
    destruct (TetrisBoard.check_collision _) as [[|]|e] in Hlock;
      cbn [bind] in Hlock; [| |discriminate].
    - injection Hlock as <-. cbn. rewrite Hbd, Hnx. cbn. auto.
    - unfold TetrisApp._queue_new_piece in Hlock.
      destruct (TetrisPiece.random r) as [q|e] eqn:Hq; [|discriminate].
      cbn [bind] in Hlock. injection Hlock as <-. cbn. rewrite Hbd, Hnx. cbn.
      repeat split; auto. eapply random_color; eauto. }
  destruct Hspawn as (Hrows & Hws & Hhs & Hc1 & Hc2).
  split.
  { unfold play_ok. rewrite Hws, Hhs, Es, Eli, El, Ed.
    unfold tags_ok. rewrite Hrows.
    repeat split; auto; try lia. }
  split; [lia|]. split; [lia|].
  exists b. rewrite Hclr. cbn [snd]. split; [reflexivity|]. split; [lia|]. lia.
Qed.

Lemma init_play_ok (r1 r2 r3 : nat) (s : TetrisApp.t) :
  TetrisApp.init r1 r2 r3 = Ok s -> play_ok s.
Proof.
  unfold TetrisApp.init, TetrisBoard.init, TetrisApp._update_all_displays,
    TetrisApp._queue_new_piece.
  destruct (TetrisPiece.random r1) as [p1|e] eqn:H1; [|discriminate].
  destruct (TetrisPiece.random r2) as [p2|e] eqn:H2; [|discriminate].
  destruct (TetrisPiece.random r3) as [p3|e] eqn:H3; [|discriminate].
  cbn [bind]. intros [= <-].
  unfold play_ok; cbn -[TetrisBoard.empty_rows TetrisApp.interval_of_level].
  repeat split; try lia; try reflexivity.
  - apply Forall_forall. intros row Hin. apply repeat_spec in Hin. subst row.
    apply Forall_forall. intros c Hc. apply repeat_spec in Hc. subst c. discriminate.
  - eapply random_color; eauto.
  - eapply random_color; eauto.
Qed.

(** An input never takes anything back: it keeps [play_ok] and does not
    lower the score, the line count or the level. *)
Lemma run_play (fuel : nat) (a : action) (r : nat) (s s' : TetrisApp.t) :
  session_ok s -> play_ok s -> run fuel a r s = Some (Ok s') ->
  play_ok s' /\
  TetrisApp.score s <= TetrisApp.score s' /\
  TetrisApp.lines_cleared s <= TetrisApp.lines_cleared s' /\
  TetrisApp.level s <= TetrisApp.level s'.
Proof.
  intros Hok Hplay Hrun.
  refine (@run_relates
            (fun a b => play_ok a ->
                        play_ok b /\
                        TetrisApp.score a <= TetrisApp.score b /\
                        TetrisApp.lines_cleared a <= TetrisApp.lines_cleared b /\
                        TetrisApp.level a <= TetrisApp.level b)
            _ _ _ _ _ fuel a r s s' Hok Hrun Hplay).
  - intros s0 H. split; [exact H|]. repeat split; lia.
  - intros x y z Hxy Hyz Hx. destruct (Hxy Hx) as (Hy & ? & ? & ?).
    destruct (Hyz Hy) as (Hz & ? & ? & ?). split; [exact Hz|]. repeat split; lia.
  - intros s0 dx dy _ _ _ _ H. split; [exact H|]. simpl. lia.
  - intros s0 p' (_ & Hp & _) _ Hrot _ H.
    destruct (rotate_ok Hp) as (q & Hq & _ & _ & _ & Hcol).
    rewrite Hrot in Hq. injection Hq as <-.
    split; [|simpl; lia].
    destruct H as (Hw & Hh & Hsc & Hli & Hlev & Hint & Htags & Hcc & Hcn & Hfull).
    unfold play_ok; cbn. rewrite Hcol. repeat split; auto.
  - intros r0 s0 s1 Hok0 Hg0 Hl H.
    destruct (@lock_piece_play r0 s0 s1 Hok0 Hg0 H Hl) as (Hp1 & Hs & Hlv & b & _ & Hc & Hlines).
    split; [exact Hp1|]. repeat split; lia.
Qed.

Lemma reachable_play_ok (s : TetrisApp.t) : reachable s -> play_ok s.
Proof.
  induction 1 as [r1 r2 r3 s Hi | fuel a r s s' Hreach IH Hrun].
  - eapply init_play_ok; eauto.
  - eapply run_play; eauto using reachable_session_ok.
Qed.

(** X7. Throughout a game the grid stays 10 by 20, the score and the number
    of cleared lines are never negative, the level is always
    [max(1, 1 + lines_cleared // 10)], hence at least 1, and the drop
    interval is always [max(0.1, 1.0 - (level - 1) * 0.1)] for the current
    level, hence at least 0.1 s. *)
Theorem reachable_counters (s : TetrisApp.t) :
  reachable s ->
  TetrisBoard.board_width (TetrisApp.board s) = 10 /\
  TetrisBoard.board_height (TetrisApp.board s) = 20 /\
  0 <= TetrisApp.score s /\
  0 <= TetrisApp.lines_cleared s /\
  TetrisApp.level s = Z.max 1 (1 + TetrisApp.lines_cleared s / 10) /\
  1 <= TetrisApp.level s /\
  TetrisApp.drop_interval s
  = max_float 0.1 (1.0 - float_of_int (TetrisApp.level s - 1) * 0.1)%float /\
  PrimFloat.leb 0.1 (TetrisApp.drop_interval s) = true.
Proof.
  intros Hreach.
  destruct (@reachable_play_ok s Hreach)
    as (Hw & Hh & Hsc & Hli & Hlev & Hint & _).
  repeat split; auto; try lia.
  rewrite Hint. apply max_float_ge. reflexivity.
Qed.

Lemma reachable_start_session : reachable start_session.
Proof. apply (@reachable_init 1 0 0). exact start_session_init. Qed.

Lemma reachable_counters_witness :
  reachable start_session /\
  TetrisApp.level start_session = Z.max 1 (1 + TetrisApp.lines_cleared start_session / 10) /\
  PrimFloat.leb 0.1 (TetrisApp.drop_interval start_session) = true.
Proof.
  split; [exact reachable_start_session|].
  destruct (@reachable_counters start_session reachable_start_session)
    as (_ & _ & _ & _ & Hlev & _ & _ & Hd).
  split; assumption.
Defined.

(** X8. Throughout a game the grid is rectangular, every colour on it is a
    non-empty string and no row is full: full rows never outlive the lock
    that completed them. *)
Theorem reachable_grid_clean (s : TetrisApp.t) :
  reachable s ->
  rect (TetrisApp.board s) /\
  tags_ok (TetrisApp.board s) /\
  Forall (fun row => full_row row = false) (TetrisBoard.board (TetrisApp.board s)).
Proof.
  intros Hreach.
  destruct (reachable_session_ok Hreach) as (Hr & _).
  destruct (@reachable_play_ok s Hreach)
    as (_ & _ & _ & _ & _ & _ & Htags & _ & _ & Hfull).
  split; [exact Hr|]. split; [exact Htags|].
  unfold count_full in Hfull. unfold tags_ok in Htags.
  induction Htags as [|row rows Hrow _ IH]; [constructor|].
  simpl in Hfull. rewrite (all_full_row Hrow) in Hfull.
  destruct (full_row row) eqn:Hf; [discriminate|].
  constructor; auto.
Qed.

Lemma reachable_grid_clean_witness :
  reachable start_session /\
  Forall (fun row => full_row row = false)
         (TetrisBoard.board (TetrisApp.board start_session)).
Proof.
  split; [exact reachable_start_session|].
  exact (proj2 (proj2 (@reachable_grid_clean start_session reachable_start_session))).
Defined.

(** X9. A lock-and-advance during a game clears at most four rows, so the
    fallback [cleared * 200] of the scoring table is never used: the score
    grows by 10 when no row is cleared and by 100, 300, 500 or 800 times the
    level held before the lock for one to four rows, and the line count
    grows by the number of rows cleared. *)
Theorem lock_clears_at_most_four (r : nat) (s s' : TetrisApp.t) :
  reachable s -> TetrisApp.game_over s = false ->
  TetrisApp.lock_piece r s = Ok s' ->
  exists cleared,
    0 <= cleared <= 4 /\
    TetrisApp.lines_cleared s' = TetrisApp.lines_cleared s + cleared /\
    TetrisApp.score s'
    = TetrisApp.score s
      + (if cleared =? 0 then 10
         else nth (Z.to_nat (cleared - 1)) [100; 300; 500; 800] 0 * TetrisApp.level s).
Proof.
  intros Hreach Hg Hlock.
  pose proof (reachable_session_ok Hreach) as Hok.
  pose proof (@reachable_play_ok s Hreach) as Hplay.
  destruct (@lock_piece_play r s s' Hok Hg Hplay Hlock) as (_ & _ & _ & b & Hl & Hc & Hlines).
  exists (snd (TetrisBoard._clear_full_lines b)).
  split; [exact Hc|]. split; [exact Hlines|].
  destruct (@lock_piece_counters r s s' b Hl Hlock) as (Hs & _).
  rewrite Hs. unfold TetrisApp.on_piece_locked.
  set (cleared := snd (TetrisBoard._clear_full_lines b)) in *.
  assert (Hcases : cleared = 0 \/ cleared = 1 \/ cleared = 2 \/ cleared = 3 \/ cleared = 4)
    by lia.
  destruct Hcases as [-> | [-> | [-> | [-> | ->]]]]; cbn [Z.eqb negb];
    match goal with |- context [negb ?c] => destruct (negb c) end; reflexivity.
Qed.

Lemma lock_clears_at_most_four_witness :
  reachable start_session /\ TetrisApp.game_over start_session = false /\
  exists s' cleared,
    TetrisApp.lock_piece 0 start_session = Ok s' /\
    0 <= cleared <= 4 /\
    TetrisApp.lines_cleared s' = TetrisApp.lines_cleared start_session + cleared.
Proof.
  split; [exact reachable_start_session|]. split; [reflexivity|].
  destruct (TetrisApp.lock_piece 0 start_session) as [s'|e] eqn:Hl;
    [|vm_compute in Hl; discriminate].
  destruct (@lock_clears_at_most_four 0 start_session s'
              reachable_start_session eq_refl Hl) as (cleared & Hc & Hlines & _).
  exists s', cleared. split; [reflexivity|]. split; assumption.
Defined.

(** X10. No input ever lowers the score, the number of cleared lines or
    the level of a game. *)
Theorem run_never_loses (fuel : nat) (a : action) (r : nat) (s s' : TetrisApp.t) :
  reachable s -> run fuel a r s = Some (Ok s') ->
  TetrisApp.score s <= TetrisApp.score s' /\
  TetrisApp.lines_cleared s <= TetrisApp.lines_cleared s' /\
  TetrisApp.level s <= TetrisApp.level s'.
Proof.
  intros Hreach Hrun.
  exact (proj2 (@run_play fuel a r s s' (@reachable_session_ok s Hreach)
                  (@reachable_play_ok s Hreach) Hrun)).
Qed.

Lemma run_never_loses_witness :
  reachable start_session /\
  exists s',
    run 19 HardDrop 0 start_session = Some (Ok s') /\
    TetrisApp.score start_session <= TetrisApp.score s'.
Proof.
  split; [exact reachable_start_session|].
  destruct (run 19 HardDrop 0 start_session) as [[s'|e]|] eqn:Hrun;
    [|vm_compute in Hrun; discriminate|vm_compute in Hrun; discriminate].
  exists s'. split; [reflexivity|].
  exact (proj1 (@run_never_loses 19 HardDrop 0 start_session s'
                  reachable_start_session Hrun)).
Defined.

(** X11. The keys for left, right and rotate only ever replace the current
    piece: the grid, the counters, the queued piece and the game-over flag
    are those of the session they were pressed in, and the piece keeps its
    kind, its colour and its row. They never lock and never end the
    game. *)
Theorem sideways_keys_frame (r : nat) (s : TetrisApp.t) :
  forall a s',
    (a = MoveLeft \/ a = MoveRight \/ a = Rotate) ->
    run 0 a r s = Some (Ok s') ->
    exists p,
      s' = TetrisApp.set_current_piece s p /\
      TetrisPiece.type p = TetrisPiece.type (TetrisBoard.current_piece (TetrisApp.board s)) /\
      TetrisPiece.color p = TetrisPiece.color (TetrisBoard.current_piece (TetrisApp.board s)) /\
      TetrisPiece.y p = TetrisPiece.y (TetrisBoard.current_piece (TetrisApp.board s)).
Proof.
  intros a s' Ha Hrun.
  assert (Hself : s = TetrisApp.set_current_piece s
                        (TetrisBoard.current_piece (TetrisApp.board s)))
    by (destruct s as [[w h rows piece] di sc lv lc np go]; reflexivity).
  assert (Hmove : forall dx,
             (' (self', _) <- TetrisApp.move_piece dx 0 r s ;; Ok self') = Ok s' ->
             exists p,
               s' = TetrisApp.set_current_piece s p /\
               TetrisPiece.type p
               = TetrisPiece.type (TetrisBoard.current_piece (TetrisApp.board s)) /\
               TetrisPiece.color p
               = TetrisPiece.color (TetrisBoard.current_piece (TetrisApp.board s)) /\
               TetrisPiece.y p
               = TetrisPiece.y (TetrisBoard.current_piece (TetrisApp.board s))).
  { intros dx H. apply bind_Ok in H as ([s1 m] & Hm & H). injection H as <-.
    destruct (move_piece_inv _ _ _ _ Hm) as [(_ & -> & _)|(_ & _ & [[_ ->]|[Hd _]])].
    - eexists. split; [reflexivity|]. simpl. repeat split. lia.
    - eexists. split; [exact Hself|]. auto.
    - lia. }
  destruct (TetrisApp.game_over s) eqn:Hg.
  { rewrite run_game_over in Hrun by exact Hg. injection Hrun as <-.
    eexists. split; [exact Hself|]. auto. }
  destruct Ha as [-> | [-> | ->]]; simpl in Hrun;
    unfold TetrisApp.action_move_left, TetrisApp.action_move_right,
      TetrisApp.action_rotate in Hrun;
    rewrite Hg in Hrun; cbn [negb] in Hrun; injection Hrun as Hrun.
  - now apply (Hmove (-1)).
  - now apply (Hmove 1).
  - apply bind_Ok in Hrun as ([s1 m] & Hrot & H). injection H as <-.
    unfold TetrisApp.rotate_piece in Hrot.
    apply bind_Ok in Hrot as (rotated & Hr & Hrot).
    apply bind_Ok in Hrot as (c & _ & Hrot).
    assert (Hfields : forall q q', (TetrisPiece.rotate q = Ok q' \/
                                    TetrisPiece.undo_rotate q = Ok q') ->
                       TetrisPiece.type q' = TetrisPiece.type q /\
                       TetrisPiece.color q' = TetrisPiece.color q /\
                       TetrisPiece.y q' = TetrisPiece.y q).
    { intros q q' [H|H]; unfold TetrisPiece.rotate, TetrisPiece.undo_rotate in H;
        apply bind_Ok in H as (code' & _ & H); injection H as <-; auto. }
    destruct (Hfields _ _ (or_introl Hr)) as (Ht & Hc & Hy).
    destruct c.
    + apply bind_Ok in Hrot as (restored & Hu & Hrot). injection Hrot as <- _.
      destruct (Hfields _ _ (or_intror Hu)) as (Ht' & Hc' & Hy').
      exists restored. split; [reflexivity|]. repeat split; congruence.
    + injection Hrot as <- _. exists rotated. auto.
Qed.

Lemma sideways_keys_frame_witness :
  exists s' p,
    run 0 MoveLeft 0 start_session = Some (Ok s') /\
    s' = TetrisApp.set_current_piece start_session p /\
    TetrisPiece.y p = 0.
Proof.
  destruct (run 0 MoveLeft 0 start_session) as [[s'|e]|] eqn:Hrun;
    [|vm_compute in Hrun; discriminate|vm_compute in Hrun; discriminate].
  destruct (@sideways_keys_frame 0 start_session MoveLeft s' (or_introl eq_refl) Hrun)
    as (p & Hs & _ & _ & Hy).
  exists s', p. split; [reflexivity|]. split; assumption.
Defined.

(** X12. In a running game a move to the left that is not blocked is undone
    by the move to the right, and the other way round: the session comes
    back equal. *)
Theorem left_right_round_trip (r r' : nat) (s : TetrisApp.t) :
  reachable s -> TetrisApp.game_over s = false ->
  (TetrisBoard.check_collision (TetrisApp.board (moved_by s (-1) 0)) = Ok false ->
   (s1 <- TetrisApp.action_move_left r s ;; TetrisApp.action_move_right r' s1) = Ok s) /\
  (TetrisBoard.check_collision (TetrisApp.board (moved_by s 1 0)) = Ok false ->
   (s1 <- TetrisApp.action_move_right r s ;; TetrisApp.action_move_left r' s1) = Ok s).
Proof.
  intros Hreach Hg.
  destruct (@reachable_session_ok s Hreach) as (_ & _ & _ & _ & _ & Hc).
  rewrite Hg in Hc.
  assert (Hback : forall dx,
             TetrisBoard.check_collision (TetrisApp.board (moved_by s dx 0)) = Ok false ->
             TetrisApp.move_piece dx 0 r s = Ok (moved_by s dx 0, true) /\
             TetrisApp.move_piece (- dx) 0 r' (moved_by s dx 0) = Ok (s, true)).
  { intros dx Hdx. split; [now rewrite (@move_piece_cases dx 0 r s false Hdx)|].
    assert (Hs : moved_by (moved_by s dx 0) (- dx) 0 = s).
    { rewrite moved_by_moved_by. replace (dx + - dx) with 0 by lia. apply moved_by_0. }
    rewrite (@move_piece_cases (- dx) 0 r' (moved_by s dx 0) false);
      rewrite Hs; [reflexivity | exact Hc]. }
  unfold TetrisApp.action_move_left, TetrisApp.action_move_right. rewrite Hg. cbn [negb].
  split; intros Hfree; destruct (Hback _ Hfree) as [H1 H2];
    rewrite H1; cbn [bind];
    change (TetrisApp.game_over (moved_by s _ 0)) with (TetrisApp.game_over s);
    rewrite Hg; cbn [negb].
  - cbn [Z.opp] in H2. rewrite H2. reflexivity.
  - cbn [Z.opp] in H2. rewrite H2. reflexivity.
Qed.

Lemma left_right_round_trip_witness :
  reachable start_session /\ TetrisApp.game_over start_session = false /\
  TetrisBoard.check_collision (TetrisApp.board (moved_by start_session (-1) 0)) = Ok false /\
  (s1 <- TetrisApp.action_move_left 0 start_session ;; TetrisApp.action_move_right 0 s1)
  = Ok start_session.
Proof.
  split; [exact reachable_start_session|]. split; [reflexivity|]. split; [reflexivity|].
  apply (@left_right_round_trip 0 0 start_session reachable_start_session eq_refl).
  reflexivity.
Defined.

Lemma press_down_snoc (r : nat) (k : nat) :
  forall s, press_down (S k) r s
            = (s1 <- press_down k r s ;; TetrisApp.action_move_down r s1).
Proof.
  induction k as [|k IH]; intros s.
  - simpl. now destruct (TetrisApp.action_move_down r s).
  - change (press_down (S (S k)) r s)
      with (s1 <- TetrisApp.action_move_down r s ;; press_down (S k) r s1).
    change (press_down (S k) r s)
      with (s1 <- TetrisApp.action_move_down r s ;; press_down k r s1).
    destruct (TetrisApp.action_move_down r s) as [s1|e]; [|reflexivity].
    cbn [bind]. apply IH.
Qed.

Lemma press_down_lowered (r : nat) (s : TetrisApp.t) (n : nat) :
  TetrisApp.game_over s = false ->
  (forall k, (k < n)%nat ->
     TetrisApp.move_piece 0 1 r (lowered s k) = Ok (lowered s (S k), true)) ->
  forall k, (k <= n)%nat -> press_down k r s = Ok (lowered s k).
Proof.
  intros Hg Hsteps k. induction k as [|k IH]; intros Hk.
  - simpl. now rewrite lowered_0.
  - rewrite press_down_snoc, IH by lia. cbn [bind].
    unfold TetrisApp.action_move_down.
    change (TetrisApp.game_over (lowered s k)) with (TetrisApp.game_over s).
    rewrite Hg. cbn [negb]. rewrite Hsteps by lia. reflexivity.
Qed.

(** X13. The hard drop is the down key held to completion: from a running
    game whose piece does not collide there is a number [n] of free rows
    under the piece such that [n] presses of the down key lower the piece by
    [n] rows, one more press gives the very session the hard drop gives, and
    the piece locks where it can no longer descend: it is free where it
    locks, and one row lower it would hit the floor or a locked block. *)
Theorem hard_drop_is_repeated_down (r : nat) (s : TetrisApp.t) :
  reachable s ->
  TetrisApp.game_over s = false ->
  exists (n : nat) (locked : TetrisApp.t),
    press_down n r s = Ok (lowered s n) /\
    press_down (S n) r s = Ok locked /\
    TetrisBoard.check_collision (TetrisApp.board (lowered s n)) = Ok false /\
    TetrisBoard.check_collision (TetrisApp.board (lowered s (S n))) = Ok true /\
    forall fuel, (n < fuel)%nat ->
      TetrisApp.action_hard_drop fuel r s = Some (Ok locked).
Proof.
  intros Hreach Hg. pose proof (@reachable_session_ok s Hreach) as Hok.
  pose proof (@running_above_floor s Hok Hg) as Hfloor.
  destruct (@hard_drop_loop_descends r
              (Z.to_nat (TetrisBoard.board_height (TetrisApp.board s)
                         - TetrisPiece.y (TetrisBoard.current_piece (TetrisApp.board s))))
              s Hok Hg)
    as (n & b & locked & Hn & Hsteps & Hlast & Hlb & Hl & _ & _ & Hfuel); [lia|].
  pose proof (@press_down_lowered r s n Hg Hsteps) as Hpress.
  exists n, locked.
  split; [apply Hpress; lia|].
  split.
  { rewrite press_down_snoc, Hpress by lia. cbn [bind].
    unfold TetrisApp.action_move_down.
    change (TetrisApp.game_over (lowered s n)) with (TetrisApp.game_over s).
    rewrite Hg. cbn [negb]. rewrite Hlast. reflexivity. }
  split.
  { destruct n as [|n].
    - rewrite lowered_0. destruct Hok as (_ & _ & _ & _ & _ & Hc).
      rewrite Hg in Hc. exact Hc.
    - destruct (move_piece_inv _ _ _ _ (Hsteps n ltac:(lia)))
        as [(_ & _ & Hfree)|(Hf & _)]; [|discriminate].
      unfold lowered in *. rewrite moved_by_moved_by in Hfree.
      replace (0 + 0) with 0 in Hfree by lia.
      replace (Z.of_nat n + 1) with (Z.of_nat (S n)) in Hfree by lia. exact Hfree. }
  split.
  { destruct (move_piece_inv _ _ _ _ Hlast) as [(Hf & _)|(_ & Hcol & _)]; [discriminate|].
    unfold lowered in *. rewrite moved_by_moved_by in Hcol.
    replace (0 + 0) with 0 in Hcol by lia.
    replace (Z.of_nat n + 1) with (Z.of_nat (S n)) in Hcol by lia. exact Hcol. }
  intros fuel Hf. unfold TetrisApp.action_hard_drop. rewrite Hg. cbn [negb].
  apply Hfuel. exact Hf.
Qed.

Lemma hard_drop_is_repeated_down_witness :
  reachable start_session /\ TetrisApp.game_over start_session = false /\
  exists (n : nat) (locked : TetrisApp.t),
    press_down (S n) 0 start_session = Ok locked /\
    TetrisApp.action_hard_drop (S n) 0 start_session = Some (Ok locked).
Proof.
  split; [exact reachable_start_session|]. split; [reflexivity|].
  destruct (@hard_drop_is_repeated_down 0 start_session reachable_start_session eq_refl)
    as (n & locked & _ & Hpress & _ & _ & Hfuel).
  exists n, locked. split; [exact Hpress|]. apply Hfuel. apply Nat.lt_succ_diag_r.
Defined.

(* ================================================================== *)
(** * [textris2.py]: rejected attempts, and rotation read as a deque *)
(* ================================================================== *)

(** X14. In [textris2.py] a rotation that [rotate_piece] rejects, and a move
    to the side or upwards that [move_piece] rejects, give back the very
    session they were given: the rotation index is the one stored before the
    attempt, whatever its value, and the piece is back at its place. *)
Theorem textris2_rejection_restores (r : nat) (s s' : Textris2.TetrisApp.t) (dx dy : Z) :
  Textris2.TetrisApp.rotate_piece s = Ok (s', false) \/
  (dy <= 0 /\ Textris2.TetrisApp.move_piece dx dy r s = Ok (s', false)) ->
  s' = s.
Proof.
  destruct s as [[w h rows [ty col cs rot x y]] di sc lv lc np].
  intros [H | [Hdy H]].
  - unfold Textris2.TetrisApp.rotate_piece in H. cbv zeta in H.
    apply bind_Ok in H as (rotated & Hr & H).
    apply bind_Ok in H as (c & _ & H).
    unfold Textris2.TetrisPiece.rotate in Hr.
    apply bind_Ok in Hr as (rot' & _ & Hr). injection Hr as <-.
    destruct c; [|discriminate]. injection H as <-. reflexivity.
  - unfold Textris2.TetrisApp.move_piece in H. cbv beta iota zeta in H.
    apply bind_Ok in H as (c & _ & H).
    destruct c; [|discriminate].
    replace (dy >? 0) with false in H by (symmetry; rewrite Z.gtb_ltb; apply Z.ltb_ge; lia).
    injection H as <-. reflexivity.
Qed.

Lemma textris2_rejection_restores_witness :
  Textris2.TetrisApp.rotate_piece wall_session2 = Ok (wall_session2, false).
Proof.
  destruct (Textris2.TetrisApp.rotate_piece wall_session2) as [[s' [|]]|e] eqn:H;
    [vm_compute in H; discriminate | | vm_compute in H; discriminate].
  rewrite (@textris2_rejection_restores 0 wall_session2 s' 0 0 (or_introl H)).
  reflexivity.
Defined.

(** X15. The rotation index of [textris2.py] and the deque of [textris.py]
    turn alike: reading a piece of [textris2.py] as a piece of [textris.py]
    and rotating it there gives the piece that rotating in [textris2.py] and
    reading the result gives, for every rotation index, negative or beyond
    the number of codes included. *)
Theorem variant_rotate (p : Textris2.TetrisPiece.t) :
  Textris2.TetrisPiece.codes p <> [] ->
  result_map as_piece (Textris2.TetrisPiece.rotate p) = TetrisPiece.rotate (as_piece p).
Proof.
  destruct p as [ty col l rot x y]. cbn [Textris2.TetrisPiece.codes]. intros Hne.
  assert (Hlen : (0 < List.length l)%nat) by (destruct l; [congruence | simpl; lia]).
  unfold Textris2.TetrisPiece.rotate, TetrisPiece.rotate, modulo, as_piece.
  cbn [Textris2.TetrisPiece.codes Textris2.TetrisPiece.rotation TetrisPiece.codes
       Textris2.TetrisPiece.type Textris2.TetrisPiece.color
       Textris2.TetrisPiece.x Textris2.TetrisPiece.y].
  set (n := Z.of_nat (List.length l)).
  assert (Hn : 0 < n) by (unfold n; lia).
  replace (n =? 0) with false by (symmetry; apply Z.eqb_neq; lia).
  cbn [bind result_map Textris2.TetrisPiece.set_rotation
       Textris2.TetrisPiece.codes Textris2.TetrisPiece.rotation
       Textris2.TetrisPiece.type Textris2.TetrisPiece.color
       Textris2.TetrisPiece.x Textris2.TetrisPiece.y].
  rewrite Z.mod_mod by lia.
  set (k := Z.to_nat (rot mod n)).
  set (k' := Z.to_nat ((rot + 1) mod n)).
  pose proof (Z.mod_pos_bound rot n Hn) as Hk.
  pose proof (Z.mod_pos_bound (rot + 1) n Hn) as Hk'.
  assert (Hkn : (k < List.length l)%nat) by (unfold k, n in *; lia).
  assert (Hkn' : (k' < List.length l)%nat) by (unfold k', n in *; lia).
  change (deque_rotate (Nat.iter k rotate_left l) (-1))
    with (Nat.iter (S k) rotate_left l).
  assert (Hturn : Nat.iter (S k) rotate_left l = Nat.iter k' rotate_left l).
  { rewrite !iter_rotate_left_split by lia.
    destruct (Z.eq_dec (rot mod n + 1) n) as [Hwrap | Hnowrap].
    - assert (Hk0 : k' = 0%nat).
      { unfold k'. rewrite <- Z.add_mod_idemp_l by lia. rewrite Hwrap.
        rewrite Z.mod_same by lia. reflexivity. }
      assert (HSk : S k = List.length l) by (unfold k, n in *; lia).
      rewrite Hk0, HSk, skipn_all, firstn_all. simpl. now rewrite app_nil_r.
    - assert (Hk1 : k' = S k).
      { unfold k', k. rewrite <- Z.add_mod_idemp_l by lia.
        rewrite (Z.mod_small (rot mod n + 1)) by lia. lia. }
      now rewrite Hk1. }
  rewrite Hturn.
  change (Z.to_nat ((rot + 1) mod Z.of_nat (List.length l))) with k'.
  rewrite iter_rotate_left_split by lia.
  destruct (skipn k' l) as [|a rest] eqn:Hs.
  { apply (f_equal (@List.length string)) in Hs. rewrite length_skipn in Hs.
    simpl in Hs. lia. }
  cbn [app]. rewrite getitem_0. cbn [bind]. unfold TetrisPiece.set_codes.
  cbn [TetrisPiece.type TetrisPiece.color TetrisPiece.x TetrisPiece.y].
  f_equal. f_equal.
  rewrite <- (firstn_skipn k' l) at 1. rewrite app_nth2; rewrite length_firstn.
  - replace (k' - Nat.min k' (List.length l))%nat with 0%nat by lia. now rewrite Hs.
  - lia.
Qed.

Lemma variant_rotate_witness :
  result_map as_piece
    (Textris2.TetrisPiece.rotate (Textris2.TetrisBoard.current_piece
                                    (Textris2.TetrisApp.board wall_session2)))
  = TetrisPiece.rotate (as_piece (Textris2.TetrisBoard.current_piece
                                    (Textris2.TetrisApp.board wall_session2))).
Proof.
  apply variant_rotate. discriminate.
Defined.

(* ================================================================== *)
(** * What the board shows, and the preview matrix *)
(* ================================================================== *)

Lemma display_loop_lock_loop (cells : list (Z * Z)) :
  forall (b : TetrisBoard.t) (rows : list (list cell)),
    display_loop b rows cells
    = result_map TetrisBoard.board
        (TetrisBoard.lock_loop (TetrisBoard.set_board b rows) cells).
Proof.
  induction cells as [|[x y] rest IH]; intros b rows; [reflexivity|].
  cbn [display_loop TetrisBoard.lock_loop].
  cbn [TetrisBoard.set_board TetrisBoard.board_width TetrisBoard.board_height
       TetrisBoard.board TetrisBoard.current_piece].
  destruct ((0 <=? x) && (x <? TetrisBoard.board_width b) && (0 <=? y)
            && (y <? TetrisBoard.board_height b)).
  - destruct (getitem rows y) as [row|e]; [|reflexivity]. cbn [bind].
    destruct (setitem row x _) as [row'|e]; [|reflexivity]. cbn [bind].
    destruct (setitem rows y row') as [rows'|e]; [|reflexivity]. cbn [bind].
    rewrite IH. reflexivity.
  - apply IH.
Qed.

(** X16. The picture [render_board] draws is the grid [lock_piece] would
    write: on every board the copy with the piece drawn on it is the grid
    after the writing loop of [lock_piece], errors included. On a rectangular
    board it is drawn without error, has the dimensions of the grid, shows the
    colour of the piece at each block of the piece inside the grid and the
    grid's own cell everywhere else; rows above the top are not drawn. *)
Theorem display_board_spec (b : TetrisBoard.t) :
  display_board b = result_map TetrisBoard.board (TetrisBoard.lock_blocks b) /\
  forall cells,
    rect b ->
    TetrisPiece.blocks (TetrisBoard.current_piece b) = Ok cells ->
    exists rows,
      display_board b = Ok rows /\
      Z.of_nat (List.length rows) = TetrisBoard.board_height b /\
      Forall (fun row => Z.of_nat (List.length row) = TetrisBoard.board_width b) rows /\
      forall x y,
        cell_at rows x y
        = if existsb (coord_eqb (x, y)) cells && in_gridb b x y
          then Some (Color (TetrisPiece.color (TetrisBoard.current_piece b)))
          else cell_at (TetrisBoard.board b) x y.
Proof.
  assert (Heq : display_board b
                = result_map TetrisBoard.board (TetrisBoard.lock_blocks b)).
  { unfold display_board, TetrisBoard.lock_blocks.
    destruct (TetrisPiece.blocks (TetrisBoard.current_piece b)) as [cells|e];
      [|reflexivity].
    cbn [bind]. rewrite display_loop_lock_loop. now destruct b. }
  split; [exact Heq|]. intros cells Hr Hb.
  destruct (@lock_loop_spec cells b Hr) as (b' & Hl & [Hh Hw] & Hw' & Hh' & _ & Hcells).
  exists (TetrisBoard.board b'). rewrite Heq. unfold TetrisBoard.lock_blocks.
  rewrite Hb. cbn [bind]. rewrite Hl. cbn [result_map].
  split; [reflexivity|]. split; [congruence|]. split; [now rewrite <- Hw'|].
  exact Hcells.
Qed.

Lemma display_board_spec_witness :
  exists rows,
    display_board (TetrisApp.board start_session) = Ok rows /\
    cell_at rows 4 1 = Some (Color "cyan") /\ cell_at rows 4 0 = Some Zero.
Proof.
  destruct (proj2 (display_board_spec (TetrisApp.board start_session))
              [(4, 1); (5, 1); (6, 1); (7, 1)])
    as (rows & Hd & _ & _ & Hcells).
  - split; [reflexivity|]. vm_compute. repeat constructor.
  - reflexivity.
  - exists rows. split; [exact Hd|]. rewrite !Hcells. split; reflexivity.
Defined.

Lemma max_of_spec (seq : list Z) :
  seq <> [] ->
  exists m, max_of seq = Ok m /\ In m seq /\ forall a, In a seq -> a <= m.
Proof.
  destruct seq as [|a rest]; [congruence|]. intros _. unfold max_of.
  eexists. split; [reflexivity|]. revert a.
  induction rest as [|b rest IH]; intros a; simpl.
  - split; [auto|]. intros c [<-|[]]. lia.
  - destruct (IH (Z.max a b)) as [Hin Hle]. split.
    + destruct Hin as [Hin|Hin]; [|auto].
      destruct (Z.max_spec a b) as [[_ Hm]|[_ Hm]]; rewrite Hm in Hin |- *; auto.
    + intros c [Hc|[Hc|Hc]].
      * specialize (Hle (Z.max a b) (or_introl eq_refl)). lia.
      * specialize (Hle (Z.max a b) (or_introl eq_refl)). lia.
      * apply Hle. now right.
Qed.

Lemma entry_at_replace {A : Type} (rows : list (list A)) (row : list A) (c : A)
      (x y x' y' : Z) :
  nth_error rows (Z.to_nat y) = Some row ->
  0 <= y -> 0 <= x < Z.of_nat (List.length row) ->
  entry_at (replace_nth (Z.to_nat y) rows (replace_nth (Z.to_nat x) row c)) x' y'
  = if coord_eqb (x', y') (x, y) then Some c else entry_at rows x' y'.
Proof.
  intros Hrow Hy Hx. unfold entry_at, coord_eqb; simpl.
  destruct (x' <? 0) eqn:Hx'; simpl.
  { apply Z.ltb_lt in Hx'. replace (x' =? x) with false by (symmetry; apply Z.eqb_neq; lia).
    reflexivity. }
  destruct (y' <? 0) eqn:Hy'; simpl.
  { apply Z.ltb_lt in Hy'. replace (y' =? y) with false by (symmetry; apply Z.eqb_neq; lia).
    now rewrite andb_false_r. }
  apply Z.ltb_ge in Hx', Hy'.
  assert (Hlt : (Z.to_nat y < List.length rows)%nat)
    by (apply nth_error_Some; congruence).
  destruct (Z.eqb_spec y' y) as [->|Hne].
  - rewrite nth_error_replace_nth_eq by exact Hlt.
    destruct (Z.eqb_spec x' x) as [->|Hnx]; simpl.
    + apply nth_error_replace_nth_eq. lia.
    + rewrite Hrow. apply nth_error_replace_nth_ne. lia.
  - rewrite andb_false_r. rewrite nth_error_replace_nth_ne by lia. reflexivity.
Qed.

Lemma matrix_loop_spec (w h : Z) (coords : list (Z * Z)) :
  Forall (fun xy => 0 <= fst xy < w /\ 0 <= snd xy < h) coords ->
  forall matrix,
    Z.of_nat (List.length matrix) = h ->
    Forall (fun row => Z.of_nat (List.length row) = w) matrix ->
    exists matrix',
      matrix_loop matrix coords = Ok matrix' /\
      Z.of_nat (List.length matrix') = h /\
      Forall (fun row => Z.of_nat (List.length row) = w) matrix' /\
      forall x y,
        entry_at matrix' x y
        = if existsb (coord_eqb (x, y)) coords then Some 1 else entry_at matrix x y.
Proof.
  induction 1 as [|[x0 y0] rest [Hx0 Hy0] _ IH]; intros matrix Hh Hw.
  - exists matrix. repeat split; auto.
  - cbn [fst snd] in Hx0, Hy0. cbn [matrix_loop].
    destruct (@getitem_inside _ matrix y0) as (row & Hg & Hn); [lia|].
    rewrite Hg. cbn [bind].
    assert (Hrow : Z.of_nat (List.length row) = w).
    { apply nth_error_In in Hn. rewrite Forall_forall in Hw. now apply Hw. }
    rewrite setitem_inside by lia. cbn [bind].
    rewrite setitem_inside by lia. cbn [bind].
    destruct (IH (replace_nth (Z.to_nat y0) matrix (replace_nth (Z.to_nat x0) row 1)))
      as (matrix' & Hl & Hh' & Hw' & Hcells).
    + now rewrite replace_nth_length.
    + apply Forall_replace_nth; [exact Hw|]. now rewrite replace_nth_length.
    + exists matrix'. split; [exact Hl|]. split; [exact Hh'|]. split; [exact Hw'|].
      intros x y. rewrite Hcells. cbn [existsb].
      rewrite (@entry_at_replace Z matrix row 1 x0 y0 x y Hn) by lia.
      destruct (coord_eqb (x, y) (x0, y0)); cbn [orb];
        destruct (existsb (coord_eqb (x, y)) rest); reflexivity.
Qed.

(** X17. [coords_to_matrix] on a non-empty list of coordinates, none
    negative, returns the smallest matrix that holds them: as many rows as
    the largest [y] plus one, each as long as the largest [x] plus one, with
    [1] exactly at the listed coordinates and [0] elsewhere. *)
Theorem coords_to_matrix_spec (coords : list (Z * Z)) :
  coords <> [] ->
  Forall (fun xy => 0 <= fst xy /\ 0 <= snd xy) coords ->
  exists matrix max_x max_y,
    coords_to_matrix coords = Ok matrix /\
    In max_x (map fst coords) /\ (forall xy, In xy coords -> fst xy <= max_x) /\
    In max_y (map snd coords) /\ (forall xy, In xy coords -> snd xy <= max_y) /\
    Z.of_nat (List.length matrix) = max_y + 1 /\
    Forall (fun row => Z.of_nat (List.length row) = max_x + 1) matrix /\
    forall x y,
      0 <= x <= max_x -> 0 <= y <= max_y ->
      entry_at matrix x y
      = Some (if existsb (coord_eqb (x, y)) coords then 1 else 0).
Proof.
  intros Hne Hpos.
  destruct (@max_of_spec (map fst coords)) as (max_x & Hmx & Hinx & Hlex).
  { destruct coords; [congruence | discriminate]. }
  destruct (@max_of_spec (map snd coords)) as (max_y & Hmy & Hiny & Hley).
  { destruct coords; [congruence | discriminate]. }
  assert (Hx : forall xy, In xy coords -> fst xy <= max_x)
    by (intros xy Hin; apply Hlex; now apply in_map).
  assert (Hy : forall xy, In xy coords -> snd xy <= max_y)
    by (intros xy Hin; apply Hley; now apply in_map).
  assert (Hx0 : 0 <= max_x).
  { apply in_map_iff in Hinx as (xy & <- & Hin).
    rewrite Forall_forall in Hpos. now apply Hpos. }
  assert (Hy0 : 0 <= max_y).
  { apply in_map_iff in Hiny as (xy & <- & Hin).
    rewrite Forall_forall in Hpos. now apply Hpos. }
  unfold coords_to_matrix. rewrite Hmx, Hmy. cbn [bind]. cbv zeta.
  set (matrix := repeat (repeat 0 (range_len (max_x + 1))) (range_len (max_y + 1))).
  destruct (@matrix_loop_spec (max_x + 1) (max_y + 1) coords) with (matrix := matrix)
    as (matrix' & Hl & Hh & Hw & Hcells).
  - rewrite Forall_forall in *. intros xy Hin.
    specialize (Hpos xy Hin). specialize (Hx xy Hin). specialize (Hy xy Hin). lia.
  - unfold matrix, range_len. rewrite repeat_length. lia.
  - unfold matrix, range_len. apply Forall_forall. intros row Hin.
    apply repeat_spec in Hin. subst row. rewrite repeat_length. lia.
  - exists matrix', max_x, max_y. repeat (split; [assumption|]).
    intros x y Hxr Hyr. rewrite Hcells.
    destruct (existsb (coord_eqb (x, y)) coords); [reflexivity|].
    unfold entry_at, matrix, range_len.
    replace ((x <? 0) || (y <? 0)) with false
      by (symmetry; apply orb_false_iff; split; apply Z.ltb_ge; lia).
    rewrite nth_error_repeat by lia. rewrite nth_error_repeat by lia. reflexivity.
Qed.

Lemma coords_to_matrix_spec_witness :
  exists matrix,
    coords_to_matrix [(1, 0); (0, 1); (1, 1); (2, 1)] = Ok matrix /\
    Z.of_nat (List.length matrix) = 2 /\
    entry_at matrix 0 0 = Some 0 /\ entry_at matrix 1 0 = Some 1.
Proof.
  destruct (@coords_to_matrix_spec [(1, 0); (0, 1); (1, 1); (2, 1)])
    as (matrix & max_x & max_y & Hm & _ & _ & _ & _ & _ & _ & _).
  - discriminate.
  - repeat constructor; simpl; lia.
  - exists matrix. split; [exact Hm|]. vm_compute in Hm. injection Hm as <-.
    repeat split.
Defined.

(* ================================================================== *)
(** * Blocks are conserved *)
(* ================================================================== *)

Lemma filter_nonzero_replace_nth (n : nat) (row : list cell) (c : string) :
  nth_error row n = Some Zero ->
  List.length (filter nonzero (replace_nth n row (Color c)))
  = S (List.length (filter nonzero row)).
Proof.
  revert n. induction row as [|h t IH]; intros [|n] H; simpl in *; try discriminate.
  - injection H as ->. reflexivity.
  - destruct (nonzero h); simpl; rewrite (IH n H); reflexivity.
Qed.

Lemma count_blocks_replace_nth (n : nat) (rows : list (list cell)) (row row' : list cell) :
  nth_error rows n = Some row ->
  (count_blocks (replace_nth n rows row') + List.length (filter nonzero row)
   = count_blocks rows + List.length (filter nonzero row'))%nat.
Proof.
  unfold count_blocks.
  revert n. induction rows as [|h t IH]; intros [|n] H; simpl in *; try discriminate.
  - injection H as ->. lia.
  - specialize (IH n H). lia.
Qed.

Lemma lock_loop_count_blocks (cells : list (Z * Z)) :
  NoDup cells ->
  forall b b',
    rect b ->
    Forall (fun xy => in_grid b (fst xy) (snd xy) /\
                      cell_at (TetrisBoard.board b) (fst xy) (snd xy) = Some Zero) cells ->
    TetrisBoard.lock_loop b cells = Ok b' ->
    count_blocks (TetrisBoard.board b')
    = (count_blocks (TetrisBoard.board b) + List.length cells)%nat.
Proof.
  induction 1 as [|[x y] rest Hnotin _ IH]; intros b b' Hr Hfree Hl.
  - injection Hl as <-. simpl. lia.
  - inversion Hfree as [|? ? [Hin Hzero] Hrest]; subst. cbn [fst snd] in Hin, Hzero.
    cbn [TetrisBoard.lock_loop] in Hl. fold (in_gridb b x y) in Hl.
    rewrite (proj2 (in_gridb_iff b x y) Hin) in Hl.
    destruct Hin as [Hx Hy].
    destruct (@cell_at_inside b x y Hr Hx Hy) as (row & c & Hg & _ & Hn & Hlen & Hc).
    rewrite Hzero in Hc. injection Hc as <-.
    rewrite Hg in Hl. cbn [bind] in Hl.
    rewrite setitem_inside in Hl by lia. cbn [bind] in Hl.
    pose proof Hr as [Hh Hw].
    rewrite setitem_inside in Hl by lia. cbn [bind] in Hl.
    set (colour := TetrisPiece.color (TetrisBoard.current_piece b)) in *.
    set (rows' := replace_nth (Z.to_nat y) (TetrisBoard.board b)
                    (replace_nth (Z.to_nat x) row (Color colour))) in *.
    assert (Hrow0 : nth_error row (Z.to_nat x) = Some Zero).
    { unfold cell_at in Hzero.
      replace ((x <? 0) || (y <? 0)) with false in Hzero
        by (symmetry; apply orb_false_iff; split; apply Z.ltb_ge; lia).
      now rewrite Hn in Hzero. }
    rewrite (IH (TetrisBoard.set_board b rows') b'); [| | |exact Hl].
    + cbn [TetrisBoard.set_board TetrisBoard.board]. unfold rows'.
      pose proof (@count_blocks_replace_nth (Z.to_nat y) (TetrisBoard.board b) row
                    (replace_nth (Z.to_nat x) row (Color colour)) Hn) as Hcount.
      rewrite (@filter_nonzero_replace_nth (Z.to_nat x) row colour Hrow0) in Hcount.
      simpl List.length. lia.
    + split; cbn [TetrisBoard.set_board TetrisBoard.board TetrisBoard.board_height
                  TetrisBoard.board_width]; unfold rows'.
      * now rewrite replace_nth_length.
      * apply Forall_replace_nth; [exact Hw|]. now rewrite replace_nth_length.
    + rewrite Forall_forall in *. intros [x' y'] Hin'.
      destruct (Hrest _ Hin') as [Hg' Hz']. cbn [fst snd] in *.
      split; [exact Hg'|].
      cbn [TetrisBoard.set_board TetrisBoard.board]. unfold rows'.
      rewrite (@cell_at_replace (TetrisBoard.board b) row (Color colour) x y x' y' Hn)
        by lia.
      destruct (coord_eqb (x', y') (x, y)) eqn:Heq; [|exact Hz'].
      unfold coord_eqb in Heq. cbn [fst snd] in Heq.
      apply andb_true_iff in Heq as [Hex Hey].
      apply Z.eqb_eq in Hex, Hey. subst. contradiction.
Qed.

Lemma count_blocks_app (rows rows' : list (list cell)) :
  count_blocks (rows ++ rows') = (count_blocks rows + count_blocks rows')%nat.
Proof.
  unfold count_blocks. induction rows as [|h t IH]; simpl; [reflexivity|].
  rewrite IH. lia.
Qed.

Lemma count_blocks_empty_rows (width n : Z) :
  count_blocks (TetrisBoard.empty_rows width n) = 0%nat.
Proof.
  unfold TetrisBoard.empty_rows, count_blocks.
  assert (Hrow : filter nonzero (repeat Zero (range_len width)) = []).
  { induction (range_len width) as [|j IHj]; simpl; auto. }
  induction (range_len n) as [|k IH]; simpl; [reflexivity|].
  rewrite IH, Hrow. reflexivity.
Qed.

Lemma clear_full_lines_count_blocks (b : TetrisBoard.t) :
  rect b -> tags_ok b ->
  (count_blocks (TetrisBoard.board (fst (TetrisBoard._clear_full_lines b)))
   + Z.to_nat (TetrisBoard.board_width b) * count_full (TetrisBoard.board b)
   = count_blocks (TetrisBoard.board b))%nat.
Proof.
  intros [_ Hw] Ht.
  assert (Hkept : (count_blocks (filter (fun row => negb (TetrisBoard.all row))
                                        (TetrisBoard.board b))
                   + Z.to_nat (TetrisBoard.board_width b)
                     * count_full (TetrisBoard.board b)
                   = count_blocks (TetrisBoard.board b))%nat).
  { unfold tags_ok in Ht. unfold count_full, count_blocks.
    induction (TetrisBoard.board b) as [|row rows IH]; [simpl; lia|].
    inversion Hw as [|? ? Hrow Hw']; subst. inversion Ht as [|? ? Htr Ht']; subst.
    specialize (IH Hw' Ht'). cbn [filter].
    destruct (TetrisBoard.all row) eqn:Hall; cbn [negb map list_sum List.length].
    - rewrite (@all_full_row row Htr) in Hall. unfold full_row in Hall.
      assert (Hfull : filter nonzero row = row).
      { clear - Hall. induction row as [|c row IHr]; [reflexivity|].
        simpl in *. apply andb_true_iff in Hall as [Hc Hall].
        rewrite Hc. f_equal. now apply IHr. }
      rewrite Hfull.
      assert (Hlenrow : List.length row = Z.to_nat (TetrisBoard.board_width b)) by lia.
      unfold list_sum in *. cbn [fold_right]. rewrite Nat.mul_succ_r. lia.
    - unfold list_sum in *. cbn [fold_right]. lia. }
  unfold TetrisBoard._clear_full_lines. cbv zeta.
  destruct (negb (_ =? 0)); cbn [fst TetrisBoard.set_board TetrisBoard.board].
  - rewrite count_blocks_app, count_blocks_empty_rows. exact Hkept.
  - exact Hkept.
Qed.

Lemma NoDup_map_injective {A B : Type} (f : A -> B) (l : list A) :
  (forall a a', f a = f a' -> a = a') -> NoDup l -> NoDup (map f l).
Proof.
  intros Hinj. induction 1 as [|a l Hnotin _ IH]; simpl; constructor; [|exact IH].
  intros Hin. apply in_map_iff in Hin as (a' & Heq & Hin).
  apply Hinj in Heq. now subst.
Qed.

Lemma running_blocks_free (s : TetrisApp.t) :
  session_ok s -> TetrisApp.game_over s = false ->
  exists cells,
    TetrisPiece.blocks (TetrisBoard.current_piece (TetrisApp.board s)) = Ok cells /\
    List.length cells = 4%nat /\ NoDup cells /\
    Forall (fun xy => in_grid (TetrisApp.board s) (fst xy) (snd xy) /\
                      cell_at (TetrisBoard.board (TetrisApp.board s)) (fst xy) (snd xy)
                      = Some Zero) cells.
Proof.
  intros (Hr & Hp & _ & Hy0 & _ & Hc) Hg. rewrite Hg in Hc.
  destruct (@piece_ok_blocks _ Hp) as (coords & (Hlen & Hnd & Hframe) & Hb).
  eexists. split; [exact Hb|]. split; [now rewrite length_map|]. split.
  { apply NoDup_map_injective; [|exact Hnd].
    intros [x1 y1] [x2 y2] H. injection H as H1 H2. f_equal; lia. }
  unfold TetrisBoard.check_collision in Hc. rewrite Hb in Hc; cbn [bind] in Hc.
  rewrite check_collision_loop_existsb in Hc by exact Hr. injection Hc as Hc.
  apply Forall_forall. intros [x y] Hin.
  assert (Hno : block_collidesb (TetrisApp.board s) (x, y) = false).
  { apply not_true_iff_false. intros H. apply not_true_iff_false in Hc. apply Hc.
    apply existsb_exists. eauto. }
  apply in_map_iff in Hin as ([px py] & Heq & Hin). injection Heq as <- <-.
  rewrite Forall_forall in Hframe. destruct (Hframe _ Hin) as [_ Hpy]. cbn [snd] in Hpy.
  unfold block_collidesb in Hno; cbn [fst snd] in Hno.
  apply orb_false_iff in Hno as [Hno Hocc]. apply orb_false_iff in Hno as [Hno Hy].
  apply orb_false_iff in Hno as [Hx0 Hx1].
  rewrite Z.ltb_ge in Hx0. rewrite Z.geb_leb, Z.leb_gt in Hx1, Hy.
  cbn [fst snd]. split; [unfold in_grid; lia|].
  destruct (@cell_at_inside (TetrisApp.board s) _ _ Hr (conj Hx0 Hx1)
              (conj (ltac:(lia) : 0 <= TetrisPiece.y
                                         (TetrisBoard.current_piece (TetrisApp.board s)) + py)
                    Hy))
    as (row & c & _ & _ & _ & _ & Hcell).
  replace (_ >=? 0) with true in Hocc by (symmetry; apply Z.geb_le; lia).
  unfold occupied in Hocc. rewrite Hcell in Hocc. cbn [andb] in Hocc.
  rewrite Hcell. destruct c; [reflexivity | discriminate].
Qed.

(** X18. Blocks are conserved: locking the piece of a running game adds its
    four blocks to the grid and every cleared row takes ten away, so the
    number of locked blocks after the lock is the number before plus
    [4 - 10 * cleared], where [cleared] is what is added to the line
    count. *)
Theorem lock_conserves_blocks (r : nat) (s s' : TetrisApp.t) :
  reachable s -> TetrisApp.game_over s = false ->
  TetrisApp.lock_piece r s = Ok s' ->
  exists cleared,
    TetrisApp.lines_cleared s' = TetrisApp.lines_cleared s + cleared /\
    Z.of_nat (count_blocks (TetrisBoard.board (TetrisApp.board s')))
    = Z.of_nat (count_blocks (TetrisBoard.board (TetrisApp.board s))) + 4 - 10 * cleared.
Proof.
  intros Hreach Hg Hlock.
  pose proof (@reachable_session_ok s Hreach) as Hok.
  pose proof (@reachable_play_ok s Hreach) as Hplay.
  destruct (@lock_piece_play r s s' Hok Hg Hplay Hlock)
    as (_ & _ & _ & b & Hlb & _ & Hlines).
  destruct (@lock_piece_ok r s Hok Hg) as (b0 & s0 & Hlb0 & Hlock0 & _ & Hrows).
  assert (b0 = b) by congruence. assert (s0 = s') by congruence. subst b0 s0.
  exists (snd (TetrisBoard._clear_full_lines b)). split; [exact Hlines|].
  destruct (@running_blocks_free s Hok Hg) as (cells & Hcells & Hlen & Hnd & Hfree).
  pose proof Hok as (Hr & _).
  destruct Hplay as (Hw & _ & _ & _ & _ & _ & Htags & Hcol & _).
  unfold TetrisBoard.lock_blocks in Hlb. rewrite Hcells in Hlb. cbn [bind] in Hlb.
  destruct (@lock_loop_spec cells (TetrisApp.board s) Hr)
    as (b1 & Hl1 & Hr1 & Hw1 & _).
  assert (b1 = b) by congruence. subst b1.
  pose proof (@lock_loop_count_blocks cells Hnd (TetrisApp.board s) b Hr Hfree Hlb)
    as Hadd.
  pose proof (@lock_loop_tags cells (TetrisApp.board s) b Htags Hcol Hlb) as Htags1.
  pose proof (@clear_full_lines_count_blocks b Hr1 Htags1) as Hclr.
  rewrite (@clear_full_lines_count b Hr1).
  rewrite Hrows. rewrite Hw1, Hw in Hclr. lia.
Qed.

Lemma lock_conserves_blocks_witness :
  exists s' cleared,
    TetrisApp.lock_piece 0 start_session = Ok s' /\
    TetrisApp.lines_cleared s' = TetrisApp.lines_cleared start_session + cleared /\
    Z.of_nat (count_blocks (TetrisBoard.board (TetrisApp.board s')))
    = Z.of_nat (count_blocks (TetrisBoard.board (TetrisApp.board start_session)))
      + 4 - 10 * cleared.
Proof.
  destruct (TetrisApp.lock_piece 0 start_session) as [s'|e] eqn:Hlock;
    [|vm_compute in Hlock; discriminate].
  destruct (@lock_conserves_blocks 0 start_session s' reachable_start_session
              eq_refl Hlock) as (cleared & Hlines & Hcount).
  exists s', cleared. split; [reflexivity|]. split; assumption.
Defined.
